(** * HomeEyeView: the surveillance controller of [app.py]

    A shallow embedding of [SurveillanceSystem] (camera factory, recorder,
    motion trigger, camera settings, retention sweep) and the properties
    of its operations.

    Conventions.
    - Python values that reach the controller from JSON requests are
      [pyval]s.
    - A method is a computation [M A]: it takes the world it runs in and
      returns either a value or a raised exception, together with the
      world it leaves behind (an exception keeps the mutations made
      before it).
    - Whatever the code asks of its surroundings (clock, camera, video
      writer, thread start) is read from an explicit record of answers.
    - A recording thread is run for a number of passes of its loop and is
      then either suspended at the test of [self.is_recording] or
      returned; other actors act on the world in between.  Calls of
      [start_recording] that overlap are interleaved statement by
      statement, since the code takes no lock.
    - Readings of [time.time()] and finite floats are rationals; file
      names are ASCII strings. *)

From Stdlib Require Import ZArith QArith Lia Bool Ascii String.
From stdpp Require Import gmap strings list fin_maps sorting.

Set Warnings "-register-all".

Local Open Scope Z_scope.

(** ** Python values, exceptions and formatted messages *)

(** Floats keep their three special values apart; a finite float is
    abstracted by the rational it denotes. *)
Inductive pyfloat :=
| FNaN
| FPosInf
| FNegInf
| FFinite (q : Q).

(** The values [request.json] can hold. *)
Inductive pyval :=
| PNone
| PBool (b : bool)
| PInt (z : Z)
| PFloat (f : pyfloat)
| PStr (s : string)
| PList (items : list pyval)
| PDict (items : list (string * pyval)).

(** [bool(v)]: the truth value Python gives [v] in [if v] and [v and _]. *)
Definition truthy (v : pyval) : bool :=
  match v with
  | PNone => false
  | PBool b => b
  | PInt z => negb (z =? 0)
  | PFloat (FFinite q) => negb (Qeq_bool q 0)
  | PFloat _ => true
  | PStr s => negb (String.eqb s "")
  | PList l => match l with [] => false | _ => true end
  | PDict l => match l with [] => false | _ => true end
  end.

Record pyexn := Exn { exn_class : string; exn_msg : string }.

(** An f-string, kept as its literal pieces and interpolated values. *)
Inductive fpart :=
| Text (s : string)
| Interp (v : pyval)
| InterpExn (e : pyexn).

Definition message := list fpart.

(** The [(success, message)] pair every operation of the API returns. *)
Definition result := (bool * message)%type.

(** ** The outcome of a call and the monad of methods *)

Inductive outcome (A : Type) :=
| Ret (a : A)
| Raise (e : pyexn).
Arguments Ret {A} a.
Arguments Raise {A} e.

Module Method.

Section Monad.
Context {W : Type}.

Definition M (A : Type) : Type := W -> outcome A * W.

Definition ret {A} (a : A) : M A := fun w => (Ret a, w).

Definition raise {A} (e : pyexn) : M A := fun w => (Raise e, w).

Definition bind {A B} (m : M A) (k : A -> M B) : M B :=
  fun w =>
    match m w with
    | (Ret a, w') => k a w'
    | (Raise e, w') => (Raise e, w')
    end.

Definition get : M W := fun w => (Ret w, w).

Definition modify (f : W -> W) : M unit := fun w => (Ret tt, f w).

(** [lift o]: an operation of the surroundings whose answer is known. *)
Definition lift {A} (o : outcome A) : M A := fun w => (o, w).

(** [try: body except Exception as e: handler e] *)
Definition try_except {A} (body : M A) (handler : pyexn -> M A) : M A :=
  fun w =>
    match body w with
    | (Ret a, w') => (Ret a, w')
    | (Raise e, w') => handler e w'
    end.

(** [try: body except cls: handler]: other exceptions pass through. *)
Definition try_except_class {A} (cls : string) (body : M A) (handler : M A)
  : M A :=
  fun w =>
    match body w with
    | (Ret a, w') => (Ret a, w')
    | (Raise e, w') =>
        if String.eqb (exn_class e) cls then handler w' else (Raise e, w')
    end.

End Monad.

Arguments M : clear implicits.

End Method.

Import Method.

Declare Scope method_scope.
Delimit Scope method_scope with method.
Notation "x <- m ;; k" := (bind m (fun x => k))
  (at level 100, m at next level, right associativity) : method_scope.
Notation "m ;;; k" := (bind m (fun _ => k))
  (at level 100, right associativity) : method_scope.
Local Open Scope method_scope.

(** ** The state of the controller *)

(** The three camera backends.  [PiCameraAdapter] carries whether its
    [camera] object has a [set_controls] attribute; the synthetic adapter
    carries its frame counter. *)
Inductive CameraAdapter :=
| PiCameraAdapter (has_set_controls : bool)
| OpenCVCameraAdapter
| SyntheticCameraAdapter (frame_count : nat).

(** [is_bgr_format] of each adapter. *)
Definition is_bgr_format (a : CameraAdapter) : bool :=
  match a with
  | PiCameraAdapter _ => false
  | OpenCVCameraAdapter => true
  | SyntheticCameraAdapter _ => true
  end.

(** A [threading.Thread(target=self._record_video, args=(filepath, duration))]. *)
Record Thread := mkThread {
  thread_filepath : string;
  thread_duration : pyval;
  thread_started : bool
}.

(** The attributes of a [SurveillanceSystem] object. *)
Record SurveillanceSystem := mkSystem {
  camera_adapter : option CameraAdapter;
  is_recording : bool;
  recording_thread : option Thread;
  motion_detection_enabled : bool;
  pir_pin : Z;
  recording_duration : Z;
  video_storage_path : string;
  auto_delete_days : Z;
  camera_settings : gmap string pyval
}.

(** An entry of the storage directory is a directory or a regular file. *)
Inductive fs_kind := Dir | File.

(** A control handed to [camera.set_controls]. *)
Inductive control :=
| Brightness (f : pyfloat)
| Contrast (f : pyfloat)
| AwbEnable (b : bool).

Inductive channel_order := RGB | BGR.

(** A captured image: its content (abstract) and its channel order. *)
Record Frame := mkFrame { pixels : nat; order : channel_order }.

(** What happens to the video sinks: [cv2.VideoWriter(path, ...)],
    [out.write(frame)] and [out.release()]. *)
Inductive sink_event :=
| SinkOpened (path : string)
| SinkWrote (path : string) (f : Frame)
| SinkReleased (path : string).

(** The object together with what it acts on: the entries of the storage
    directory by name, the recording threads it has started, the controls
    applied to the camera hardware, and the history of the video sinks. *)
Record World := mkWorld {
  self : SurveillanceSystem;
  storage : gmap string fs_kind;
  running : list Thread;
  applied : list control;
  sink_log : list sink_event
}.

Definition with_self (f : SurveillanceSystem -> SurveillanceSystem) (w : World)
  : World :=
  mkWorld (f (self w)) (storage w) (running w) (applied w) (sink_log w).

Definition set_camera_adapter (a : option CameraAdapter) (s : SurveillanceSystem) :=
  mkSystem a (is_recording s) (recording_thread s)
    (motion_detection_enabled s) (pir_pin s) (recording_duration s)
    (video_storage_path s) (auto_delete_days s) (camera_settings s).

Definition set_is_recording (b : bool) (s : SurveillanceSystem) :=
  mkSystem (camera_adapter s) b (recording_thread s)
    (motion_detection_enabled s) (pir_pin s) (recording_duration s)
    (video_storage_path s) (auto_delete_days s) (camera_settings s).

Definition set_recording_thread (t : option Thread) (s : SurveillanceSystem) :=
  mkSystem (camera_adapter s) (is_recording s) t
    (motion_detection_enabled s) (pir_pin s) (recording_duration s)
    (video_storage_path s) (auto_delete_days s) (camera_settings s).

Definition set_motion_detection_enabled (b : bool) (s : SurveillanceSystem) :=
  mkSystem (camera_adapter s) (is_recording s) (recording_thread s)
    b (pir_pin s) (recording_duration s)
    (video_storage_path s) (auto_delete_days s) (camera_settings s).

Definition set_auto_delete_days (d : Z) (s : SurveillanceSystem) :=
  mkSystem (camera_adapter s) (is_recording s) (recording_thread s)
    (motion_detection_enabled s) (pir_pin s) (recording_duration s)
    (video_storage_path s) d (camera_settings s).

Definition set_camera_settings (m : gmap string pyval) (s : SurveillanceSystem) :=
  mkSystem (camera_adapter s) (is_recording s) (recording_thread s)
    (motion_detection_enabled s) (pir_pin s) (recording_duration s)
    (video_storage_path s) (auto_delete_days s) m.

Definition set_storage (m : gmap string fs_kind) (w : World) : World :=
  mkWorld (self w) m (running w) (applied w) (sink_log w).

Definition set_running (l : list Thread) (w : World) : World :=
  mkWorld (self w) (storage w) l (applied w) (sink_log w).

Definition set_applied (l : list control) (w : World) : World :=
  mkWorld (self w) (storage w) (running w) l (sink_log w).

Definition set_sink_log (l : list sink_event) (w : World) : World :=
  mkWorld (self w) (storage w) (running w) (applied w) l.

(** The attribute values [__init__] assigns before it calls [init_camera]. *)
Definition initial_settings : gmap string pyval :=
  <["brightness" := PInt 0]>
  (<["contrast" := PFloat (FFinite 1)]>
  (<["zoom" := PFloat (FFinite 1)]>
  (<["white_balance" := PStr "auto"]>
  (<["exposure_mode" := PStr "auto"]>
  (<["focus" := PStr "auto"]> ∅))))).

Definition new_system : SurveillanceSystem :=
  mkSystem None false None false 18 180 "recordings" 7 initial_settings.

(** ** The camera factory *)

(** What the platform answers: whether [picamera2] could be imported,
    what constructing a backend gives, what the camera hardware says to a
    control, and how [float] reads a string. *)
Record Platform := mkPlatform {
  PICAMERA_AVAILABLE : bool;
  (** [Picamera2()] with configure and start: the camera object (whether
      it has [set_controls]) or the exception raised. *)
  Picamera2_start : outcome bool;
  (** [cv2.VideoCapture(0).isOpened()] *)
  VideoCapture_isOpened : bool;
  (** [camera.set_controls(c)]: the exception it raises, if any. *)
  set_controls_error : control -> option pyexn;
  (** [float(s)] on a string. *)
  float_of_str : string -> outcome pyfloat
}.

Module Camera.

Definition PiCameraAdapter_init (p : Platform) : M World CameraAdapter :=
  cam <- lift (Picamera2_start p) ;;
  ret (PiCameraAdapter cam).

Definition OpenCVCameraAdapter_init (p : Platform) : M World CameraAdapter :=
  if VideoCapture_isOpened p
  then ret OpenCVCameraAdapter
  else raise (Exn "Exception" "Failed to open camera").

Definition SyntheticCameraAdapter_init : M World CameraAdapter :=
  ret (SyntheticCameraAdapter 0).

Definition assign_adapter (a : CameraAdapter) : M World unit :=
  modify (with_self (set_camera_adapter (Some a))).

Definition init_camera (p : Platform) : M World unit :=
  try_except
    (if PICAMERA_AVAILABLE p
     then a <- PiCameraAdapter_init p ;; assign_adapter a
     else
       try_except
         (a <- OpenCVCameraAdapter_init p ;; assign_adapter a)
         (fun _ => a <- SyntheticCameraAdapter_init ;; assign_adapter a))
    (fun e => a <- SyntheticCameraAdapter_init ;; assign_adapter a).

End Camera.

(** ** Camera settings *)

Module Settings.

(** Integers from [2^1024 - 2^970] on round to a float that does not
    exist: [float] raises [OverflowError] on them. *)
Definition float_int_limit : Z := 2 ^ 1024 - 2 ^ 970.

(** The double nearest to the integer [z], as an integer: an integer of
    at most 53 bits is a double itself; a longer one keeps its 53
    leading bits, rounded by the bits that are cut off, upwards when
    they are more than half a unit of the last place kept, and to the
    even neighbour when they are exactly half. *)
Definition round_to_double (z : Z) : Z :=
  let a := Z.abs z in
  let bits := Z.log2 a + 1 in
  if bits <=? 53
  then z
  else
    let shift := bits - 53 in
    let q := Z.shiftr a shift in
    let r := Z.land a (Z.ones shift) in
    let half := Z.shiftl 1 (shift - 1) in
    let q' := if (half <? r) || ((r =? half) && Z.odd q) then q + 1 else q in
    Z.sgn z * Z.shiftl q' shift.

(** [float(v)]: an [int] is rounded to the nearest double. *)
Definition py_float (p : Platform) (v : pyval) : outcome pyfloat :=
  match v with
  | PNone =>
      Raise (Exn "TypeError" "float() argument must be a string or a real number, not 'NoneType'")
  | PBool b => Ret (FFinite (if b then 1 else 0)%Q)
  | PInt z =>
      if Z.abs z <? float_int_limit
      then Ret (FFinite (inject_Z (round_to_double z)))
      else Raise (Exn "OverflowError" "int too large to convert to float")
  | PFloat f => Ret f
  | PStr s => float_of_str p s
  | PList _ =>
      Raise (Exn "TypeError" "float() argument must be a string or a real number, not 'list'")
  | PDict _ =>
      Raise (Exn "TypeError" "float() argument must be a string or a real number, not 'dict'")
  end.

(** [v == s] for a string literal [s] *)
Definition eq_str (v : pyval) (s : string) : bool :=
  match v with
  | PStr s' => String.eqb s' s
  | _ => false
  end.

(** [self.camera_adapter.camera.set_controls({...})] *)
Definition set_controls (p : Platform) (c : control) : M World unit :=
  fun w =>
    match set_controls_error p c with
    | Some e => (Raise e, w)
    | None => (Ret tt, set_applied (applied w ++ [c]) w)
    end.

(** [isinstance(self.camera_adapter, PiCameraAdapter) and
    hasattr(self.camera_adapter.camera, 'set_controls')] *)
Definition has_live_controls (s : SurveillanceSystem) : bool :=
  match camera_adapter s with
  | Some (PiCameraAdapter has) => has
  | _ => false
  end.

(** Lines 276-289: the setting handed on to the Pi camera. *)
Definition apply_to_camera (p : Platform) (setting : string) (value : pyval)
  : M World unit :=
  w <- get ;;
  if PICAMERA_AVAILABLE p && has_live_controls (self w)
  then
    if String.eqb setting "brightness"
    then f <- lift (py_float p value) ;; set_controls p (Brightness f)
    else if String.eqb setting "contrast"
    then f <- lift (py_float p value) ;; set_controls p (Contrast f)
    else if String.eqb setting "white_balance"
    then
      if eq_str value "auto"
      then set_controls p (AwbEnable true)
      else set_controls p (AwbEnable false)
    else ret tt
  else ret tt.

(** [self.camera_settings[setting] = value] *)
Definition store_setting (setting : string) (value : pyval) : M World unit :=
  modify (with_self
    (fun s => set_camera_settings (<[setting := value]> (camera_settings s)) s)).

Definition updated_msg (setting value : pyval) : message :=
  [Text "Updated "; Interp setting; Text " to "; Interp value].

Definition invalid_msg (setting : pyval) : message :=
  [Text "Invalid setting: "; Interp setting].

Definition failed_msg (setting : pyval) (e : pyexn) : message :=
  [Text "Failed to update "; Interp setting; Text ": "; InterpExn e].

(** [setting in self.camera_settings] answers by the kind of [setting]:
    a string is looked up, a list or dict cannot be hashed, and no other
    value equals one of the mapping's keys, which are strings. *)
Definition update_camera_setting (p : Platform) (setting value : pyval)
  : M World result :=
  try_except
    (w <- get ;;
     match setting with
     | PStr k =>
         if bool_decide (is_Some (camera_settings (self w) !! k))
         then
           store_setting k value ;;;
           apply_to_camera p k value ;;;
           ret (true, updated_msg setting value)
         else ret (false, invalid_msg setting)
     | PList _ => raise (Exn "TypeError" "unhashable type: 'list'")
     | PDict _ => raise (Exn "TypeError" "unhashable type: 'dict'")
     | _ => ret (false, invalid_msg setting)
     end)
    (fun e => ret (false, failed_msg setting e)).

(** The keys [__init__] gives the mapping. *)
Definition setting_keys : list string :=
  ["brightness"; "contrast"; "zoom"; "white_balance"; "exposure_mode"; "focus"].

(** [setting] is one of the enumerated keys. *)
Definition known_key (setting : pyval) : bool :=
  match setting with
  | PStr k => bool_decide (k ∈ setting_keys)
  | _ => false
  end.

End Settings.

(** ** Calendar dates: what the code uses of [datetime] *)

Module Datetime.

Record datetime := mkDatetime {
  year : Z; month : Z; day : Z;
  hour : Z; minute : Z; second : Z; microsecond : Z
}.

Definition is_leap (y : Z) : bool :=
  (y mod 4 =? 0) && (negb (y mod 100 =? 0) || (y mod 400 =? 0)).

Definition DAYS_IN_MONTH (m : Z) : Z :=
  match m with
  | 1 => 31 | 2 => 28 | 3 => 31 | 4 => 30 | 5 => 31 | 6 => 30
  | 7 => 31 | 8 => 31 | 9 => 30 | 10 => 31 | 11 => 30 | 12 => 31
  | _ => 0
  end.

Definition days_in_month (y m : Z) : Z :=
  if (m =? 2) && is_leap y then 29 else DAYS_IN_MONTH m.

Definition days_before_year (y : Z) : Z :=
  let y' := y - 1 in
  y' * 365 + y' / 4 - y' / 100 + y' / 400.

Definition DAYS_BEFORE_MONTH (m : Z) : Z :=
  match m with
  | 1 => 0 | 2 => 31 | 3 => 59 | 4 => 90 | 5 => 120 | 6 => 151
  | 7 => 181 | 8 => 212 | 9 => 243 | 10 => 273 | 11 => 304 | 12 => 334
  | _ => 0
  end.

Definition days_before_month (y m : Z) : Z :=
  DAYS_BEFORE_MONTH m + (if (2 <? m) && is_leap y then 1 else 0).

(** Day number of a date, 1 for 0001-01-01. *)
Definition ymd2ord (y m d : Z) : Z :=
  days_before_year y + days_before_month y m + d.

Definition MAXORDINAL : Z := 3652059.

(** The date of a day number, by the steps of [datetime._ord2ymd]. *)
Definition ord2ymd (n0 : Z) : Z * Z * Z :=
  let n := n0 - 1 in
  let n400 := n / 146097 in
  let n := n mod 146097 in
  let n100 := n / 36524 in
  let n := n mod 36524 in
  let n4 := n / 1461 in
  let n := n mod 1461 in
  let n1 := n / 365 in
  let n := n mod 365 in
  let y := n400 * 400 + 1 + n100 * 100 + n4 * 4 + n1 in
  if (n1 =? 4) || (n100 =? 4)
  then (y - 1, 12, 31)
  else
    let leapyear := (n1 =? 3) && (negb (n4 =? 24) || (n100 =? 3)) in
    let m := (n + 50) / 32 in
    let preceding :=
      DAYS_BEFORE_MONTH m + (if (2 <? m) && leapyear then 1 else 0) in
    if n <? preceding
    then
      let m' := m - 1 in
      let preceding' :=
        preceding
        - (DAYS_IN_MONTH m' + (if (m' =? 2) && leapyear then 1 else 0)) in
      (y, m', n - preceding' + 1)
    else (y, m, n - preceding + 1).

Definition toordinal (d : datetime) : Z := ymd2ord (year d) (month d) (day d).

(** [a < b] on datetimes: the fields compared in order. *)
Definition datetime_lt (a b : datetime) : bool :=
  match year a ?= year b with
  | Lt => true | Gt => false | Eq =>
  match month a ?= month b with
  | Lt => true | Gt => false | Eq =>
  match day a ?= day b with
  | Lt => true | Gt => false | Eq =>
  match hour a ?= hour b with
  | Lt => true | Gt => false | Eq =>
  match minute a ?= minute b with
  | Lt => true | Gt => false | Eq =>
  match second a ?= second b with
  | Lt => true | Gt => false | Eq =>
    microsecond a <? microsecond b
  end end end end end end.

(** [now - timedelta(days=days)]: [timedelta] refuses more than
    999999999 days, and the subtraction refuses a result before year 1 or
    after year 9999; both raise [OverflowError]. *)
Definition minus_days (now : datetime) (days : Z) : outcome datetime :=
  if 999999999 <? Z.abs days
  then Raise (Exn "OverflowError" "days out of range for timedelta")
  else
    let n := toordinal now - days in
    if (0 <? n) && (n <=? MAXORDINAL)
    then
      let '(y, m, d) := ord2ymd n in
      Ret (mkDatetime y m d (hour now) (minute now) (second now)
             (microsecond now))
    else Raise (Exn "OverflowError" "date value out of range").

(** *** Formatting *)

Definition digit (d : Z) : ascii := ascii_of_nat (48 + Z.to_nat (d mod 10)).

Definition pad2 (n : Z) : string :=
  String (digit (n / 10)) (String (digit n) "").

Definition pad4 (n : Z) : string :=
  String (digit (n / 1000)) (String (digit (n / 100)) (pad2 n)).

(** [strftime("%Y-%m-%d")], for the years 1000 to 9999 *)
Definition strftime_date (d : datetime) : string :=
  pad4 (year d) +:+ "-" +:+ pad2 (month d) +:+ "-" +:+ pad2 (day d).

(** [strftime("%Y%m%d_%H%M%S")], for the years 1000 to 9999 *)
Definition strftime_stamp (d : datetime) : string :=
  pad4 (year d) +:+ pad2 (month d) +:+ pad2 (day d) +:+ "_" +:+
  pad2 (hour d) +:+ pad2 (minute d) +:+ pad2 (second d).

(** *** Parsing: [datetime.strptime(s, "%Y-%m-%d")]

    The format compiles to the pattern
    [(\d\d\d\d)-(1[0-2]|0[1-9]|[1-9])-(3[01]|[12]\d|0[1-9]|[1-9]| [1-9])],
    matched at the start of the string; text left over after the match,
    and a date that does not exist, raise [ValueError].  Digits are the
    ASCII ones. *)

Definition digit_of (c : ascii) : option Z :=
  let n := Z.of_nat (nat_of_ascii c) in
  if (48 <=? n) && (n <=? 57) then Some (n - 48) else None.

Definition in_range (lo hi : Z) (c : ascii) : option Z :=
  match digit_of c with
  | Some d => if (lo <=? d) && (d <=? hi) then Some d else None
  | None => None
  end.

Definition parse_year (s : list ascii) : option (Z * list ascii) :=
  match s with
  | a :: b :: c :: d :: rest =>
      match digit_of a, digit_of b, digit_of c, digit_of d with
      | Some a, Some b, Some c, Some d =>
          Some (a * 1000 + b * 100 + c * 10 + d, rest)
      | _, _, _, _ => None
      end
  | _ => None
  end.

(** One alternative of two characters: a first digit in [[l1,h1]] and a
    second in [[l2,h2]]. *)
Definition two_digits (l1 h1 l2 h2 : Z) (s : list ascii)
  : option (Z * list ascii) :=
  match s with
  | a :: b :: rest =>
      match in_range l1 h1 a, in_range l2 h2 b with
      | Some x, Some y => Some (x * 10 + y, rest)
      | _, _ => None
      end
  | _ => None
  end.

Definition one_digit (lo hi : Z) (s : list ascii) : option (Z * list ascii) :=
  match s with
  | a :: rest =>
      match in_range lo hi a with
      | Some x => Some (x, rest)
      | None => None
      end
  | _ => None
  end.

Definition or_else {A} (x y : option A) : option A :=
  match x with Some _ => x | None => y end.

(** [1[0-2]|0[1-9]|[1-9]] *)
Definition parse_month (s : list ascii) : option (Z * list ascii) :=
  or_else (two_digits 1 1 0 2 s)
    (or_else (two_digits 0 0 1 9 s) (one_digit 1 9 s)).

(** [3[01]|[12]\d|0[1-9]|[1-9]| [1-9]] *)
Definition parse_day (s : list ascii) : option (Z * list ascii) :=
  or_else (two_digits 3 3 0 1 s)
    (or_else (two_digits 1 2 0 9 s)
      (or_else (two_digits 0 0 1 9 s)
        (or_else (one_digit 1 9 s)
          match s with
          | " "%char :: rest => one_digit 1 9 rest
          | _ => None
          end))).

Definition expect_dash (s : list ascii) : option (list ascii) :=
  match s with
  | "-"%char :: rest => Some rest
  | _ => None
  end.

(** The pattern on a string: the three fields and what is left over.  A
    month alternative that matches is never given up: the dash that must
    follow decides the same way for each of them. *)
Definition match_format (s : list ascii) : option (Z * Z * Z * list ascii) :=
  match parse_year s with
  | Some (y, s1) =>
      match expect_dash s1 with
      | Some s2 =>
          match parse_month s2 with
          | Some (m, s3) =>
              match expect_dash s3 with
              | Some s4 =>
                  match parse_day s4 with
                  | Some (d, s5) => Some (y, m, d, s5)
                  | None => None
                  end
              | None => None
              end
          | None => None
          end
      | None => None
      end
  | None => None
  end.

Definition strptime (s : string) : outcome datetime :=
  match match_format (list_ascii_of_string s) with
  | None =>
      Raise (Exn "ValueError" "time data does not match format '%Y-%m-%d'")
  | Some (y, m, d, rest) =>
      match rest with
      | _ :: _ => Raise (Exn "ValueError" "unconverted data remains")
      | [] =>
          if (1 <=? y) && (d <=? days_in_month y m)
          then Ret (mkDatetime y m d 0 0 0 0)
          else Raise (Exn "ValueError" "day is out of range for month")
      end
  end.

End Datetime.

(** ** The recorder: start, stop, motion trigger and the capture loop *)

Module Recorder.

Import Datetime.

(** What a call of [start_recording] finds: the two readings of
    [datetime.now()] and what [Thread.start()] does. *)
Record StartEnv := mkStartEnv {
  now_stamp : datetime;
  now_date : datetime;
  thread_start_error : option pyexn
}.

(** [os.path.join(a, b)] for a relative [b] *)
Definition path_join (a b : string) : string := a +:+ "/" +:+ b.

(** [os.makedirs(folder_path, exist_ok=True)] for a folder of the storage
    directory: an existing directory is accepted, an existing file is
    not. *)
Definition makedirs (date_folder : string) : M World unit :=
  fun w =>
    match storage w !! date_folder with
    | Some Dir => (Ret tt, w)
    | Some File => (Raise (Exn "FileExistsError" date_folder), w)
    | None => (Ret tt, set_storage (<[date_folder := Dir]> (storage w)) w)
    end.

Definition mark_started (t : Thread) : Thread :=
  mkThread (thread_filepath t) (thread_duration t) true.

(** [self.recording_thread.start()] *)
Definition thread_start (env : StartEnv) : M World unit :=
  fun w =>
    match thread_start_error env with
    | Some e => (Raise e, w)
    | None =>
        match recording_thread (self w) with
        | Some t =>
            (Ret tt,
             set_running (running w ++ [mark_started t])
               (with_self (set_recording_thread (Some (mark_started t))) w))
        | None => (Raise (Exn "AttributeError" "start"), w)
        end
    end.

Definition already_recording_msg : message := [Text "Already recording"].

Definition started_msg (filename : string) : message :=
  [Text "Recording started: "; Interp (PStr filename)].

Definition start_failed_msg (e : pyexn) : message :=
  [Text "Recording failed: "; InterpExn e].

Definition recording_filename (env : StartEnv) (trigger : string) : string :=
  trigger +:+ "_" +:+ strftime_stamp (now_stamp env) +:+ ".mp4".

(** Line 203: [self.is_recording = True] *)
Definition raise_flag : M World unit :=
  modify (with_self (set_is_recording true)).

(** Lines 204-219: the rest of the [try] block. *)
Definition start_rest (env : StartEnv) (duration : pyval) (trigger : string)
  : M World result :=
  let date_folder := strftime_date (now_date env) in
  w <- get ;;
  let folder_path := path_join (video_storage_path (self w)) date_folder in
  makedirs date_folder ;;;
  let filename := recording_filename env trigger in
  let filepath := path_join folder_path filename in
  modify (with_self
    (set_recording_thread (Some (mkThread filepath duration false)))) ;;;
  thread_start env ;;;
  ret (true, started_msg filename).

(** Lines 220-222: the [except] block. *)
Definition start_handler (e : pyexn) : M World result :=
  modify (with_self (set_is_recording false)) ;;;
  ret (false, start_failed_msg e).

Definition start_recording (env : StartEnv) (duration : pyval)
  (trigger : string) : M World result :=
  w <- get ;;
  if is_recording (self w)
  then ret (false, already_recording_msg)
  else try_except (raise_flag ;;; start_rest env duration trigger) start_handler.

(** [motion_detected(channel)]: the PIR callback. *)
Definition motion_detected (env : StartEnv) (channel : pyval) : M World unit :=
  w <- get ;;
  if motion_detection_enabled (self w) && negb (is_recording (self w))
  then
    _ <- start_recording env (PInt (recording_duration (self w))) "motion" ;;
    ret tt
  else ret tt.

(** [thread.join(timeout=5)]: waiting changes nothing here; joining a
    thread that was never started raises. *)
Definition join (t : Thread) : M World unit :=
  if thread_started t
  then ret tt
  else raise (Exn "RuntimeError" "cannot join thread before it is started").

Definition not_recording_msg : message := [Text "Not currently recording"].

Definition stop_recording : M World result :=
  w <- get ;;
  if negb (is_recording (self w))
  then ret (false, not_recording_msg)
  else
    modify (with_self (set_is_recording false)) ;;;
    match recording_thread (self w) with
    | Some t => join t
    | None => ret tt
    end ;;;
    ret (true, [Text "Recording stopped"]).

(** *** The capture loop *)

(** What one run of [_record_video] finds, tick by tick. *)
Record RecEnv := mkRecEnv {
  (** [cv2.VideoWriter(...)]: the exception it raises, if any. *)
  VideoWriter_error : option pyexn;
  (** [time.time()] on line 230 *)
  start_time : Q;
  (** [time.time()] on line 245, in tick [k] *)
  time_at : nat -> Q;
  (** the camera hardware in tick [k]: the image it delivers, none, or an
      exception *)
  camera_read : nat -> outcome (option nat);
  (** [out.write(frame)] in tick [k]: the exception it raises, if any. *)
  write_error : nat -> option pyexn
}.

(** [self.get_frame()]: the adapter's frame, [None] without an adapter or
    when the capture raises. *)
Definition get_frame (hw : outcome (option nat)) : M World (option Frame) :=
  w <- get ;;
  match camera_adapter (self w) with
  | None => ret None
  | Some (PiCameraAdapter _) =>
      match hw with
      | Ret (Some px) => ret (Some (mkFrame px RGB))
      | Ret None => ret None
      | Raise _ => ret None
      end
  | Some OpenCVCameraAdapter =>
      match hw with
      | Ret (Some px) => ret (Some (mkFrame px BGR))
      | Ret None => ret None
      | Raise _ => ret None
      end
  | Some (SyntheticCameraAdapter n) =>
      modify (with_self
        (set_camera_adapter (Some (SyntheticCameraAdapter (S n))))) ;;;
      ret (Some (mkFrame n BGR))
  end.

(** Lines 236-241: the frame in the order the writer wants. *)
Definition to_bgr (f : Frame) : M World Frame :=
  w <- get ;;
  match camera_adapter (self w) with
  | Some a => if is_bgr_format a then ret f else ret (mkFrame (pixels f) BGR)
  | None => ret f
  end.

Definition log_sink (e : sink_event) : M World unit :=
  modify (fun w => set_sink_log (sink_log w ++ [e]) w).

(** Line 228 *)
Definition open_sink (r : RecEnv) (filepath : string) : M World unit :=
  match VideoWriter_error r with
  | Some e => raise e
  | None => log_sink (SinkOpened filepath)
  end.

(** Line 242 *)
Definition sink_write (r : RecEnv) (filepath : string) (k : nat) (f : Frame)
  : M World unit :=
  match write_error r k with
  | Some e => raise e
  | None => log_sink (SinkWrote filepath f)
  end.

(** Line 250 *)
Definition sink_release (filepath : string) : M World unit :=
  log_sink (SinkReleased filepath).

Definition not_comparable (kind : string) : pyexn :=
  Exn "TypeError"
    ("'>=' not supported between instances of 'float' and '" +:+ kind +:+ "'").

(** [elapsed >= duration] for the float [elapsed] *)
Definition ge_duration (elapsed : Q) (duration : pyval) : outcome bool :=
  match duration with
  | PBool b => Ret (Qle_bool (if b then 1 else 0) elapsed)
  | PInt z => Ret (Qle_bool (inject_Z z) elapsed)
  | PFloat (FFinite q) => Ret (Qle_bool q elapsed)
  | PFloat FNegInf => Ret true
  | PFloat FPosInf => Ret false
  | PFloat FNaN => Ret false
  | PNone => Raise (not_comparable "NoneType")
  | PStr _ => Raise (not_comparable "str")
  | PList _ => Raise (not_comparable "list")
  | PDict _ => Raise (not_comparable "dict")
  end.

(** Line 245: [duration and (time.time() - start_time) >= duration] *)
Definition cap_reached (r : RecEnv) (k : nat) (duration : pyval) : outcome bool :=
  if truthy duration
  then ge_duration (time_at r k - start_time r) duration
  else Ret false.

(** Lines 233-246: one pass through the loop body; [true] is [break]. *)
Definition tick (r : RecEnv) (filepath : string) (duration : pyval) (k : nat)
  : M World bool :=
  frame <- get_frame (camera_read r k) ;;
  match frame with
  | Some f => frame_bgr <- to_bgr f ;; sink_write r filepath k frame_bgr
  | None => ret tt
  end ;;;
  lift (cap_reached r k duration).

(** How the loop was left. *)
Inductive loop_exit :=
| ConditionFalse
| Break.

(** A loop that has run for a while is either still going, about to test
    [self.is_recording] for tick [k], or has been left. *)
Inductive loop_run :=
| Looping (k : nat) (w : World)
| Left (o : outcome loop_exit) (w : World).

(** [fuel] passes of [while self.is_recording: ...], from tick [k]. *)
Fixpoint capture_loop (fuel : nat) (r : RecEnv) (filepath : string)
  (duration : pyval) (k : nat) (w : World) : loop_run :=
  match fuel with
  | O => Looping k w
  | S fuel' =>
      if is_recording (self w)
      then
        match tick r filepath duration k w with
        | (Raise e, w') => Left (Raise e) w'
        | (Ret true, w') => Left (Ret Break) w'
        | (Ret false, w') => capture_loop fuel' r filepath duration (S k) w'
        end
      else Left (Ret ConditionFalse) w
  end.

(** How [_record_video] ended; the function itself returns nothing. *)
Inductive ending :=
| Stopped
| CapReached
| Failed (e : pyexn).

(** The thread of [_record_video] after a while: suspended in its loop,
    or returned. *)
Inductive thread_run :=
| Suspended (k : nat) (w : World)
| Returned (x : ending) (w : World).

(** Line 256, the [finally] block *)
Definition lower_flag (w : World) : World := with_self (set_is_recording false) w.

(** The thread from tick [k] of its loop on: the loop, then
    [out.release()] when the loop was left without an exception; an
    exception goes to the [except] block, which only prints; the
    [finally] block runs in every case. *)
Definition record_from (fuel : nat) (r : RecEnv) (filepath : string)
  (duration : pyval) (k : nat) (w : World) : thread_run :=
  match capture_loop fuel r filepath duration k w with
  | Looping k' w' => Suspended k' w'
  | Left (Raise e) w' => Returned (Failed e) (lower_flag w')
  | Left (Ret x) w' =>
      match sink_release filepath w' with
      | (Ret _, w'') =>
          Returned (match x with ConditionFalse => Stopped | Break => CapReached end)
            (lower_flag w'')
      | (Raise e, w'') => Returned (Failed e) (lower_flag w'')
      end
  end.

Definition _record_video (fuel : nat) (r : RecEnv) (filepath : string)
  (duration : pyval) (w : World) : thread_run :=
  match open_sink r filepath w with
  | (Raise e, w') => Returned (Failed e) (lower_flag w')
  | (Ret _, w') => record_from fuel r filepath duration 0 w'
  end.

Definition is_release (path : string) (e : sink_event) : bool :=
  match e with
  | SinkReleased p => String.eqb p path
  | _ => false
  end.

Definition is_open (path : string) (e : sink_event) : bool :=
  match e with
  | SinkOpened p => String.eqb p path
  | _ => false
  end.

(** How often the sink at [path] was closed, and how often opened. *)
Definition releases (path : string) (log : list sink_event) : nat :=
  length (List.filter (is_release path) log).

Definition opens (path : string) (log : list sink_event) : nat :=
  length (List.filter (is_open path) log).

(** *** Calls of [start_recording] that overlap

    Nothing in the code holds a lock, so a second thread can run between
    any two statements of a call.  A call is cut where it reads or writes
    [self.is_recording]: the test of line 199, the assignment of line 203,
    and the rest of the method. *)

Inductive start_pc :=
| AtCheck
| AtRaiseFlag
| AtRest
| Finished (o : outcome result).

Record call := mkCall {
  call_env : StartEnv;
  call_duration : pyval;
  call_trigger : string
}.

Definition start_step (c : call) (pc : start_pc) (w : World) : start_pc * World :=
  match pc with
  | AtCheck =>
      if is_recording (self w)
      then (Finished (Ret (false, already_recording_msg)), w)
      else (AtRaiseFlag, w)
  | AtRaiseFlag => (AtRest, snd (raise_flag w))
  | AtRest =>
      let '(o, w') :=
        try_except (start_rest (call_env c) (call_duration c) (call_trigger c))
          start_handler w in
      (Finished o, w')
  | Finished o => (Finished o, w)
  end.

(** Two callers and the world they share. *)
Record race := mkRace { pc1 : start_pc; pc2 : start_pc; shared : World }.

(** One step of the first caller ([true]) or of the second ([false]). *)
Definition race_step (c1 c2 : call) (first : bool) (x : race) : race :=
  if first
  then let '(pc, w) := start_step c1 (pc1 x) (shared x) in mkRace pc (pc2 x) w
  else let '(pc, w) := start_step c2 (pc2 x) (shared x) in mkRace (pc1 x) pc w.

Definition run_race (c1 c2 : call) (schedule : list bool) (w : World) : race :=
  fold_left (fun x first => race_step c1 c2 first x) schedule
    (mkRace AtCheck AtCheck w).

(** The call was accepted. *)
Definition succeeded (pc : start_pc) : bool :=
  match pc with
  | Finished (Ret (true, _)) => true
  | _ => false
  end.

End Recorder.

(** ** The retention sweep *)

Module Retention.

Import Datetime.

(** [os.listdir(self.video_storage_path)]: the names, in the order the
    directory gives them. *)
Definition listdir : M World (list string) :=
  fun w => (Ret (map_to_list (storage w)).*1, w).

(** [shutil.rmtree(folder_path)] on an entry of the storage directory *)
Definition rmtree (name : string) : M World unit :=
  fun w =>
    match storage w !! name with
    | Some Dir => (Ret tt, set_storage (delete name (storage w)) w)
    | Some File => (Raise (Exn "NotADirectoryError" name), w)
    | None => (Raise (Exn "FileNotFoundError" name), w)
    end.

(** Lines 346-354: the body of the [for] loop for one name. *)
Definition visit (cutoff_date : datetime) (date_folder : string)
  (deleted_count : Z) : M World Z :=
  try_except_class "ValueError"
    (folder_date <- lift (strptime date_folder) ;;
     if datetime_lt folder_date cutoff_date
     then rmtree date_folder ;;; ret (deleted_count + 1)
     else ret deleted_count)
    (ret deleted_count).

Fixpoint sweep (cutoff_date : datetime) (names : list string)
  (deleted_count : Z) : M World Z :=
  match names with
  | [] => ret deleted_count
  | date_folder :: rest =>
      c <- visit cutoff_date date_folder deleted_count ;;
      sweep cutoff_date rest c
  end.

Definition deleted_msg (deleted_count : Z) : message :=
  [Text "Deleted "; Interp (PInt deleted_count); Text " old recording folders"].

Definition cleanup_failed_msg (e : pyexn) : message :=
  [Text "Cleanup failed: "; InterpExn e].

(** [now] is the reading of [datetime.now()] on line 342. *)
Definition cleanup_old_recordings (now : datetime) : M World result :=
  try_except
    (w <- get ;;
     cutoff_date <- lift (minus_days now (auto_delete_days (self w))) ;;
     names <- listdir ;;
     deleted_count <- sweep cutoff_date names 0 ;;
     ret (true, deleted_msg deleted_count))
    (fun e => ret (false, cleanup_failed_msg e)).

(** The name parses as a date that lies before the cutoff. *)
Definition expired (cutoff_date : datetime) (name : string) : bool :=
  match strptime name with
  | Ret folder_date => datetime_lt folder_date cutoff_date
  | Raise _ => false
  end.

End Retention.

(** ** The remaining entry points *)

Module Api.

(** [SurveillanceSystem()] without the PIR set-up: the attributes of
    [__init__], then [init_camera], over whatever the storage directory
    already holds. *)
Definition boot (p : Platform) (files : gmap string fs_kind) : World :=
  snd (Camera.init_camera p (mkWorld new_system files [] [] [])).

(** [/api/toggle-motion-detection] *)
Definition toggle_motion_detection : M World bool :=
  modify (with_self
    (fun s => set_motion_detection_enabled (negb (motion_detection_enabled s)) s)) ;;;
  w <- get ;;
  ret (motion_detection_enabled (self w)).

(** [/api/set-auto-delete], once [int(days)] has given [days] *)
Definition set_auto_delete (days : Z) : M World Z :=
  modify (with_self (set_auto_delete_days days)) ;;;
  ret days.

Definition world_of (t : Recorder.thread_run) : World :=
  match t with
  | Recorder.Suspended _ w => w
  | Recorder.Returned _ w => w
  end.

(** What one actor does to the world in one go: a request handler, the
    PIR callback, a statement of an overlapping [start_recording], or a
    recording thread advancing. *)
Inductive step : World -> World -> Prop :=
| step_start env duration trigger w :
    step w (snd (Recorder.start_recording env duration trigger w))
| step_start_part c pc w :
    step w (snd (Recorder.start_step c pc w))
| step_stop w :
    step w (snd (Recorder.stop_recording w))
| step_motion env channel w :
    step w (snd (Recorder.motion_detected env channel w))
| step_setting p setting value w :
    step w (snd (Settings.update_camera_setting p setting value w))
| step_cleanup now w :
    step w (snd (Retention.cleanup_old_recordings now w))
| step_toggle w :
    step w (snd (toggle_motion_detection w))
| step_auto_delete days w :
    step w (snd (set_auto_delete days w))
| step_frame hw w :
    step w (snd (Recorder.get_frame hw w))
| step_thread_begin fuel r filepath duration w :
    step w (world_of (Recorder._record_video fuel r filepath duration w))
| step_thread_resume fuel r filepath duration k w :
    step w (world_of (Recorder.record_from fuel r filepath duration k w)).

(** The worlds the running program can be in. *)
Inductive reachable : World -> Prop :=
| reach_boot p files : reachable (boot p files)
| reach_step w w' : reachable w -> step w w' -> reachable w'.

End Api.

(** ** Concrete situations used to exercise the statements *)

Module Scenario.

Import Datetime Recorder.

(** A development machine: no [picamera2], no capture device. *)
Definition laptop : Platform :=
  mkPlatform false (Raise (Exn "NameError" "Picamera2")) false
    (fun _ => None)
    (fun _ => Raise (Exn "ValueError" "could not convert string to float")).

(** A Pi whose library imports but whose camera does not start, with a
    USB camera that would open. *)
Definition pi_without_sensor : Platform :=
  mkPlatform true (Raise (Exn "RuntimeError" "Camera __init__ sequence did not complete"))
    true (fun _ => None)
    (fun _ => Raise (Exn "ValueError" "could not convert string to float")).

(** A Pi with a working camera. *)
Definition pi : Platform :=
  mkPlatform true (Ret true) true (fun _ => None)
    (fun _ => Raise (Exn "ValueError" "could not convert string to float")).

Definition idle_laptop : World := Api.boot laptop ∅.

Definition idle_pi : World := Api.boot pi ∅.

Definition armed_laptop : World := snd (Api.toggle_motion_detection idle_laptop).

(** 2024-01-15, 10:03:07 *)
Definition morning : datetime := mkDatetime 2024 1 15 10 3 7 0.

Definition at_morning : StartEnv := mkStartEnv morning morning None.

Definition manual_call : call := mkCall at_morning PNone "manual".

Definition motion_call : call := mkCall at_morning (PInt 180) "motion".

(** A clock that advances by a thirtieth of a second per tick, a camera
    that delivers, a writer that accepts. *)
Definition smooth : RecEnv :=
  mkRecEnv None 100
    (fun k => 100 + inject_Z (Z.of_nat (S k)) / 30)%Q
    (fun k => Ret (Some k))
    (fun _ => None).

(** The same, with a writer that fails in tick 2. *)
Definition bad_write : RecEnv :=
  mkRecEnv None 100
    (fun k => 100 + inject_Z (Z.of_nat (S k)) / 30)%Q
    (fun k => Ret (Some k))
    (fun k => if Nat.eqb k 2 then Some (Exn "cv2.error" "write") else None).

(** The world after [start_recording(duration=d)] on the idle laptop. *)
Definition recording (d : pyval) : World :=
  snd (start_recording at_morning d "manual" idle_laptop).

Definition clip : string := "recordings/2024-01-15/manual_20240115_100307.mp4".

(** The archive of the retention example, with a stray file. *)
Definition archive : gmap string fs_kind :=
  <["2024-01-01" := Dir]> (<["2024-01-10" := Dir]> (<["notes.txt" := File]> ∅)).

Definition with_archive : World := Api.boot laptop archive.

(** 2024-01-15, 12:00:00 *)
Definition noon : datetime := mkDatetime 2024 1 15 12 0 0 0.

End Scenario.

(** ** The archive as the listing endpoint sees it *)

Module Library.

(** What the disk answers below the storage directory. *)
Record Disk := mkDisk {
  (** [os.listdir(date_path)]: the names of a date folder, in directory
      order, or the exception raised. *)
  listdir_of : string -> outcome (list string);
  (** [os.stat(video_path)]: [st_size], and [st_ctime] as
      [datetime.fromtimestamp(...).isoformat()] renders it. *)
  stat_of : string -> outcome (Z * string);
  (** [cv2.VideoCapture(video_path)]: the frame rate and the frame count
      it reports, or the exception raised. *)
  probe : string -> outcome (Q * Q);
  (** [round(x, 2)] on a float *)
  round2 : Q -> Q
}.

(** One entry of the listing. *)
Record VideoInfo := mkVideoInfo {
  filename : string;
  path : string;
  size : Z;
  created : string;
  duration : pyval
}.

(** [a <= b] on strings, as [sorted] compares them. *)
Definition str_le (a b : string) : Prop := String.leb a b = true.

#[global] Instance str_le_dec a b : Decision (str_le a b).
Proof. unfold str_le. apply _. Defined.

(** [sorted(names)] *)
Definition sorted (names : list string) : list string :=
  merge_sort str_le names.

(** [s.endswith(suffix)] *)
Definition endswith (s suffix : string) : bool :=
  bool_decide
    (list_ascii_of_string suffix `suffix_of` list_ascii_of_string s).

(** [video_file.endswith(('.mp4', '.avi', '.mov'))] *)
Definition is_video_name (video_file : string) : bool :=
  endswith video_file ".mp4" || endswith video_file ".avi"
  || endswith video_file ".mov".

(** [get_video_duration(video_path)]: the frame count over the frame
    rate, rounded, when the rate is positive; [0] when it is not, and
    [0] when anything raises. *)
Definition get_video_duration (disk : Disk) (video_path : string) : pyval :=
  match probe disk video_path with
  | Ret (fps, frame_count) =>
      if Qlt_le_dec 0 fps
      then PFloat (FFinite (round2 disk (frame_count / fps)))
      else PInt 0
  | Raise _ => PInt 0
  end.

(** Lines 307-317: the entries of one date folder, from its sorted
    names; the first [os.stat] that raises ends it. *)
Fixpoint collect_videos (disk : Disk) (date_path : string)
  (names : list string) : outcome (list VideoInfo) :=
  match names with
  | [] => Ret []
  | video_file :: rest =>
      if is_video_name video_file
      then
        let video_path := Recorder.path_join date_path video_file in
        match stat_of disk video_path with
        | Raise e => Raise e
        | Ret (st_size, ctime) =>
            let info :=
              mkVideoInfo video_file video_path st_size ctime
                (get_video_duration disk video_path) in
            match collect_videos disk date_path rest with
            | Raise e => Raise e
            | Ret videos => Ret (info :: videos)
            end
        end
      else collect_videos disk date_path rest
  end.

Definition folder_videos (disk : Disk) (date_path : string)
  : outcome (list VideoInfo) :=
  match listdir_of disk date_path with
  | Raise e => Raise e
  | Ret names => collect_videos disk date_path (sorted names)
  end.

(** Lines 303-320: the loop over the sorted entries of the storage
    directory.  An exception leaves the loop, and the function returns
    what [video_structure] holds by then. *)
Fixpoint scan_folders (disk : Disk) (root : string)
  (entries : gmap string fs_kind) (folders : list string)
  (video_structure : list (string * list VideoInfo))
  : list (string * list VideoInfo) :=
  match folders with
  | [] => video_structure
  | date_folder :: rest =>
      match entries !! date_folder with
      | Some Dir =>
          match folder_videos disk (Recorder.path_join root date_folder) with
          | Raise _ => video_structure
          | Ret [] => scan_folders disk root entries rest video_structure
          | Ret videos =>
              scan_folders disk root entries rest
                (video_structure ++ [(date_folder, videos)])
          end
      | _ => scan_folders disk root entries rest video_structure
      end
  end.

(** [get_video_files()]: the date folders that hold videos, each with
    its entries, in the order the dict receives them. *)
Definition get_video_files (disk : Disk) (w : World)
  : list (string * list VideoInfo) :=
  scan_folders disk (video_storage_path (self w)) (storage w)
    (sorted (map_to_list (storage w)).*1) [].

End Library.

(** ** The request handlers *)

Module Routes.

Import Recorder.

(** [d.get(key, default)] on a dict, given as its items (distinct keys). *)
Fixpoint dict_get (items : list (string * pyval)) (key : string)
  (default : pyval) : pyval :=
  match items with
  | [] => default
  | (k, v) :: rest =>
      if String.eqb k key then v else dict_get rest key default
  end.

Definition no_get (kind : string) : pyexn :=
  Exn "AttributeError" ("'" +:+ kind +:+ "' object has no attribute 'get'").

(** [body.get(key, default)] for whatever [request.json] holds. *)
Definition json_get (body : pyval) (key : string) (default : pyval)
  : outcome pyval :=
  match body with
  | PDict items => Ret (dict_get items key default)
  | PNone => Raise (no_get "NoneType")
  | PBool _ => Raise (no_get "bool")
  | PInt _ => Raise (no_get "int")
  | PFloat _ => Raise (no_get "float")
  | PStr _ => Raise (no_get "str")
  | PList _ => Raise (no_get "list")
  end.

(** [/api/start-recording]:
    [duration = request.json.get('duration') if request.json else None] *)
Definition start_recording_route (env : StartEnv) (request_json : pyval)
  : M World result :=
  duration <-
    (if truthy request_json
     then lift (json_get request_json "duration" PNone)
     else ret PNone) ;;
  start_recording env duration "manual".

(** [/api/stop-recording] *)
Definition stop_recording_route : M World result := stop_recording.

(** [/api/camera-settings] *)
Definition update_camera_settings_route (p : Platform) (request_json : pyval)
  : M World result :=
  setting <- lift (json_get request_json "setting" PNone) ;;
  value <- lift (json_get request_json "value" PNone) ;;
  Settings.update_camera_setting p setting value.

(** [int(v)]; how [int] reads a string is the caller's to say. *)
Definition py_int (int_of_str : string -> outcome Z) (v : pyval) : outcome Z :=
  match v with
  | PNone =>
      Raise (Exn "TypeError" "int() argument must be a string, a bytes-like object or a real number, not 'NoneType'")
  | PBool b => Ret (if b then 1 else 0)
  | PInt z => Ret z
  | PFloat (FFinite q) => Ret (Z.quot (Qnum q) (Zpos (Qden q)))
  | PFloat FNaN => Raise (Exn "ValueError" "cannot convert float NaN to integer")
  | PFloat _ =>
      Raise (Exn "OverflowError" "cannot convert float infinity to integer")
  | PStr s => int_of_str s
  | PList _ =>
      Raise (Exn "TypeError" "int() argument must be a string, a bytes-like object or a real number, not 'list'")
  | PDict _ =>
      Raise (Exn "TypeError" "int() argument must be a string, a bytes-like object or a real number, not 'dict'")
  end.

(** [/api/set-auto-delete]:
    [days = request.json.get('days', 7)], then
    [surveillance.auto_delete_days = int(days)] *)
Definition set_auto_delete_route (int_of_str : string -> outcome Z)
  (request_json : pyval) : M World Z :=
  days <- lift (json_get request_json "days" (PInt 7)) ;;
  n <- lift (py_int int_of_str days) ;;
  Api.set_auto_delete n.

(** [/api/cleanup-old] *)
Definition cleanup_old_route (now : Datetime.datetime) : M World result :=
  Retention.cleanup_old_recordings now.

(** A JSON answer with its HTTP status. *)
Record response := mkResponse { body : result; status : Z }.

(** [/api/dev/simulate-motion] *)
Definition simulate_motion (RPI_AVAILABLE : bool) (env : StartEnv)
  : M World response :=
  if negb RPI_AVAILABLE
  then
    motion_detected env PNone ;;;
    ret (mkResponse (true, [Text "Motion simulation triggered"]) 200)
  else ret (mkResponse (false, [Text "Not available on Pi hardware"]) 403).

(** What [/api/status] reports. *)
Record Status := mkStatus {
  status_camera_available : bool;
  status_is_recording : bool;
  status_motion_detection : bool;
  status_settings : gmap string pyval;
  status_auto_delete_days : Z
}.

Definition get_status (w : World) : Status :=
  mkStatus
    (match camera_adapter (self w) with Some _ => true | None => false end)
    (is_recording (self w))
    (motion_detection_enabled (self w))
    (camera_settings (self w))
    (auto_delete_days (self w)).

(** What a handler sends over the socket: [emit('video_frame', ...)]
    with the JPEG of a frame. *)
Inductive emitted :=
| VideoFrame (f : Frame).

(** [handle_frame_request()] *)
Definition handle_frame_request (hw : outcome (option nat))
  : M World (list emitted) :=
  frame <- get_frame hw ;;
  match frame with
  | Some f => frame_bgr <- to_bgr f ;; ret [VideoFrame frame_bgr]
  | None => ret []
  end.

End Routes.

(** ** Notions used in the statements *)

Module Notions.

Import Datetime Recorder.

(** The attributes no operation assigns, and the key set of the settings
    mapping, are the same in [w'] as in [w]. *)
Definition stable (w w' : World) : Prop :=
  recording_duration (self w') = recording_duration (self w) /\
  video_storage_path (self w') = video_storage_path (self w) /\
  dom (camera_settings (self w')) = dom (camera_settings (self w)).

(** A computation that leaves them alone, whatever its outcome. *)
Definition keeps {A} (m : M World A) : Prop :=
  forall w, stable w (snd (m w)).

(** Constructing the hardware backend: without the library there is
    nothing to construct. *)
Definition hardware_backend (p : Platform) : outcome bool :=
  if PICAMERA_AVAILABLE p
  then Picamera2_start p
  else Raise (Exn "NameError" "name 'Picamera2' is not defined").

(** The fallback order as the specification words it: hardware first,
    then the generic capture device, then the synthetic generator, the
    first that can be constructed being taken. *)
Definition spec_fallback (p : Platform) : CameraAdapter :=
  match hardware_backend p with
  | Ret cam => PiCameraAdapter cam
  | Raise _ =>
      if VideoCapture_isOpened p
      then OpenCVCameraAdapter
      else SyntheticCameraAdapter 0
  end.

(** The adapter [init_camera] settles on. *)
Definition chosen_adapter (p : Platform) : CameraAdapter :=
  if PICAMERA_AVAILABLE p
  then
    match Picamera2_start p with
    | Ret cam => PiCameraAdapter cam
    | Raise _ => SyntheticCameraAdapter 0
    end
  else
    if VideoCapture_isOpened p
    then OpenCVCameraAdapter
    else SyntheticCameraAdapter 0.

(** The thread object a call builds. *)
Definition thread_of (env : StartEnv) (duration : pyval) (trigger : string)
  (w : World) : Thread :=
  mkThread
    (path_join
       (path_join (video_storage_path (self w)) (strftime_date (now_date env)))
       (recording_filename env trigger))
    duration true.

(** How a thread ended, if it has. *)
Definition ending_of (t : thread_run) : option ending :=
  match t with
  | Suspended _ _ => None
  | Returned x _ => Some x
  end.

(** A duration that is a finite number, as a rational. *)
Definition finite_cap (duration : pyval) : option Q :=
  match duration with
  | PInt z => Some (inject_Z z)
  | PBool b => Some (if b then 1 else 0)%Q
  | PFloat (FFinite q) => Some q
  | _ => None
  end.

(** [time.time() - start_time] as tick [k] reads it. *)
Definition elapsed (r : RecEnv) (k : nat) : Q := (time_at r k - start_time r)%Q.

(** Nothing goes wrong with the sink up to tick [k]. *)
Definition sink_sound (r : RecEnv) (k : nat) : Prop :=
  VideoWriter_error r = None /\ forall j, (j <= k)%nat -> write_error r j = None.

(** The directory after the named entries are gone. *)
Definition remove_all (names : list string) (m : gmap string fs_kind)
  : gmap string fs_kind :=
  fold_left (fun m name => delete name m) names m.

End Notions.

(** ** Proof tools *)

Ltac unfold_method :=
  unfold bind, ret, raise, get, modify, lift, try_except, try_except_class
    in *.

Ltac break_match :=
  match goal with
  | |- context [match ?x with _ => _ end] => destruct x eqn:?
  | |- context [if ?b then _ else _] => destruct b eqn:?
  end.

(** Case analysis on a scrutinee that is not itself a case analysis. *)
Ltac break_inner :=
  match goal with
  | |- context [match ?x with _ => _ end] =>
      lazymatch x with
      | context [match _ with _ => _ end] => fail
      | _ => destruct x eqn:?
      end
  end.

(** The hints that show what a method leaves alone. *)
Create HintDb keeps discriminated.

Module Tools.

Import Recorder.

(** The statements of one pass of the capture loop, case by case. *)
Ltac tick_cases :=
  unfold tick, get_frame, to_bgr, sink_write, log_sink; unfold_method;
  repeat (break_inner; cbn); simplify_eq/=.

End Tools.

(** ** Further notions used in the statements *)

Module Frames.

(** Which backend an adapter is, whatever its counter. *)
Inductive backend :=
| PiBackend (has_set_controls : bool)
| OpenCVBackend
| SyntheticBackend.

Definition backend_of (a : CameraAdapter) : backend :=
  match a with
  | PiCameraAdapter has => PiBackend has
  | OpenCVCameraAdapter => OpenCVBackend
  | SyntheticCameraAdapter _ => SyntheticBackend
  end.

(** [w'] has the camera backend of [w]. *)
Definition same_backend (w w' : World) : Prop :=
  backend_of <$> camera_adapter (self w') = backend_of <$> camera_adapter (self w).

(** Every entry of the storage directory of [w] is still there in [w']. *)
Definition entries_kept (w w' : World) : Prop :=
  forall name kind, storage w !! name = Some kind -> storage w' !! name = Some kind.

(** A computation whose every run is related to its start by [R]. *)
Definition preserves {A} (R : relation World) (m : M World A) : Prop :=
  forall w, R w (snd (m w)).

(** The elementary updates of the world, each kept by [R]. *)
Record elementary (R : relation World) : Prop := mkElementary {
  el_flag : forall b w, R w (with_self (set_is_recording b) w);
  el_thread : forall t w, R w (with_self (set_recording_thread t) w);
  el_settings : forall m w,
    R w (with_self (set_camera_settings m) w);
  el_motion : forall b w,
    R w (with_self (set_motion_detection_enabled b) w);
  el_days : forall d w, R w (with_self (set_auto_delete_days d) w);
  el_running : forall l w, R w (set_running l w);
  el_applied : forall l w, R w (set_applied l w);
  el_sink_log : forall l w, R w (set_sink_log l w);
  el_new_folder : forall name w,
    storage w !! name = None ->
    R w (set_storage (<[name := Dir]> (storage w)) w);
  el_counter : forall n w,
    camera_adapter (self w) = Some (SyntheticCameraAdapter n) ->
    R w (with_self (set_camera_adapter (Some (SyntheticCameraAdapter (S n)))) w)
}.

(** A step of the program that is not a retention sweep. *)
Inductive step_no_sweep : World -> World -> Prop :=
| ns_start env duration trigger w :
    step_no_sweep w (snd (Recorder.start_recording env duration trigger w))
| ns_start_part c pc w :
    step_no_sweep w (snd (Recorder.start_step c pc w))
| ns_stop w :
    step_no_sweep w (snd (Recorder.stop_recording w))
| ns_motion env channel w :
    step_no_sweep w (snd (Recorder.motion_detected env channel w))
| ns_setting p setting value w :
    step_no_sweep w (snd (Settings.update_camera_setting p setting value w))
| ns_toggle w :
    step_no_sweep w (snd (Api.toggle_motion_detection w))
| ns_auto_delete days w :
    step_no_sweep w (snd (Api.set_auto_delete days w))
| ns_frame hw w :
    step_no_sweep w (snd (Recorder.get_frame hw w))
| ns_thread_begin fuel r filepath duration w :
    step_no_sweep w
      (Api.world_of (Recorder._record_video fuel r filepath duration w))
| ns_thread_resume fuel r filepath duration k w :
    step_no_sweep w
      (Api.world_of (Recorder.record_from fuel r filepath duration k w)).

End Frames.

Module Capture.

Import Recorder.

(** [w'] differs from [w] at most in the synthetic adapter's counter
    and in the history of the sinks. *)
Definition only_captured (w w' : World) : Prop :=
  Frames.same_backend w w' /\
  is_recording (self w') = is_recording (self w) /\
  recording_thread (self w') = recording_thread (self w) /\
  motion_detection_enabled (self w') = motion_detection_enabled (self w) /\
  auto_delete_days (self w') = auto_delete_days (self w) /\
  camera_settings (self w') = camera_settings (self w) /\
  storage w' = storage w /\
  running w' = running w /\
  applied w' = applied w.

(** The frame a tick hands to the writer, if any: what the hardware
    delivered, or the synthetic frame with the given number, in BGR. *)
Definition frame_of_tick (a : CameraAdapter) (r : RecEnv) (k : nat)
  : option Frame :=
  match a with
  | SyntheticCameraAdapter n => Some (mkFrame n BGR)
  | _ =>
      match camera_read r k with
      | Ret (Some px) => Some (mkFrame px BGR)
      | _ => None
      end
  end.

(** The adapter after a tick. *)
Definition adapter_after_tick (a : CameraAdapter) : CameraAdapter :=
  match a with
  | SyntheticCameraAdapter n => SyntheticCameraAdapter (S n)
  | _ => a
  end.

(** The frames of [n] ticks from tick [k] on, oldest first. *)
Fixpoint frames_of_ticks (a : CameraAdapter) (r : RecEnv) (k n : nat)
  : list Frame :=
  match n with
  | O => []
  | S n' =>
      match frame_of_tick a r k with
      | Some f => [f]
      | None => []
      end ++ frames_of_ticks (adapter_after_tick a) r (S k) n'
  end.

End Capture.

Module Controls.

Import Settings.

(** The settings that [update_camera_setting] hands on to a Pi camera. *)
Definition driven_keys : list string := ["brightness"; "contrast"; "white_balance"].

(** The control a driven setting asks for, or the exception its
    conversion raises. *)
Definition control_for (p : Platform) (setting : string) (value : pyval)
  : outcome control :=
  if String.eqb setting "brightness"
  then match py_float p value with
       | Ret f => Ret (Brightness f)
       | Raise e => Raise e
       end
  else if String.eqb setting "contrast"
  then match py_float p value with
       | Ret f => Ret (Contrast f)
       | Raise e => Raise e
       end
  else Ret (AwbEnable (eq_str value "auto")).

(** [w] with [value] stored under [setting]. *)
Definition stored (setting : string) (value : pyval) (w : World) : World :=
  with_self
    (set_camera_settings (<[setting := value]> (camera_settings (self w)))) w.

End Controls.

Module Listing.

Import Library.

(** What an entry says of its file. *)
Definition describes (disk : Disk) (date_path : string) (v : VideoInfo) : Prop :=
  path v = Recorder.path_join date_path (filename v) /\
  stat_of disk (path v) = Ret (size v, created v) /\
  duration v = get_video_duration disk (path v).

End Listing.

(** A disk for the archive of [Scenario]: the folder of 2024-01-10 holds
    two videos, a text file and a file whose extension is in capitals;
    the folder of 2024-01-01 holds no video. *)
Module Shelf.

Import Library.

Definition names_of (date_path : string) : outcome (list string) :=
  if String.eqb date_path "recordings/2024-01-10"
  then Ret ["b.mov"; "notes.txt"; "a.mp4"; "clip.MP4"]
  else if String.eqb date_path "recordings/2024-01-01"
  then Ret ["readme.md"]
  else Raise (Exn "FileNotFoundError" date_path).

Definition shelf : Disk :=
  mkDisk names_of
    (fun _ => Ret (1024, "2024-01-10T10:03:07"))
    (fun _ => Ret (30, 900)%Q)
    (fun q => q).

(** A later state of the archive, with two more folders, on a disk
    where the folder of 2024-02-01 cannot be listed and the folder of
    2024-03-01 holds a video. *)
Definition grown : World :=
  Api.boot Scenario.laptop
    (<["2024-02-01" := Dir]> (<["2024-03-01" := Dir]> Scenario.archive)).

Definition locked : Disk :=
  mkDisk
    (fun date_path =>
       if String.eqb date_path "recordings/2024-02-01"
       then Raise (Exn "PermissionError" date_path)
       else if String.eqb date_path "recordings/2024-03-01"
       then Ret ["c.avi"]
       else names_of date_path)
    (fun _ => Ret (1024, "2024-01-10T10:03:07"))
    (fun _ => Ret (30, 900)%Q)
    (fun q => q).

Definition found : list VideoInfo :=
  [mkVideoInfo "a.mp4" "recordings/2024-01-10/a.mp4" 1024
     "2024-01-10T10:03:07" (PFloat (FFinite (900 / 30)));
   mkVideoInfo "b.mov" "recordings/2024-01-10/b.mov" 1024
     "2024-01-10T10:03:07" (PFloat (FFinite (900 / 30)))].

End Shelf.

(** Dates as [datetime] admits them, and the age the sweep goes by. *)
Module Calendar.

Import Datetime.

(** A date of the calendar: the years 1 to 9999, a month, a day of it. *)
Definition valid_date (d : datetime) : Prop :=
  1 <= year d <= 9999 /\ 1 <= month d <= 12 /\
  1 <= day d <= days_in_month (year d) (month d).

(** A time of day. *)
Definition valid_time (d : datetime) : Prop :=
  0 <= hour d < 24 /\ 0 <= minute d < 60 /\ 0 <= second d < 60 /\
  0 <= microsecond d < 1000000.

(** 00:00:00.000000 *)
Definition midnight (d : datetime) : bool :=
  (hour d =? 0) && (minute d =? 0) && (second d =? 0) && (microsecond d =? 0).

(** The day of a datetime, at midnight: what [strptime] makes of a folder
    name. *)
Definition date_of (d : datetime) : datetime :=
  mkDatetime (year d) (month d) (day d) 0 0 0 0.

(** Whole days from the day of [folder_date] to the day of [now]. *)
Definition age_in_days (now folder_date : datetime) : Z :=
  toordinal now - toordinal folder_date.

(** The order of dates, field by field. *)
Definition compare_dates (a b : datetime) : comparison :=
  match year a ?= year b with
  | Lt => Lt | Gt => Gt | Eq =>
  match month a ?= month b with
  | Lt => Lt | Gt => Gt | Eq => day a ?= day b
  end end.

(** The month and the day of [_ord2ymd] from the day of the year,
    counted from 0. *)
Definition month_day (leapyear : bool) (n : Z) : Z * Z :=
  let m := (n + 50) / 32 in
  let preceding :=
    DAYS_BEFORE_MONTH m + (if (2 <? m) && leapyear then 1 else 0) in
  if n <? preceding
  then
    let m' := m - 1 in
    let preceding' :=
      preceding
      - (DAYS_IN_MONTH m' + (if (m' =? 2) && leapyear then 1 else 0)) in
    (m', n - preceding' + 1)
  else (m, n - preceding + 1).

Definition month_day_ok (leapyear : bool) (n : Z) : bool :=
  let '(m, d) := month_day leapyear n in
  (1 <=? m) && (m <=? 12) && (1 <=? d)
  && (d <=? (if (m =? 2) && leapyear then 29 else DAYS_IN_MONTH m))
  && (DAYS_BEFORE_MONTH m + (if (2 <? m) && leapyear then 1 else 0) + d
      =? n + 1).

End Calendar.

(** What [request.json] can hold. *)
Module Bodies.

(** The body is a JSON object. *)
Definition is_dict (body : pyval) : bool :=
  match body with
  | PDict _ => true
  | _ => false
  end.

End Bodies.

(** Further situations used to exercise the statements. *)
Module Situation.

Import Recorder.

(** The laptop thirty passes into a recording without a cap. *)
Definition thirty_in : World :=
  Api.world_of
    (_record_video 30 Scenario.smooth Scenario.clip PNone
       (Scenario.recording PNone)).

(** A stop at that point, and a motion start right after it. *)
Definition stopped : World := snd (stop_recording thirty_in).

Definition restart : outcome result * World :=
  start_recording Scenario.at_morning (PInt 180) "motion" stopped.

(** The archive with a regular file whose name reads as a date. *)
Definition cluttered : World :=
  set_storage (<["2023-12-25" := File]> Scenario.archive)
    Scenario.with_archive.

(** The archive once [/api/set-auto-delete] has stored 4000000 days. *)
Definition beyond_calendar : World :=
  snd (Api.set_auto_delete 4000000 Scenario.with_archive).

(** The Pi after [update_camera_setting("brightness", None)]. *)
Definition dimmed : World :=
  snd (Settings.update_camera_setting Scenario.pi (PStr "brightness") PNone
         Scenario.idle_pi).

End Situation.

(** Programs whose calls do not overlap. *)
Module Turns.

(** A step of the program in which a call of [start_recording] runs to
    its end before anything else happens: the steps of [Api.step]
    without the single statements of an overlapping start. *)
Inductive step_in_turn : World -> World -> Prop :=
| it_start env duration trigger w :
    step_in_turn w (snd (Recorder.start_recording env duration trigger w))
| it_stop w :
    step_in_turn w (snd (Recorder.stop_recording w))
| it_motion env channel w :
    step_in_turn w (snd (Recorder.motion_detected env channel w))
| it_setting p setting value w :
    step_in_turn w (snd (Settings.update_camera_setting p setting value w))
| it_cleanup now w :
    step_in_turn w (snd (Retention.cleanup_old_recordings now w))
| it_toggle w :
    step_in_turn w (snd (Api.toggle_motion_detection w))
| it_auto_delete days w :
    step_in_turn w (snd (Api.set_auto_delete days w))
| it_frame hw w :
    step_in_turn w (snd (Recorder.get_frame hw w))
| it_thread_begin fuel r filepath duration w :
    step_in_turn w
      (Api.world_of (Recorder._record_video fuel r filepath duration w))
| it_thread_resume fuel r filepath duration k w :
    step_in_turn w
      (Api.world_of (Recorder.record_from fuel r filepath duration k w)).

(** While the flag is up, the thread on record is one that was started. *)
Definition thread_live (w : World) : Prop :=
  is_recording (self w) = true ->
  forall t, recording_thread (self w) = Some t -> thread_started t = true.

(** [w'] has the thread of [w] on record, and its flag is up only if it
    was up in [w]. *)
Definition not_raised (w w' : World) : Prop :=
  recording_thread (self w') = recording_thread (self w) /\
  (is_recording (self w') = true -> is_recording (self w) = true).

(** A start whose thread cannot be started, and the first two statements
    of a second start after it. *)
Definition no_thread : Recorder.StartEnv :=
  Recorder.mkStartEnv Scenario.morning Scenario.morning
    (Some (Exn "RuntimeError" "can't start new thread")).

Definition after_failed_start : World :=
  snd (Recorder.start_recording no_thread PNone "manual" Scenario.idle_laptop).

Definition second_start_let_in : World :=
  snd (Recorder.start_step Scenario.manual_call Recorder.AtRaiseFlag
         (snd (Recorder.start_step Scenario.manual_call Recorder.AtCheck
                 after_failed_start))).

End Turns.

(** * Properties *)

(** ** What every operation leaves alone *)

Module Invariants.

Import Datetime Recorder Notions.

Lemma stable_refl w : stable w w.
Proof. by repeat split. Qed.

Lemma stable_trans w1 w2 w3 : stable w1 w2 -> stable w2 w3 -> stable w1 w3.
Proof.
  intros (a1 & b1 & c1) (a2 & b2 & c2).
  repeat split; congruence.
Qed.

Lemma keeps_ret {A} (a : A) : keeps (ret a).
Proof. intros w. apply stable_refl. Qed.

Lemma keeps_raise {A} e : keeps (raise (A := A) e).
Proof. intros w. apply stable_refl. Qed.

Lemma keeps_lift {A} (o : outcome A) : keeps (lift o).
Proof. intros w. apply stable_refl. Qed.

Lemma keeps_get : keeps (get (W := World)).
Proof. intros w. apply stable_refl. Qed.

Lemma keeps_bind {A B} (m : M World A) (k : A -> M World B) :
  keeps m -> (forall a, keeps (k a)) -> keeps (bind m k).
Proof.
  intros Hm Hk w. unfold bind. specialize (Hm w).
  destruct (m w) as [[a|e] w1]; cbn in *; [|done].
  eapply stable_trans; [exact Hm | apply Hk].
Qed.

Lemma keeps_try_except {A} (m : M World A) h :
  keeps m -> (forall e, keeps (h e)) -> keeps (try_except m h).
Proof.
  intros Hm Hh w. unfold try_except. specialize (Hm w).
  destruct (m w) as [[a|e] w1]; cbn in *; [done|].
  eapply stable_trans; [exact Hm | apply Hh].
Qed.

Lemma keeps_try_except_class {A} cls (m h : M World A) :
  keeps m -> keeps h -> keeps (try_except_class cls m h).
Proof.
  intros Hm Hh w. unfold try_except_class. specialize (Hm w).
  destruct (m w) as [[a|e] w1]; cbn in *; [done|].
  destruct (String.eqb _ _); [|done].
  eapply stable_trans; [exact Hm | apply Hh].
Qed.

Lemma keeps_modify (f : World -> World) :
  (forall w, stable w (f w)) -> keeps (modify f).
Proof. intros Hf w. apply Hf. Qed.

Lemma keeps_get_bind {A} (k : World -> M World A) :
  (forall w, keeps (k w)) -> keeps (bind get k).
Proof. intros Hk. apply keeps_bind; [apply keeps_get | done]. Qed.

Lemma keeps_get_self {A} (k : World -> M World A) :
  (forall w, stable w (snd (k w w))) -> keeps (bind get k).
Proof. intros Hk w. apply Hk. Qed.

Lemma stable_flag b w : stable w (with_self (set_is_recording b) w).
Proof. by repeat split. Qed.

Lemma stable_thread t w : stable w (with_self (set_recording_thread t) w).
Proof. by repeat split. Qed.

Lemma stable_adapter a w : stable w (with_self (set_camera_adapter a) w).
Proof. by repeat split. Qed.

Lemma stable_storage m w : stable w (set_storage m w).
Proof. by repeat split. Qed.

Lemma stable_running l w : stable w (set_running l w).
Proof. by repeat split. Qed.

Lemma stable_applied l w : stable w (set_applied l w).
Proof. by repeat split. Qed.

Lemma stable_sink_log l w : stable w (set_sink_log l w).
Proof. by repeat split. Qed.

#[local] Hint Resolve keeps_ret keeps_raise keeps_lift keeps_get
  stable_refl stable_flag stable_thread stable_adapter stable_storage
  stable_running stable_applied stable_sink_log : keeps.

(** Follows the syntax of a method down to its atomic statements. *)
Ltac keeps_cases :=
  repeat
    match goal with
    | |- keeps (bind get _) => apply keeps_get_bind; intros ?
    | |- keeps (bind _ _) => apply keeps_bind; [|intros ?]
    | |- keeps (try_except _ _) => apply keeps_try_except; [|intros ?]
    | |- keeps (try_except_class _ _ _) => apply keeps_try_except_class
    | |- keeps (modify _) => apply keeps_modify; intros ?
    | |- keeps (match ?x with _ => _ end) => destruct x
    | |- keeps (if ?b then _ else _) => destruct b
    | |- _ => solve [auto with keeps]
    end.

Lemma keeps_init_camera p : keeps (Camera.init_camera p).
Proof.
  unfold Camera.init_camera, Camera.PiCameraAdapter_init,
    Camera.OpenCVCameraAdapter_init, Camera.SyntheticCameraAdapter_init,
    Camera.assign_adapter.
  keeps_cases.
Qed.

Lemma keeps_makedirs name : keeps (makedirs name).
Proof.
  intros w. unfold makedirs.
  destruct (storage w !! name) as [[]|]; cbn; auto with keeps.
Qed.

Lemma keeps_thread_start env : keeps (thread_start env).
Proof.
  intros w. unfold thread_start.
  destruct (thread_start_error env); cbn; [auto with keeps|].
  destruct (recording_thread (self w)); cbn; [|auto with keeps].
  by repeat split.
Qed.

#[local] Hint Resolve keeps_makedirs keeps_thread_start : keeps.

Lemma keeps_start_rest env duration trigger :
  keeps (start_rest env duration trigger).
Proof. unfold start_rest. keeps_cases. Qed.

Lemma keeps_start_handler e : keeps (start_handler e).
Proof. unfold start_handler. keeps_cases. Qed.

#[local] Hint Resolve keeps_start_rest keeps_start_handler : keeps.

Lemma keeps_start_recording env duration trigger :
  keeps (start_recording env duration trigger).
Proof. unfold start_recording, raise_flag. keeps_cases. Qed.

#[local] Hint Resolve keeps_start_recording : keeps.

Lemma keeps_motion_detected env channel : keeps (motion_detected env channel).
Proof. unfold motion_detected. keeps_cases. Qed.

Lemma keeps_stop_recording : keeps stop_recording.
Proof. unfold stop_recording, join. keeps_cases. Qed.

Lemma keeps_get_frame hw : keeps (get_frame hw).
Proof. unfold get_frame. keeps_cases. Qed.

Lemma keeps_log_sink e : keeps (log_sink e).
Proof. unfold log_sink. keeps_cases. Qed.

#[local] Hint Resolve keeps_get_frame keeps_log_sink : keeps.

Lemma keeps_tick r filepath duration k : keeps (tick r filepath duration k).
Proof. unfold tick, to_bgr, sink_write. keeps_cases. Qed.

Lemma stable_start_step c pc w : stable w (snd (start_step c pc w)).
Proof.
  destruct pc; cbn.
  - destruct (is_recording (self w)); cbn; auto with keeps.
  - auto with keeps.
  - pose proof (keeps_try_except _ _
      (keeps_start_rest (call_env c) (call_duration c) (call_trigger c))
      keeps_start_handler w) as H.
    by destruct (try_except _ _ w).
  - auto with keeps.
Qed.

Lemma stable_capture_loop fuel r filepath duration k w :
  stable w
    match capture_loop fuel r filepath duration k w with
    | Looping _ w' => w'
    | Left _ w' => w'
    end.
Proof.
  revert k w. induction fuel as [|fuel IH]; intros k w; cbn; [auto with keeps|].
  destruct (is_recording (self w)); [|auto with keeps].
  pose proof (keeps_tick r filepath duration k w) as H.
  destruct (tick r filepath duration k w) as [[[]|e] w1]; cbn in *; try done.
  eapply stable_trans; [exact H | apply IH].
Qed.

Lemma stable_record_from fuel r filepath duration k w :
  stable w (Api.world_of (record_from fuel r filepath duration k w)).
Proof.
  unfold record_from.
  pose proof (stable_capture_loop fuel r filepath duration k w) as H.
  destruct (capture_loop fuel r filepath duration k w) as [k' w'|[x|e] w'];
    cbn in *; [done| |].
  - eapply stable_trans; [exact H|]. by repeat split.
  - eapply stable_trans; [exact H|]. by repeat split.
Qed.

Lemma stable_record_video fuel r filepath duration w :
  stable w (Api.world_of (_record_video fuel r filepath duration w)).
Proof.
  unfold _record_video, open_sink.
  destruct (VideoWriter_error r); cbn; [by repeat split|].
  eapply stable_trans; [|apply stable_record_from]. by repeat split.
Qed.

Lemma keeps_update_camera_setting p setting value :
  keeps (Settings.update_camera_setting p setting value).
Proof.
  unfold Settings.update_camera_setting.
  apply keeps_try_except; [|intros ?; keeps_cases].
  apply keeps_get_self; intros w.
  destruct setting; try solve [cbn; auto with keeps].
  case_bool_decide as Hk; cbn; [|auto with keeps].
  unfold bind, ret, Settings.store_setting, modify.
  set (w1 := with_self _ w).
  assert (stable w w1) as H1.
  { repeat split; cbn. by apply dom_insert_lookup_L. }
  assert (keeps (Settings.apply_to_camera p s value)) as H2.
  { unfold Settings.apply_to_camera, Settings.set_controls.
    apply keeps_get_bind; intros ?.
    assert (forall c, keeps (fun w' =>
      match set_controls_error p c with
      | Some e => (Raise e, w')
      | None => (Ret tt, set_applied (applied w' ++ [c]) w')
      end)) as Hc.
    { intros c w'. destruct (set_controls_error p c); cbn; auto with keeps. }
    keeps_cases; apply Hc. }
  specialize (H2 w1).
  destruct (Settings.apply_to_camera p s value w1) as [[[]|e] w2] eqn:E;
    cbn in *; eapply stable_trans; eauto.
Qed.

Lemma keeps_rmtree name : keeps (Retention.rmtree name).
Proof.
  intros w. unfold Retention.rmtree.
  destruct (storage w !! name) as [[]|]; cbn; auto with keeps.
Qed.

#[local] Hint Resolve keeps_rmtree : keeps.

Lemma keeps_visit cutoff name c : keeps (Retention.visit cutoff name c).
Proof. unfold Retention.visit. keeps_cases. Qed.

#[local] Hint Resolve keeps_visit : keeps.

Lemma keeps_sweep cutoff names : forall c, keeps (Retention.sweep cutoff names c).
Proof.
  induction names as [|name names IH]; intros c; cbn; keeps_cases.
Qed.

#[local] Hint Resolve keeps_sweep : keeps.

Lemma keeps_cleanup now : keeps (Retention.cleanup_old_recordings now).
Proof.
  unfold Retention.cleanup_old_recordings, Retention.listdir. keeps_cases.
Qed.

Lemma keeps_toggle : keeps Api.toggle_motion_detection.
Proof.
  unfold Api.toggle_motion_detection. keeps_cases; by repeat split.
Qed.

Lemma keeps_set_auto_delete days : keeps (Api.set_auto_delete days).
Proof.
  unfold Api.set_auto_delete. keeps_cases; by repeat split.
Qed.

Lemma step_stable w w' : Api.step w w' -> stable w w'.
Proof.
  destruct 1.
  - apply keeps_start_recording.
  - apply stable_start_step.
  - apply keeps_stop_recording.
  - apply keeps_motion_detected.
  - apply keeps_update_camera_setting.
  - apply keeps_cleanup.
  - apply keeps_toggle.
  - apply keeps_set_auto_delete.
  - apply keeps_get_frame.
  - apply stable_record_video.
  - apply stable_record_from.
Qed.

(** In every reachable world the fixed recording duration is 180 seconds,
    the storage root is [recordings], and the settings mapping has the
    keys [__init__] gave it. *)
Lemma reachable_fixed w :
  Api.reachable w ->
  recording_duration (self w) = 180 /\
  video_storage_path (self w) = "recordings" /\
  dom (camera_settings (self w)) = dom initial_settings.
Proof.
  induction 1 as [p files|w w' _ (a & b & c) Hstep].
  - unfold Api.boot.
    destruct (keeps_init_camera p (mkWorld new_system files [] [] []))
      as (a & b & c).
    cbn in *. by rewrite a, b, c.
  - destruct (step_stable _ _ Hstep) as (a' & b' & c').
    repeat split; congruence.
Qed.

Lemma initial_keys k :
  k ∈ dom initial_settings <-> k ∈ Settings.setting_keys.
Proof.
  unfold initial_settings, Settings.setting_keys.
  rewrite !dom_insert_L, dom_empty_L. set_solver.
Qed.

(** The mapping of a reachable world holds exactly the enumerated keys. *)
Lemma reachable_keys w k :
  Api.reachable w ->
  is_Some (camera_settings (self w) !! k) <-> k ∈ Settings.setting_keys.
Proof.
  intros Hw. destruct (reachable_fixed w Hw) as (_ & _ & Hdom).
  rewrite <- initial_keys, <- Hdom. symmetry. apply elem_of_dom.
Qed.

End Invariants.

(** ** Dates: the model on known values *)

Module DatetimeProps.

Import Datetime.

(** Day numbers as [date.toordinal] gives them, and back. *)
Example ordinals :
  ymd2ord 1 1 1 = 1 /\
  ymd2ord 2024 1 15 = 738900 /\
  ymd2ord 9999 12 31 = MAXORDINAL /\
  ord2ymd 738900 = (2024, 1, 15) /\
  ord2ymd 738945 = (2024, 2, 29) /\
  ord2ymd 730120 = (2000, 1, 1) /\
  ord2ymd 693901 = (1900, 11, 2).
Proof. repeat split; vm_compute; reflexivity. Qed.

(** What the format accepts: padded and unpadded fields, a day written
    with a leading blank; and what it refuses: a month or day that does
    not exist, text left over, the year 0, anything else. *)
Example strptime_cases :
  strptime "2024-01-01" = Ret (mkDatetime 2024 1 1 0 0 0 0) /\
  strptime "2024-1-5" = Ret (mkDatetime 2024 1 5 0 0 0 0) /\
  strptime "2024-01- 5" = Ret (mkDatetime 2024 1 5 0 0 0 0) /\
  strptime "2024-02-29" = Ret (mkDatetime 2024 2 29 0 0 0 0) /\
  exn_class
    match strptime "2023-02-29" with Raise e => e | Ret _ => Exn "" "" end
  = "ValueError" /\
  exn_class
    match strptime "2024-13-01" with Raise e => e | Ret _ => Exn "" "" end
  = "ValueError" /\
  exn_class
    match strptime "2024-01-011" with Raise e => e | Ret _ => Exn "" "" end
  = "ValueError" /\
  exn_class
    match strptime "0000-01-01" with Raise e => e | Ret _ => Exn "" "" end
  = "ValueError" /\
  exn_class
    match strptime "notes.txt" with Raise e => e | Ret _ => Exn "" "" end
  = "ValueError".
Proof. repeat split; vm_compute; reflexivity. Qed.

(** The names the recorder gives its folders are read back as the day
    they were made. *)
Example strftime_then_strptime :
  strftime_date Scenario.morning = "2024-01-15" /\
  strftime_stamp Scenario.morning = "20240115_100307" /\
  strptime (strftime_date Scenario.morning) = Ret (mkDatetime 2024 1 15 0 0 0 0).
Proof. repeat split; vm_compute; reflexivity. Qed.

(** Seven days before noon of 2024-01-15; and an age that leaves the
    calendar. *)
Example minus_days_cases :
  minus_days Scenario.noon 7 = Ret (mkDatetime 2024 1 8 12 0 0 0) /\
  minus_days Scenario.noon 15 = Ret (mkDatetime 2023 12 31 12 0 0 0) /\
  minus_days Scenario.noon (-1) = Ret (mkDatetime 2024 1 16 12 0 0 0) /\
  minus_days Scenario.noon 738900
  = Raise (Exn "OverflowError" "date value out of range").
Proof. repeat split; vm_compute; reflexivity. Qed.

End DatetimeProps.

(** ** The camera factory *)

Module CameraProps.

Import Notions.

Lemma init_camera_run p w :
  Camera.init_camera p w
  = (Ret tt, with_self (set_camera_adapter (Some (chosen_adapter p))) w).
Proof.
  unfold Camera.init_camera, chosen_adapter, Camera.PiCameraAdapter_init,
    Camera.OpenCVCameraAdapter_init, Camera.SyntheticCameraAdapter_init,
    Camera.assign_adapter.
  unfold_method.
  destruct (PICAMERA_AVAILABLE p).
  - by destruct (Picamera2_start p).
  - by destruct (VideoCapture_isOpened p).
Qed.

(** The code and the worded fallback order part ways in one situation
    only: the library imports, the camera fails to start, and a capture
    device would have opened. *)
Lemma chosen_vs_spec p :
  chosen_adapter p = spec_fallback p \/
  (PICAMERA_AVAILABLE p = true /\ (exists e, Picamera2_start p = Raise e) /\
   VideoCapture_isOpened p = true).
Proof.
  unfold chosen_adapter, spec_fallback, hardware_backend.
  destruct (PICAMERA_AVAILABLE p) eqn:Ha.
  - destruct (Picamera2_start p) as [cam|e] eqn:Hs; [by left|].
    destruct (VideoCapture_isOpened p); [right; eauto | by left].
  - by left.
Qed.

(** C6, as the code has it: [init_camera] never raises and always leaves
    an adapter in place.  The adapter is the Pi camera when [picamera2]
    was imported and the camera starts; the synthetic generator when
    [picamera2] was imported and the camera fails to start (the capture
    device is not tried); and otherwise the capture device when it opens,
    the synthetic generator when it does not. *)
Theorem init_camera_assigns p w :
  exists a,
    Camera.init_camera p w
    = (Ret tt, with_self (set_camera_adapter (Some a)) w) /\
    camera_adapter (self (snd (Camera.init_camera p w))) = Some a /\
    a = (if PICAMERA_AVAILABLE p
         then
           match Picamera2_start p with
           | Ret cam => PiCameraAdapter cam
           | Raise _ => SyntheticCameraAdapter 0
           end
         else
           if VideoCapture_isOpened p
           then OpenCVCameraAdapter
           else SyntheticCameraAdapter 0).
Proof.
  exists (chosen_adapter p). rewrite init_camera_run. by repeat split.
Qed.

(** C6, as worded, fails: with [picamera2] imported, a camera that does
    not start and a capture device that would open, the worded order
    (hardware, then generic, then synthetic) gives the capture device,
    and [init_camera] assigns the synthetic generator. *)
Lemma init_camera_skips_generic :
  camera_adapter
    (self (snd (Camera.init_camera Scenario.pi_without_sensor
                  (mkWorld new_system ∅ [] [] []))))
  = Some (SyntheticCameraAdapter 0) /\
  spec_fallback Scenario.pi_without_sensor = OpenCVCameraAdapter.
Proof. split; reflexivity. Qed.

End CameraProps.

(** ** Camera settings *)

Module SettingsProps.

Import Settings Notions.

Lemma unknown_key_absent w setting k :
  Api.reachable w -> known_key setting = false -> setting = PStr k ->
  camera_settings (self w) !! k = None.
Proof.
  intros Hw Hk ->. cbn in Hk. apply bool_decide_eq_false in Hk.
  destruct (camera_settings (self w) !! k) eqn:E; [|done].
  exfalso. apply Hk. apply (Invariants.reachable_keys w k Hw). eauto.
Qed.

(** C8: a key outside the enumerated set is refused, and the world (the
    settings mapping with it) is exactly as before. *)
Theorem unknown_setting_rejected p setting value w :
  Api.reachable w ->
  known_key setting = false ->
  exists msg,
    update_camera_setting p setting value w = (Ret (false, msg), w).
Proof.
  intros Hw Hk. unfold update_camera_setting. unfold_method.
  destruct setting as [| | | |k| |]; try (eexists; reflexivity).
  rewrite bool_decide_eq_false_2; [eexists; reflexivity|].
  rewrite (unknown_key_absent w (PStr k) k Hw Hk eq_refl).
  by intros [? ?].
Qed.

Lemma unknown_setting_rejected_witness :
  exists msg,
    update_camera_setting Scenario.laptop (PStr "volume") (PInt 3)
      Scenario.idle_laptop
    = (Ret (false, msg), Scenario.idle_laptop).
Proof.
  apply (unknown_setting_rejected Scenario.laptop (PStr "volume") (PInt 3)
           Scenario.idle_laptop).
  - apply Api.reach_boot.
  - reflexivity.
Defined.

(** The world once [self.camera_settings[k] = value] has run. *)
Lemma store_setting_run k value w :
  store_setting k value w
  = (Ret tt,
     with_self
       (set_camera_settings (<[k := value]> (camera_settings (self w)))) w).
Proof. reflexivity. Qed.

(** Applying a setting to the camera never touches the mapping. *)
Lemma apply_to_camera_settings p k value w :
  camera_settings (self (snd (apply_to_camera p k value w)))
  = camera_settings (self w).
Proof.
  unfold apply_to_camera, set_controls. unfold_method.
  repeat break_match; by simplify_eq/=.
Qed.

(** C10: for a known key the new value is stored first, and the camera
    is driven from the world that already holds it.  Whatever the camera
    does, the call returns and the mapping is the old one with the new
    value under the key; when driving the camera raises [e], the call
    reports failure with [e] and the value stays stored. *)
Theorem known_setting_stored_before_applied p k value w :
  Api.reachable w ->
  known_key (PStr k) = true ->
  let stored := snd (store_setting k value w) in
  camera_settings (self stored) = <[k := value]> (camera_settings (self w)) /\
  exists r w',
    update_camera_setting p (PStr k) value w = (Ret r, w') /\
    w' = snd (apply_to_camera p k value stored) /\
    camera_settings (self w') = <[k := value]> (camera_settings (self w)) /\
    match fst (apply_to_camera p k value stored) with
    | Raise e => r = (false, failed_msg (PStr k) e)
    | Ret _ => r = (true, updated_msg (PStr k) value)
    end.
Proof.
  intros Hw Hk stored. split; [reflexivity|].
  assert (is_Some (camera_settings (self w) !! k)) as Hin.
  { apply (Invariants.reachable_keys w k Hw).
    cbn in Hk. by apply bool_decide_eq_true in Hk. }
  pose proof (apply_to_camera_settings p k value stored) as Hs.
  unfold update_camera_setting. unfold_method.
  rewrite bool_decide_eq_true_2 by done.
  rewrite store_setting_run. fold stored.
  change (with_self _ w) with stored.
  destruct (apply_to_camera p k value stored) as [[[]|e] w1] eqn:E;
    cbn in *; do 2 eexists; repeat split; done.
Qed.

(** On a Pi with live controls, [brightness := None] makes [float]
    raise: the call fails and the mapping holds [None]. *)
Lemma known_setting_stored_before_applied_witness :
  let stored := snd (store_setting "brightness" PNone Scenario.idle_pi) in
  camera_settings (self stored)
  = <["brightness" := PNone]> (camera_settings (self Scenario.idle_pi)) /\
  exists r w',
    update_camera_setting Scenario.pi (PStr "brightness") PNone Scenario.idle_pi
    = (Ret r, w') /\
    w' = snd (apply_to_camera Scenario.pi "brightness" PNone stored) /\
    camera_settings (self w')
    = <["brightness" := PNone]> (camera_settings (self Scenario.idle_pi)) /\
    match fst (apply_to_camera Scenario.pi "brightness" PNone stored) with
    | Raise e => r = (false, failed_msg (PStr "brightness") e)
    | Ret _ => r = (true, updated_msg (PStr "brightness") PNone)
    end.
Proof.
  apply (known_setting_stored_before_applied Scenario.pi "brightness" PNone
           Scenario.idle_pi).
  - apply Api.reach_boot.
  - reflexivity.
Defined.

(** The same call, evaluated: failure is reported, and the mapping reads
    [None] under [brightness] afterwards. *)
Example brightness_none_not_rolled_back :
  exists e w',
    update_camera_setting Scenario.pi (PStr "brightness") PNone Scenario.idle_pi
    = (Ret (false, failed_msg (PStr "brightness") e), w') /\
    exn_class e = "TypeError" /\
    camera_settings (self w') !! "brightness" = Some PNone /\
    camera_settings (self Scenario.idle_pi) !! "brightness" = Some (PInt 0).
Proof. do 2 eexists. repeat split; reflexivity. Qed.

End SettingsProps.

(** ** Starting and stopping *)

Module StartStopProps.

Import Datetime Recorder Notions.

Lemma start_recording_busy env duration trigger w :
  is_recording (self w) = true ->
  start_recording env duration trigger w = (Ret (false, already_recording_msg), w).
Proof. intros H. unfold start_recording. unfold_method. by rewrite H. Qed.

Lemma stop_recording_idle w :
  is_recording (self w) = false ->
  stop_recording w = (Ret (false, not_recording_msg), w).
Proof. intros H. unfold stop_recording. unfold_method. by rewrite H. Qed.

(** An accepted call: the flag is up, and exactly one thread was started,
    with the path and the duration of the call. *)
Lemma start_recording_accepted env duration trigger w :
  is_recording (self w) = false ->
  storage w !! strftime_date (now_date env) <> Some File ->
  thread_start_error env = None ->
  exists w',
    start_recording env duration trigger w
    = (Ret (true, started_msg (recording_filename env trigger)), w') /\
    running w' = running w ++ [thread_of env duration trigger w] /\
    recording_thread (self w') = Some (thread_of env duration trigger w) /\
    is_recording (self w') = true /\
    sink_log w' = sink_log w.
Proof.
  intros Hidle Hdir Hth.
  unfold start_recording, raise_flag, start_rest, makedirs, thread_start.
  unfold_method. rewrite Hidle, Hth. cbn.
  destruct (storage w !! strftime_date (now_date env)) as [[]|] eqn:E;
    [|done|]; cbn; eexists; repeat split; reflexivity.
Qed.

(** A call that is let in but fails starts no thread and lowers the flag
    again. *)
Lemma start_recording_outcomes env duration trigger w :
  is_recording (self w) = false ->
  let '(o, w') := start_recording env duration trigger w in
  (o = Ret (true, started_msg (recording_filename env trigger)) /\
   running w' = running w ++ [thread_of env duration trigger w] /\
   is_recording (self w') = true) \/
  ((exists e, o = Ret (false, start_failed_msg e)) /\
   running w' = running w /\ is_recording (self w') = false).
Proof.
  intros Hidle.
  unfold start_recording, raise_flag, start_rest, makedirs, thread_start.
  unfold_method. rewrite Hidle. cbn.
  destruct (storage w !! strftime_date (now_date env)) as [[]|] eqn:E; cbn;
    destruct (thread_start_error env) eqn:Hth; cbn;
    first [ left; repeat split; reflexivity
          | right; split; [eexists; reflexivity | split; reflexivity] ].
Qed.

(** C3: a start while recording, and a stop while idle, are declined by
    return value; nothing is raised and nothing changes. *)
Theorem declined_by_result env duration trigger w :
  (is_recording (self w) = true ->
   start_recording env duration trigger w
   = (Ret (false, [Text "Already recording"]), w)) /\
  (is_recording (self w) = false ->
   stop_recording w = (Ret (false, [Text "Not currently recording"]), w)).
Proof.
  split.
  - apply start_recording_busy.
  - apply stop_recording_idle.
Qed.

Lemma declined_by_result_witness :
  start_recording Scenario.at_morning PNone "manual" (Scenario.recording PNone)
  = (Ret (false, [Text "Already recording"]), Scenario.recording PNone) /\
  stop_recording Scenario.idle_laptop
  = (Ret (false, [Text "Not currently recording"]), Scenario.idle_laptop).
Proof.
  split.
  - apply (proj1 (declined_by_result Scenario.at_morning PNone "manual"
                    (Scenario.recording PNone))).
    reflexivity.
  - apply (proj2 (declined_by_result Scenario.at_morning PNone "manual"
                    Scenario.idle_laptop)).
    reflexivity.
Defined.

(** ** The motion trigger *)

Lemma motion_detected_run env channel w :
  motion_detected env channel w
  = if motion_detection_enabled (self w) && negb (is_recording (self w))
    then (Ret tt,
          snd (start_recording env (PInt (recording_duration (self w))) "motion" w))
    else (Ret tt, w).
Proof.
  unfold motion_detected. unfold_method.
  destruct (motion_detection_enabled (self w) && negb (is_recording (self w)))
    eqn:E; [|done].
  apply andb_true_iff in E as [_ Hidle]. apply negb_true_iff in Hidle.
  pose proof (start_recording_outcomes env
    (PInt (recording_duration (self w))) "motion" w Hidle) as H.
  destruct (start_recording _ _ _ w) as [o w'].
  by destruct H as [(-> & _)|([e ->] & _)].
Qed.



(** One edge on the armed, idle laptop, evaluated: one thread, 180
    seconds, under the date folder, named after the trigger. *)
Example motion_edge_once :
  running (snd (motion_detected Scenario.at_morning PNone Scenario.armed_laptop))
  = [mkThread "recordings/2024-01-15/motion_20240115_100307.mp4" (PInt 180) true].
Proof. reflexivity. Qed.

(** A second edge while that recording runs is ignored. *)
Example motion_edge_while_recording :
  let w := snd (motion_detected Scenario.at_morning PNone Scenario.armed_laptop) in
  motion_detected Scenario.at_morning PNone w = (Ret tt, w).
Proof. reflexivity. Qed.

End StartStopProps.

(** ** Overlapping calls of [start_recording] *)

Module RaceProps.

Import Datetime Recorder Notions.

(** Raising the flag cannot fail, so the [try] block of the method is
    the assignment followed by the guarded rest. *)
Lemma try_after_flag env duration trigger w :
  try_except (raise_flag ;;; start_rest env duration trigger) start_handler w
  = try_except (start_rest env duration trigger) start_handler
      (snd (raise_flag w)).
Proof. reflexivity. Qed.

(** A call run alone, statement by statement, is the method. *)
Lemma steps_alone c w :
  let '(pc1, w1) := start_step c AtCheck w in
  let '(pc2, w2) := start_step c pc1 w1 in
  let '(pc3, w3) := start_step c pc2 w2 in
  (pc3, w3)
  = (Finished
       (fst (start_recording (call_env c) (call_duration c) (call_trigger c) w)),
     snd (start_recording (call_env c) (call_duration c) (call_trigger c) w)).
Proof.
  unfold start_recording. cbn [start_step bind get].
  destruct (is_recording (self w)) eqn:E; cbn [start_step ret fst snd]; [done|].
  rewrite try_after_flag.
  by destruct (try_except _ _ (snd (raise_flag w))).
Qed.

(** A schedule that lets the first caller finish before the second
    begins is the two methods one after the other. *)
Lemma run_race_in_turn c1 c2 w :
  run_race c1 c2 [true; true; true; false; false; false] w
  = let first :=
      start_recording (call_env c1) (call_duration c1) (call_trigger c1) w in
    let second :=
      start_recording (call_env c2) (call_duration c2) (call_trigger c2)
        (snd first) in
    mkRace (Finished (fst first)) (Finished (fst second)) (snd second).
Proof.
  pose proof (steps_alone c1 w) as H1.
  unfold run_race. cbn [fold_left race_step pc1 pc2 shared].
  destruct (start_step c1 AtCheck w) as [p1 w1].
  cbn [pc1 pc2 shared].
  destruct (start_step c1 p1 w1) as [p2 w2].
  cbn [pc1 pc2 shared].
  destruct (start_step c1 p2 w2) as [p3 w3].
  cbn [pc1 pc2 shared]. injection H1 as -> ->.
  set (wa := snd (start_recording _ _ _ w)).
  pose proof (steps_alone c2 wa) as H2.
  destruct (start_step c2 AtCheck wa) as [q1 v1].
  cbn [pc1 pc2 shared].
  destruct (start_step c2 q1 v1) as [q2 v2].
  cbn [pc1 pc2 shared].
  destruct (start_step c2 q2 v2) as [q3 v3].
  cbn [pc1 pc2 shared]. by injection H2 as -> ->.
Qed.

(** C1, as the code has it: of two calls made one after the other on an
    idle recorder, the first being able to create its folder and thread,
    the first is accepted and the second is declined with "Already
    recording", and one recording thread has been started.  (The test and
    the assignment of the flag are separate statements; calls that
    overlap are not covered.) *)
Theorem starts_in_turn c1 c2 w :
  is_recording (self w) = false ->
  storage w !! strftime_date (now_date (call_env c1)) <> Some File ->
  thread_start_error (call_env c1) = None ->
  let first :=
    start_recording (call_env c1) (call_duration c1) (call_trigger c1) w in
  let second :=
    start_recording (call_env c2) (call_duration c2) (call_trigger c2)
      (snd first) in
  fst first
  = Ret (true, started_msg (recording_filename (call_env c1) (call_trigger c1))) /\
  fst second = Ret (false, already_recording_msg) /\
  running (snd second)
  = running w
    ++ [thread_of (call_env c1) (call_duration c1) (call_trigger c1) w] /\
  is_recording (self (snd second)) = true /\
  run_race c1 c2 [true; true; true; false; false; false] w
  = mkRace (Finished (fst first)) (Finished (fst second)) (snd second).
Proof.
  intros Hidle Hdir Hth first second.
  destruct (StartStopProps.start_recording_accepted (call_env c1)
              (call_duration c1) (call_trigger c1) w Hidle Hdir Hth)
    as (w' & Hrun & Hthreads & _ & Hflag & _).
  assert (second = (Ret (false, already_recording_msg), w')) as Hsecond.
  { unfold second, first. rewrite Hrun. cbn [snd].
    by apply StartStopProps.start_recording_busy. }
  rewrite Hsecond. unfold first. rewrite Hrun. cbn [fst snd].
  repeat split; try done.
  rewrite run_race_in_turn. cbn zeta. rewrite Hrun. cbn [fst snd].
  by rewrite (StartStopProps.start_recording_busy _ _ _ w' Hflag).
Qed.

Lemma starts_in_turn_witness :
  let first :=
    start_recording Scenario.at_morning PNone "manual" Scenario.idle_laptop in
  let second :=
    start_recording Scenario.at_morning (PInt 180) "motion" (snd first) in
  fst first
  = Ret (true, started_msg (recording_filename Scenario.at_morning "manual")) /\
  fst second = Ret (false, already_recording_msg) /\
  running (snd second)
  = running Scenario.idle_laptop
    ++ [thread_of Scenario.at_morning PNone "manual" Scenario.idle_laptop] /\
  is_recording (self (snd second)) = true /\
  run_race Scenario.manual_call Scenario.motion_call
    [true; true; true; false; false; false] Scenario.idle_laptop
  = mkRace (Finished (fst first)) (Finished (fst second)) (snd second).
Proof.
  apply (starts_in_turn Scenario.manual_call Scenario.motion_call
           Scenario.idle_laptop).
  - reflexivity.
  - vm_compute. discriminate.
  - reflexivity.
Defined.

(** C1, as worded, fails: a manual call and a motion call whose
    statements alternate both pass the test of the flag before either
    raises it.  Both are accepted, and two recording threads run. *)
Lemma both_starts_accepted :
  succeeded
    (pc1 (run_race Scenario.manual_call Scenario.motion_call
            [true; false; true; false; true; false] Scenario.idle_laptop))
  = true /\
  succeeded
    (pc2 (run_race Scenario.manual_call Scenario.motion_call
            [true; false; true; false; true; false] Scenario.idle_laptop))
  = true /\
  running
    (shared (run_race Scenario.manual_call Scenario.motion_call
               [true; false; true; false; true; false] Scenario.idle_laptop))
  = [mkThread "recordings/2024-01-15/manual_20240115_100307.mp4" PNone true;
     mkThread "recordings/2024-01-15/motion_20240115_100307.mp4" (PInt 180) true].
Proof. repeat split; reflexivity. Qed.

End RaceProps.

(** ** The capture loop *)

Module LoopProps.

Import Datetime Recorder Notions Tools.

(** *** One tick *)

(** A tick does not touch the flag. *)
Lemma tick_flag r filepath duration k w :
  is_recording (self (snd (tick r filepath duration k w))) = is_recording (self w).
Proof. tick_cases; reflexivity. Qed.

(** A tick either raises what the writer raised, or answers the test of
    line 245. *)
Lemma tick_outcome r filepath duration k w :
  fst (tick r filepath duration k w) = cap_reached r k duration \/
  exists e, fst (tick r filepath duration k w) = Raise e /\ write_error r k = Some e.
Proof. tick_cases; eauto. Qed.

(** A tick only writes: it changes no count of events of another kind. *)
Lemma tick_count (pred : sink_event -> bool) r filepath duration k w :
  (forall p f, pred (SinkWrote p f) = false) ->
  length (List.filter pred (sink_log (snd (tick r filepath duration k w))))
  = length (List.filter pred (sink_log w)).
Proof.
  intros Hpred.
  tick_cases; rewrite ?List.filter_app, ?length_app; cbn;
    rewrite ?Hpred; cbn; lia.
Qed.

(** When the writer accepts, the tick answers the test of line 245. *)
Lemma tick_sound r filepath duration k w :
  write_error r k = None ->
  fst (tick r filepath duration k w) = cap_reached r k duration.
Proof.
  intros Hw. destruct (tick_outcome r filepath duration k w) as [H|(e & _ & H)];
    [done | congruence].
Qed.

(** *** The test of the cap *)

(** For a finite, non-zero cap [q] the test is [q <= elapsed]. *)
Lemma cap_reached_finite r k duration q :
  finite_cap duration = Some q -> ~ (q == 0)%Q ->
  cap_reached r k duration = Ret (Qle_bool q (elapsed r k)).
Proof.
  intros Hc Hq. unfold cap_reached, elapsed.
  destruct duration as [|b|z|[| | |q']| | |]; simplify_eq/=.
  - destruct b; [done|]. by destruct Hq.
  - destruct (Z.eqb_spec z 0) as [->|]; [by destruct Hq | done].
  - destruct (Qeq_bool q 0) eqn:E; [|done].
    apply Qeq_bool_iff in E. by destruct Hq.
Qed.

(** A cap of [0], like no cap, never asks for a break. *)
Lemma cap_reached_zero r k : cap_reached r k (PInt 0) = Ret false.
Proof. reflexivity. Qed.

Lemma cap_reached_none r k : cap_reached r k PNone = Ret false.
Proof. reflexivity. Qed.

(** *** The loop *)

Section Loop.

Variable r : RecEnv.
Variable filepath : string.
Variable duration : pyval.

(** Neither does the loop. *)
Lemma loop_count (pred : sink_event -> bool) fuel :
  (forall p f, pred (SinkWrote p f) = false) ->
  forall k w,
  match capture_loop fuel r filepath duration k w with
  | Looping _ w' | Left _ w' =>
      length (List.filter pred (sink_log w'))
      = length (List.filter pred (sink_log w))
  end.
Proof.
  intros Hpred.
  induction fuel as [|fuel IH]; intros k w; cbn; [done|].
  destruct (is_recording (self w)); [|done].
  pose proof (tick_count pred r filepath duration k w Hpred) as Ht.
  destruct (tick r filepath duration k w) as [[[]|e] w1]; cbn in *; try done.
  specialize (IH (S k) w1).
  destruct (capture_loop fuel r filepath duration (S k) w1); congruence.
Qed.

(** Passes add up. *)
Lemma loop_split n m : forall k w,
  capture_loop (n + m) r filepath duration k w
  = match capture_loop n r filepath duration k w with
    | Looping k' w' => capture_loop m r filepath duration k' w'
    | Left o w' => Left o w'
    end.
Proof.
  induction n as [|n IH]; intros k w; cbn; [done|].
  destruct (is_recording (self w)); [|done].
  destruct (tick r filepath duration k w) as [[[]|e] w1]; done.
Qed.

(** A loop that was left stays left when given more passes. *)
Lemma loop_more_fuel fuel extra : forall k w o w',
  capture_loop fuel r filepath duration k w = Left o w' ->
  capture_loop (fuel + extra) r filepath duration k w = Left o w'.
Proof.
  induction fuel as [|fuel IH]; intros k w o w'; cbn; [done|].
  destruct (is_recording (self w)); [|done].
  destruct (tick r filepath duration k w) as [[[]|e] w1]; try done.
  apply IH.
Qed.

(** With the flag up, and the cap met in tick [k + n] at the latest, the
    loop is left within [n + 1] passes, and not through its condition. *)
Lemma loop_reaches_cap n : forall k w,
  is_recording (self w) = true ->
  (forall j, exists b, cap_reached r j duration = Ret b) ->
  cap_reached r (k + n) duration = Ret true ->
  exists o w',
    capture_loop (S n) r filepath duration k w = Left o w' /\
    o <> Ret ConditionFalse /\
    is_recording (self w') = true.
Proof.
  induction n as [|n IH]; intros k w Hflag Htotal Hcap.
  - cbn. rewrite Hflag. rewrite Nat.add_0_r in Hcap.
    pose proof (tick_flag r filepath duration k w) as Hf.
    destruct (tick_outcome r filepath duration k w) as [H|(e & H & _)];
      destruct (tick r filepath duration k w) as [o w1]; cbn in *; subst o.
    + rewrite Hcap. do 2 eexists. split; [done|]. split; [done | congruence].
    + do 2 eexists. split; [done|]. split; [done | congruence].
  - cbn [capture_loop]. rewrite Hflag.
    pose proof (tick_flag r filepath duration k w) as Hf.
    destruct (tick_outcome r filepath duration k w) as [H|(e & H & _)];
      destruct (tick r filepath duration k w) as [o w1]; cbn [fst snd] in *;
      subst o.
    + destruct (Htotal k) as [[] ->].
      * do 2 eexists. split; [done|]. split; [done | congruence].
      * apply IH; [congruence | done |].
        by replace (S k + n)%nat with (k + S n)%nat by lia.
    + do 2 eexists. split; [done|]. split; [done | congruence].
Qed.

(** With a sound sink, the flag up and the cap not met before tick
    [k + n], the loop runs through to tick [k + n]. *)
Lemma loop_runs_on n : forall k w,
  is_recording (self w) = true ->
  (forall j, (k <= j < k + n)%nat -> write_error r j = None) ->
  (forall j, (k <= j < k + n)%nat -> cap_reached r j duration = Ret false) ->
  exists w',
    capture_loop n r filepath duration k w = Looping (k + n) w' /\
    is_recording (self w') = true.
Proof.
  induction n as [|n IH]; intros k w Hflag Hsound Hcap.
  - cbn. rewrite Nat.add_0_r. eauto.
  - cbn [capture_loop]. rewrite Hflag.
    pose proof (tick_flag r filepath duration k w) as Hf.
    pose proof (tick_sound r filepath duration k w (Hsound k ltac:(lia))) as Ht.
    rewrite (Hcap k ltac:(lia)) in Ht.
    destruct (tick r filepath duration k w) as [o w1]; cbn [fst snd] in *.
    subst o.
    destruct (IH (S k) w1) as (w' & Hrun & Hflag').
    + congruence.
    + intros j Hj. apply Hsound. lia.
    + intros j Hj. apply Hcap. lia.
    + exists w'. split; [|done].
      rewrite Hrun. f_equal. lia.
Qed.

(** A loop whose cap test always answers "no" is never left by [break]. *)
Lemma loop_never_breaks fuel : forall k w o w',
  (forall j, cap_reached r j duration = Ret false) ->
  capture_loop fuel r filepath duration k w = Left o w' ->
  o <> Ret Break.
Proof.
  induction fuel as [|fuel IH]; intros k w o w' Hcap; cbn; [done|].
  destruct (is_recording (self w)); [|congruence].
  destruct (tick_outcome r filepath duration k w) as [H|(e & H & _)];
    destruct (tick r filepath duration k w) as [o1 w1]; cbn [fst snd] in *;
    subst o1.
  - rewrite Hcap. by apply IH.
  - congruence.
Qed.

End Loop.

(** *** The whole thread *)

Lemma lower_flag_down w : is_recording (self (lower_flag w)) = false.
Proof. reflexivity. Qed.

(** However the thread returns, the flag is down. *)
Lemma returned_flag_down fuel r filepath duration k w x w' :
  record_from fuel r filepath duration k w = Returned x w' ->
  is_recording (self w') = false.
Proof.
  unfold record_from, sink_release, log_sink. unfold_method.
  destruct (capture_loop fuel r filepath duration k w) as [|[[]|] ?];
    intros; by simplify_eq/=.
Qed.

(** The sink is closed once when the loop was left by its condition or
    by [break], and not at all when an exception left it. *)
Lemma returned_releases fuel r filepath duration k w x w' :
  record_from fuel r filepath duration k w = Returned x w' ->
  releases filepath (sink_log w')
  = (releases filepath (sink_log w)
     + match x with Failed _ => 0 | _ => 1 end)%nat.
Proof.
  unfold record_from, sink_release, log_sink. unfold_method.
  pose proof (loop_count r filepath duration (is_release filepath) fuel
                ltac:(done) k w) as H.
  destruct (capture_loop fuel r filepath duration k w) as [|[[]|] w1];
    intros; simplify_eq/=; unfold releases in *;
    rewrite ?List.filter_app, ?length_app; cbn;
    rewrite ?String.eqb_refl; cbn; lia.
Qed.

(** The thread opens nothing after line 228. *)
Lemma returned_opens fuel r filepath duration k w x w' :
  record_from fuel r filepath duration k w = Returned x w' ->
  opens filepath (sink_log w') = opens filepath (sink_log w).
Proof.
  unfold record_from, sink_release, log_sink. unfold_method.
  pose proof (loop_count r filepath duration (is_open filepath) fuel
                ltac:(done) k w) as H.
  destruct (capture_loop fuel r filepath duration k w) as [|[[]|] w1];
    intros; simplify_eq/=; unfold opens in *;
    rewrite ?List.filter_app, ?length_app; cbn; lia.
Qed.

Lemma stop_recording_flag_down w :
  is_recording (self (snd (stop_recording w))) = false.
Proof.
  unfold stop_recording, join. unfold_method.
  destruct (is_recording (self w)) eqn:E; cbn; [|done].
  destruct (recording_thread (self w)) as [[? ? []]|]; reflexivity.
Qed.

Lemma stop_recording_sink_log w :
  sink_log (snd (stop_recording w)) = sink_log w.
Proof.
  unfold stop_recording, join. unfold_method.
  destruct (is_recording (self w)) eqn:E; cbn; [|done].
  destruct (recording_thread (self w)) as [[? ? []]|]; reflexivity.
Qed.

(** After a stop the suspended thread leaves its loop at the next test,
    closes the sink and returns. *)
Lemma stopped_thread_returns fuel r filepath duration k w :
  exists w',
    record_from (S fuel) r filepath duration k (snd (stop_recording w))
    = Returned Stopped w' /\
    is_recording (self w') = false /\
    releases filepath (sink_log w') = S (releases filepath (sink_log w)).
Proof.
  pose proof (stop_recording_flag_down w) as Hf.
  pose proof (stop_recording_sink_log w) as Hl.
  set (w0 := snd (stop_recording w)) in *. clearbody w0.
  unfold record_from. cbn [capture_loop]. rewrite Hf.
  unfold sink_release, log_sink. unfold_method.
  eexists. split; [reflexivity|]. split; [reflexivity|].
  cbn. rewrite Hl. unfold releases.
  rewrite List.filter_app, length_app. cbn.
  rewrite String.eqb_refl. cbn. lia.
Qed.

End LoopProps.

(** ** The recording thread: sink, cap and stop *)

Module ThreadProps.

Import Datetime Recorder Notions LoopProps.

(** Opening the sink leaves the flag alone and closes nothing. *)
Lemma open_sink_ok r filepath w :
  VideoWriter_error r = None ->
  exists w1,
    open_sink r filepath w = (Ret tt, w1) /\
    is_recording (self w1) = is_recording (self w) /\
    releases filepath (sink_log w1) = releases filepath (sink_log w) /\
    opens filepath (sink_log w1) = S (opens filepath (sink_log w)).
Proof.
  intros H. unfold open_sink, log_sink. rewrite H. unfold_method.
  eexists. split; [reflexivity|]. cbn. unfold releases, opens.
  rewrite !List.filter_app, !length_app. cbn. rewrite String.eqb_refl. cbn.
  repeat split; lia.
Qed.

(** Every return of the thread lowers the flag. *)
Lemma record_video_flag_down fuel r filepath duration w x w' :
  _record_video fuel r filepath duration w = Returned x w' ->
  is_recording (self w') = false.
Proof.
  unfold _record_video.
  destruct (open_sink r filepath w) as [[[]|e] w1].
  - apply returned_flag_down.
  - intros; by simplify_eq/=.
Qed.

(** The count of closings over a whole run of the thread: one more when
    the loop ended by a stop or by the cap, none when an exception ended
    it. *)
Lemma record_video_releases fuel r filepath duration w x w' :
  _record_video fuel r filepath duration w = Returned x w' ->
  releases filepath (sink_log w')
  = (releases filepath (sink_log w)
     + match x with Failed _ => 0 | _ => 1 end)%nat.
Proof.
  unfold _record_video, open_sink.
  destruct (VideoWriter_error r) as [e|] eqn:E; cbn.
  - intros; simplify_eq/=. lia.
  - intros H. apply returned_releases in H. rewrite H. cbn.
    unfold releases. rewrite List.filter_app, length_app. cbn. lia.
Qed.

(** A thread that opened its sink and was ended by an exception leaves
    it open: opened once, closed never. *)
Lemma failed_thread_leaks fuel r filepath duration w e w' :
  VideoWriter_error r = None ->
  _record_video fuel r filepath duration w = Returned (Failed e) w' ->
  opens filepath (sink_log w') = S (opens filepath (sink_log w)) /\
  releases filepath (sink_log w') = releases filepath (sink_log w).
Proof.
  intros Hv H. split.
  - unfold _record_video in H.
    destruct (open_sink_ok r filepath w Hv) as (w1 & Ho & _ & _ & Hopen).
    rewrite Ho in H. apply returned_opens in H. congruence.
  - apply record_video_releases in H. lia.
Qed.

(** C2, where the code departs from it: a recording started with
    [duration="10"] writes its first frame and then fails in the test of
    line 245, which compares a float with a string.  The thread returns
    with the flag down, and the sink it opened was never closed. *)
Theorem sink_left_open_on_error :
  running (Scenario.recording (PStr "10"))
  = [mkThread Scenario.clip (PStr "10") true] /\
  ending_of
    (_record_video 1 Scenario.smooth Scenario.clip (PStr "10")
       (Scenario.recording (PStr "10")))
  = Some (Failed (not_comparable "str")) /\
  sink_log
    (Api.world_of
       (_record_video 1 Scenario.smooth Scenario.clip (PStr "10")
          (Scenario.recording (PStr "10"))))
  = [SinkOpened Scenario.clip; SinkWrote Scenario.clip (mkFrame 0 BGR)] /\
  releases Scenario.clip
    (sink_log
       (Api.world_of
          (_record_video 1 Scenario.smooth Scenario.clip (PStr "10")
             (Scenario.recording (PStr "10")))))
  = 0%nat /\
  is_recording
    (self
       (Api.world_of
          (_record_video 1 Scenario.smooth Scenario.clip (PStr "10")
             (Scenario.recording (PStr "10")))))
  = false.
Proof. repeat split; vm_compute; reflexivity. Qed.

(** The same with a writer that fails in its third tick. *)
Example sink_left_open_on_write_error :
  ending_of
    (_record_video 3 Scenario.bad_write Scenario.clip PNone
       (Scenario.recording PNone))
  = Some (Failed (Exn "cv2.error" "write")) /\
  opens Scenario.clip
    (sink_log
       (Api.world_of
          (_record_video 3 Scenario.bad_write Scenario.clip PNone
             (Scenario.recording PNone))))
  = 1%nat /\
  releases Scenario.clip
    (sink_log
       (Api.world_of
          (_record_video 3 Scenario.bad_write Scenario.clip PNone
             (Scenario.recording PNone))))
  = 0%nat.
Proof. repeat split; vm_compute; reflexivity. Qed.

(** A cap of one second closes the sink once. *)
Example sink_closed_on_cap :
  ending_of
    (_record_video 31 Scenario.smooth Scenario.clip (PInt 1)
       (Scenario.recording (PInt 1)))
  = Some CapReached /\
  releases Scenario.clip
    (sink_log
       (Api.world_of
          (_record_video 31 Scenario.smooth Scenario.clip (PInt 1)
             (Scenario.recording (PInt 1)))))
  = 1%nat.
Proof. repeat split; vm_compute; reflexivity. Qed.

(** C4, as the code has it: with a cap that is a finite number other
    than zero, the flag up and nobody stopping, a thread whose clock
    shows the cap met in tick [k] has returned after [k + 1] passes of
    the loop, not by a stop, and the flag is down.  When the sink gives
    no trouble and tick [k] is the first to meet the cap, the thread
    ends by the cap in exactly that tick and closes the sink once. *)
Theorem cap_ends_recording r filepath duration q k w :
  finite_cap duration = Some q ->
  ~ (q == 0)%Q ->
  is_recording (self w) = true ->
  (q <= elapsed r k)%Q ->
  (exists x w',
     _record_video (S k) r filepath duration w = Returned x w' /\
     x <> Stopped /\
     is_recording (self w') = false) /\
  (sink_sound r k ->
   (forall j, (j < k)%nat -> (elapsed r j < q)%Q) ->
   exists w',
     _record_video (S k) r filepath duration w = Returned CapReached w' /\
     _record_video k r filepath duration w
     = Suspended k (Api.world_of (_record_video k r filepath duration w)) /\
     releases filepath (sink_log w') = S (releases filepath (sink_log w))).
Proof.
  intros Hcap Hq Hflag Hk.
  assert (forall j, cap_reached r j duration = Ret (Qle_bool q (elapsed r j)))
    as Htest by (intros j; by apply cap_reached_finite).
  assert (cap_reached r k duration = Ret true) as Hmet.
  { rewrite Htest. f_equal. by apply Qle_bool_iff. }
  split.
  - unfold _record_video, open_sink.
    destruct (VideoWriter_error r) as [e|] eqn:Hv; cbn.
    { do 2 eexists. repeat split; done. }
    set (w1 := set_sink_log _ w).
    destruct (loop_reaches_cap r filepath duration k 0 w1) as (o & w' & Hrun & Ho & _);
      [done | intros j; rewrite Htest; eauto | done |].
    unfold record_from. rewrite Hrun.
    destruct o as [[]|e]; [done| |]; cbn; do 2 eexists; repeat split; done.
  - intros [Hv Hw] Hfirst.
    destruct (open_sink_ok r filepath w Hv) as (w1 & Ho & Hf1 & Hr1 & _).
    destruct (loop_runs_on r filepath duration k 0 w1) as (w2 & Hrun & Hf2).
    + congruence.
    + intros j Hj. apply Hw. lia.
    + intros j Hj. rewrite Htest. f_equal.
      destruct (Qle_bool q (elapsed r j)) eqn:E; [|done].
      apply Qle_bool_iff in E. specialize (Hfirst j ltac:(lia)).
      exfalso. eapply Qlt_not_le; eauto.
    + cbn [Nat.add] in Hrun.
      assert (capture_loop (S k) r filepath duration 0 w1
              = Left (Ret Break) (snd (tick r filepath duration k w2))) as Hlast.
      { replace (S k) with (k + 1)%nat by lia.
        rewrite loop_split, Hrun. cbn [capture_loop]. rewrite Hf2.
        pose proof (tick_sound r filepath duration k w2 (Hw k ltac:(lia))) as Ht.
        rewrite Hmet in Ht.
        destruct (tick r filepath duration k w2) as [o w3]; cbn in *.
        by subst o. }
      assert (exists w', _record_video (S k) r filepath duration w
                         = Returned CapReached w') as [w' Hret].
      { unfold _record_video. rewrite Ho. unfold record_from. rewrite Hlast.
        cbn. eauto. }
      exists w'. split; [done|]. split.
      * unfold _record_video. rewrite Ho. unfold record_from. by rewrite Hrun.
      * apply record_video_releases in Hret. lia.
Qed.

(** A cap of one second on the smooth clock: met in tick 29, the
    thirtieth pass. *)
Lemma cap_ends_recording_witness :
  (exists x w',
     _record_video 30 Scenario.smooth Scenario.clip (PInt 1)
       (Scenario.recording (PInt 1))
     = Returned x w' /\
     x <> Stopped /\
     is_recording (self w') = false) /\
  (exists w',
     _record_video 30 Scenario.smooth Scenario.clip (PInt 1)
       (Scenario.recording (PInt 1))
     = Returned CapReached w' /\
     _record_video 29 Scenario.smooth Scenario.clip (PInt 1)
       (Scenario.recording (PInt 1))
     = Suspended 29
         (Api.world_of
            (_record_video 29 Scenario.smooth Scenario.clip (PInt 1)
               (Scenario.recording (PInt 1)))) /\
     releases Scenario.clip (sink_log w')
     = S (releases Scenario.clip (sink_log (Scenario.recording (PInt 1))))).
Proof.
  destruct (cap_ends_recording Scenario.smooth Scenario.clip (PInt 1) 1 29
              (Scenario.recording (PInt 1))) as [Hends Hexact].
  - reflexivity.
  - discriminate.
  - reflexivity.
  - vm_compute. discriminate.
  - split; [exact Hends|]. apply Hexact.
    + split; [reflexivity | intros; reflexivity].
    + intros j Hj.
      do 29 (destruct j as [|j]; [vm_compute; reflexivity|]). lia.
Defined.

(** C4, as worded, fails: a cap of [0] is a cap that is not null, and the
    clock shows it met from the first tick on; after 300 passes on the
    smooth clock (ten seconds) the thread is still in its loop and the
    flag is still up. *)
Lemma zero_cap_keeps_recording :
  running (Scenario.recording (PInt 0))
  = [mkThread Scenario.clip (PInt 0) true] /\
  Qle_bool 0 (elapsed Scenario.smooth 0) = true /\
  match
    _record_video 300 Scenario.smooth Scenario.clip (PInt 0)
      (Scenario.recording (PInt 0))
  with
  | Suspended k w' => k = 300%nat /\ is_recording (self w') = true
  | Returned _ _ => False
  end.
Proof.
  split; [vm_compute; reflexivity|].
  split; [vm_compute; reflexivity|].
  vm_compute. split; reflexivity.
Qed.

(** The loop does not look at a cap of [0]. *)
Lemma loop_zero_is_none r filepath fuel : forall k w,
  capture_loop fuel r filepath (PInt 0) k w
  = capture_loop fuel r filepath PNone k w.
Proof.
  induction fuel as [|fuel IH]; intros k w; cbn [capture_loop]; [done|].
  destruct (is_recording (self w)); [|done].
  change (tick r filepath (PInt 0) k w) with (tick r filepath PNone k w).
  destruct (tick r filepath PNone k w) as [[[]|e] w1]; try done.
Qed.

(** C9: a thread run with [duration=0] is, pass for pass, the thread run
    with no duration; it never ends by the cap; and with the flag up and
    a sink that gives no trouble it is still in its loop after any number
    of passes, the flag still up, until [stop_recording] lowers the
    flag, upon which the next pass ends it. *)
Theorem zero_duration_is_no_cap fuel r filepath w :
  _record_video fuel r filepath (PInt 0) w
  = _record_video fuel r filepath PNone w /\
  (forall x w',
     _record_video fuel r filepath (PInt 0) w = Returned x w' ->
     x <> CapReached) /\
  (is_recording (self w) = true ->
   sink_sound r fuel ->
   exists w',
     _record_video fuel r filepath (PInt 0) w = Suspended fuel w' /\
     is_recording (self w') = true /\
     exists w'',
       record_from 1 r filepath (PInt 0) fuel (snd (stop_recording w'))
       = Returned Stopped w'' /\
       is_recording (self w'') = false).
Proof.
  split; [|split].
  - unfold _record_video, record_from.
    destruct (open_sink r filepath w) as [[[]|e] w1]; [|done].
    by rewrite loop_zero_is_none.
  - intros x w'. unfold _record_video, record_from.
    destruct (open_sink r filepath w) as [[[]|e] w1]; [|congruence].
    destruct (capture_loop fuel r filepath (PInt 0) 0 w1) as [|o w2] eqn:E;
      [done|].
    apply loop_never_breaks in E; [|done].
    destruct o as [[]|e]; [| done |]; cbn; congruence.
  - intros Hflag [Hv Hw].
    destruct (open_sink_ok r filepath w Hv) as (w1 & Ho & Hf1 & _).
    destruct (loop_runs_on r filepath (PInt 0) fuel 0 w1) as (w2 & Hrun & Hf2).
    + congruence.
    + intros j Hj. apply Hw. lia.
    + done.
    + exists w2. unfold _record_video. rewrite Ho. unfold record_from at 1.
      rewrite Hrun. cbn [Nat.add]. split; [done|]. split; [done|].
      destruct (stopped_thread_returns 0 r filepath (PInt 0) fuel w2)
        as (w3 & H3 & Hf3 & _).
      eauto.
Qed.

Lemma zero_duration_is_no_cap_witness :
  _record_video 90 Scenario.smooth Scenario.clip (PInt 0)
    (Scenario.recording (PInt 0))
  = _record_video 90 Scenario.smooth Scenario.clip PNone
      (Scenario.recording (PInt 0)) /\
  exists w',
    _record_video 90 Scenario.smooth Scenario.clip (PInt 0)
      (Scenario.recording (PInt 0))
    = Suspended 90 w' /\
    is_recording (self w') = true /\
    exists w'',
      record_from 1 Scenario.smooth Scenario.clip (PInt 0) 90
        (snd (stop_recording w'))
      = Returned Stopped w'' /\
      is_recording (self w'') = false.
Proof.
  destruct (zero_duration_is_no_cap 90 Scenario.smooth Scenario.clip
              (Scenario.recording (PInt 0))) as (Hsame & _ & Hruns).
  split; [exact Hsame|]. apply Hruns.
  - reflexivity.
  - split; [reflexivity | intros; reflexivity].
Defined.

(** [start_recording(duration=0)], three seconds of the thread, then
    [stop_recording]: the thread is still recording after the three
    seconds, and the stop ends it with the sink closed once. *)
Example zero_duration_runs_until_stopped :
  running (Scenario.recording (PInt 0))
  = [mkThread Scenario.clip (PInt 0) true] /\
  ending_of
    (_record_video 90 Scenario.smooth Scenario.clip (PInt 0)
       (Scenario.recording (PInt 0)))
  = None /\
  fst (stop_recording
         (Api.world_of
            (_record_video 90 Scenario.smooth Scenario.clip (PInt 0)
               (Scenario.recording (PInt 0)))))
  = Ret (true, [Text "Recording stopped"]) /\
  ending_of
    (record_from 1 Scenario.smooth Scenario.clip (PInt 0) 90
       (snd (stop_recording
               (Api.world_of
                  (_record_video 90 Scenario.smooth Scenario.clip (PInt 0)
                     (Scenario.recording (PInt 0)))))))
  = Some Stopped /\
  releases Scenario.clip
    (sink_log
       (Api.world_of
          (record_from 1 Scenario.smooth Scenario.clip (PInt 0) 90
             (snd (stop_recording
                     (Api.world_of
                        (_record_video 90 Scenario.smooth Scenario.clip
                           (PInt 0) (Scenario.recording (PInt 0)))))))))
  = 1%nat.
Proof. repeat split; vm_compute; reflexivity. Qed.

End ThreadProps.

(** ** The retention sweep *)

Module RetentionProps.

Import Datetime Retention Notions.

(** [strptime] raises nothing but [ValueError]. *)
Lemma strptime_value_error s e :
  strptime s = Raise e -> exn_class e = "ValueError".
Proof.
  unfold strptime.
  destruct (match_format (list_ascii_of_string s)) as [[[[y m] d] rest]|];
    [|by intros [= <-]].
  destruct rest; [|by intros [= <-]].
  destruct ((1 <=? y) && (d <=? days_in_month y m)); [done | by intros [= <-]].
Qed.

(** One name of the listing: an expired one is removed and counted, if
    it is a directory; any other is passed over. *)
Lemma visit_run cutoff name c w :
  visit cutoff name c w
  = if expired cutoff name
    then
      match storage w !! name with
      | Some Dir => (Ret (c + 1), set_storage (delete name (storage w)) w)
      | Some File => (Raise (Exn "NotADirectoryError" name), w)
      | None => (Raise (Exn "FileNotFoundError" name), w)
      end
    else (Ret c, w).
Proof.
  unfold visit, expired, rmtree. unfold_method.
  destruct (strptime name) as [d|e] eqn:E.
  - destruct (datetime_lt d cutoff); [|done].
    by destruct (storage w !! name) as [[]|].
  - by rewrite (strptime_value_error name e E).
Qed.

Lemma lookup_remove_all names : forall m k,
  remove_all names m !! k
  = if bool_decide (k ∈ names) then None else m !! k.
Proof.
  induction names as [|name names IH]; intros m k; cbn; [done|].
  unfold remove_all in IH. rewrite IH.
  destruct (decide (k = name)) as [->|Hne].
  - rewrite (bool_decide_eq_true_2 (name ∈ name :: names)) by set_solver.
    case_bool_decide; [done | apply lookup_delete_eq].
  - rewrite lookup_delete_ne by done.
    destruct (decide (k ∈ names)) as [Hin|Hout].
    + rewrite !bool_decide_eq_true_2; [done | by right | done].
    + rewrite !bool_decide_eq_false_2;
        [done | by intros [?|?]%elem_of_cons | done].
Qed.

(** A listing without repeats, whose expired names are directories, is
    swept without an exception: every expired name is removed, and the
    counter has grown by their number. *)
Lemma sweep_run cutoff names : forall c w,
  NoDup names ->
  (forall name, name ∈ names -> expired cutoff name = true ->
                storage w !! name = Some Dir) ->
  sweep cutoff names c w
  = (Ret (c + Z.of_nat (length (List.filter (expired cutoff) names))),
     set_storage (remove_all (List.filter (expired cutoff) names) (storage w)) w).
Proof.
  induction names as [|name names IH]; intros c w Hnd Hdir; cbn.
  - rewrite Z.add_0_r. by destruct w.
  - apply NoDup_cons in Hnd as [Hnotin Hnd].
    unfold bind. rewrite visit_run.
    destruct (expired cutoff name) eqn:E.
    + rewrite (Hdir name) by (done || set_solver).
      rewrite IH; [|done|].
      * cbn. f_equal. f_equal. lia.
      * intros n Hn He. cbn. rewrite lookup_delete_ne by set_solver.
        apply Hdir; [set_solver | done].
    + apply IH; [done|]. intros n Hn He. apply Hdir; [set_solver | done].
Qed.

(** Nothing expired in the listing: nothing happens. *)
Lemma sweep_nothing cutoff names : forall c w,
  (forall name, name ∈ names -> expired cutoff name = false) ->
  sweep cutoff names c w = (Ret c, w).
Proof.
  induction names as [|name names IH]; intros c w Hno; cbn; [done|].
  unfold bind. rewrite visit_run, (Hno name) by set_solver.
  apply IH. intros n Hn. apply Hno. set_solver.
Qed.

Lemma in_listing (m : gmap string fs_kind) name :
  name ∈ (map_to_list m).*1 <-> is_Some (m !! name).
Proof.
  rewrite list_elem_of_fmap. split.
  - intros ([k v] & -> & H). apply elem_of_map_to_list in H. eauto.
  - intros [v H]. exists (name, v). split; [done|].
    by apply elem_of_map_to_list.
Qed.

(** The run of the method when the cutoff can be computed and nothing
    expired is a regular file. *)
Lemma cleanup_run now cutoff w :
  minus_days now (auto_delete_days (self w)) = Ret cutoff ->
  (forall name, storage w !! name = Some File -> expired cutoff name = false) ->
  cleanup_old_recordings now w
  = (Ret (true,
          deleted_msg
            (Z.of_nat
               (length (List.filter (expired cutoff) (map_to_list (storage w)).*1)))),
     set_storage
       (remove_all (List.filter (expired cutoff) (map_to_list (storage w)).*1)
          (storage w)) w).
Proof.
  intros Hcut Hfiles.
  unfold cleanup_old_recordings, listdir. unfold_method. rewrite Hcut.
  rewrite sweep_run.
  - done.
  - apply NoDup_fst_map_to_list.
  - intros name Hin He. apply in_listing in Hin as [[] Hk]; [done|].
    specialize (Hfiles name Hk). congruence.
Qed.

Lemma cleanup_nothing now cutoff w :
  minus_days now (auto_delete_days (self w)) = Ret cutoff ->
  (forall name, is_Some (storage w !! name) -> expired cutoff name = false) ->
  cleanup_old_recordings now w = (Ret (true, deleted_msg 0), w).
Proof.
  intros Hcut Hno.
  unfold cleanup_old_recordings, listdir. unfold_method. rewrite Hcut.
  rewrite sweep_nothing; [done|].
  intros name Hin. apply Hno. by apply in_listing.
Qed.

(** C7, as amended: when the cutoff [now - auto_delete_days] exists and no expired
    name belongs to a regular file, the sweep returns success with the
    number of expired names in the listing; afterwards exactly those
    names are gone and every other entry is as it was, in particular
    every name that does not parse as a date; and a second sweep, at the
    same moment or at any moment at which nothing that is left has
    expired, deletes nothing and reports zero. *)
Theorem sweep_deletes_expired now cutoff w :
  minus_days now (auto_delete_days (self w)) = Ret cutoff ->
  (forall name, storage w !! name = Some File -> expired cutoff name = false) ->
  exists w',
    cleanup_old_recordings now w
    = (Ret (true,
            deleted_msg
              (Z.of_nat
                 (length
                    (List.filter (expired cutoff) (map_to_list (storage w)).*1)))),
       w') /\
    self w' = self w /\
    (forall name,
       storage w' !! name
       = if expired cutoff name then None else storage w !! name) /\
    (forall name e,
       strptime name = Raise e -> storage w' !! name = storage w !! name) /\
    cleanup_old_recordings now w' = (Ret (true, deleted_msg 0), w') /\
    (forall now' cutoff',
       minus_days now' (auto_delete_days (self w')) = Ret cutoff' ->
       (forall name, is_Some (storage w' !! name) -> expired cutoff' name = false) ->
       cleanup_old_recordings now' w' = (Ret (true, deleted_msg 0), w')).
Proof.
  intros Hcut Hfiles.
  eexists. split; [by apply cleanup_run|].
  set (w' := set_storage _ w).
  assert (forall name,
            storage w' !! name
            = if expired cutoff name then None else storage w !! name) as Hlook.
  { intros name. cbn. rewrite lookup_remove_all.
    destruct (expired cutoff name) eqn:E.
    - case_bool_decide as Hin; [done|].
      destruct (storage w !! name) eqn:Hk; [|done].
      exfalso. apply Hin. apply list_elem_of_In, List.filter_In. split; [|done].
      apply list_elem_of_In, in_listing. eauto.
    - rewrite bool_decide_eq_false_2; [done|].
      intros Hin. apply list_elem_of_In, List.filter_In in Hin as [_ He].
      congruence. }
  split; [done|]. split; [done|]. split.
  { intros name e He. rewrite Hlook. unfold expired. by rewrite He. }
  assert (forall name, is_Some (storage w' !! name) -> expired cutoff name = false)
    as Hleft.
  { intros name [v Hv]. rewrite Hlook in Hv.
    by destruct (expired cutoff name). }
  split.
  - by apply (cleanup_nothing now cutoff w').
  - intros now' cutoff' Hcut' Hno. by apply (cleanup_nothing now' cutoff' w').
Qed.

(** The example of the specification: the groups 2024-01-01 and
    2024-01-10 (and a stray file), swept at noon of 2024-01-15 with an
    age of seven days. *)
Lemma sweep_deletes_expired_witness :
  exists w',
    cleanup_old_recordings Scenario.noon Scenario.with_archive
    = (Ret (true,
            deleted_msg
              (Z.of_nat
                 (length
                    (List.filter (expired (mkDatetime 2024 1 8 12 0 0 0))
                       (map_to_list (storage Scenario.with_archive)).*1)))),
       w') /\
    self w' = self Scenario.with_archive /\
    (forall name,
       storage w' !! name
       = if expired (mkDatetime 2024 1 8 12 0 0 0) name
         then None
         else storage Scenario.with_archive !! name) /\
    (forall name e,
       strptime name = Raise e ->
       storage w' !! name = storage Scenario.with_archive !! name) /\
    cleanup_old_recordings Scenario.noon w' = (Ret (true, deleted_msg 0), w') /\
    (forall now' cutoff',
       minus_days now' (auto_delete_days (self w')) = Ret cutoff' ->
       (forall name, is_Some (storage w' !! name) -> expired cutoff' name = false) ->
       cleanup_old_recordings now' w' = (Ret (true, deleted_msg 0), w')).
Proof.
  apply (sweep_deletes_expired Scenario.noon (mkDatetime 2024 1 8 12 0 0 0)
           Scenario.with_archive).
  - vm_compute. reflexivity.
  - intros name H.
    change (storage Scenario.with_archive) with Scenario.archive in H.
    unfold Scenario.archive in H.
    rewrite !lookup_insert_Some, lookup_empty in H.
    destruct H as [[_ [=]]|[_ [[_ [=]]|[_ [[<- _]|[_ [=]]]]]]].
    vm_compute. reflexivity.
Defined.

(** C7, as worded, fails.  The sweep catches only the [ValueError] of a
    name that does not parse; whatever else is raised ends it in the
    handler of the whole method, which returns failure and no count.
    With a regular file named [2023-12-25] in the archive, at noon of
    2024-01-15 and seven days: [shutil.rmtree] refuses the file, the
    sweep returns "Cleanup failed", and the group [2024-01-01], which is
    a directory older than the cutoff, is still there.  With an age of
    4000000 days, which [/api/set-auto-delete] stores as it is, the
    cutoff leaves the calendar: the sweep returns "Cleanup failed"
    where the claim has it report zero. *)
Lemma sweep_reports_failure :
  (minus_days Scenario.noon (auto_delete_days (self Situation.cluttered))
   = Ret (mkDatetime 2024 1 8 12 0 0 0) /\
   storage Situation.cluttered !! "2024-01-01" = Some Dir /\
   expired (mkDatetime 2024 1 8 12 0 0 0) "2024-01-01" = true /\
   fst (cleanup_old_recordings Scenario.noon Situation.cluttered)
   = Ret (false,
          cleanup_failed_msg (Exn "NotADirectoryError" "2023-12-25")) /\
   storage (snd (cleanup_old_recordings Scenario.noon Situation.cluttered))
     !! "2024-01-01"
   = Some Dir) /\
  (auto_delete_days (self Situation.beyond_calendar) = 4000000 /\
   fst (cleanup_old_recordings Scenario.noon Situation.beyond_calendar)
   = Ret (false,
          cleanup_failed_msg (Exn "OverflowError" "date value out of range")) /\
   storage (snd (cleanup_old_recordings Scenario.noon Situation.beyond_calendar))
   = Scenario.archive).
Proof.
  split.
  - split; [vm_compute; reflexivity|].
    split; [vm_compute; reflexivity|].
    split; [vm_compute; reflexivity|].
    split; vm_compute; reflexivity.
  - split; [vm_compute; reflexivity|].
    split; vm_compute; reflexivity.
Qed.

(** The same example, evaluated: one group deleted, the newer group and
    the stray file left, and zero on the second run. *)
Example sweep_example :
  fst (cleanup_old_recordings Scenario.noon Scenario.with_archive)
  = Ret (true, deleted_msg 1) /\
  storage (snd (cleanup_old_recordings Scenario.noon Scenario.with_archive))
  = <["2024-01-10" := Dir]> (<["notes.txt" := File]> ∅) /\
  fst (cleanup_old_recordings Scenario.noon
         (snd (cleanup_old_recordings Scenario.noon Scenario.with_archive)))
  = Ret (true, deleted_msg 0).
Proof. repeat split; vm_compute; reflexivity. Qed.

(** The group of the cutoff day itself: its date reads as midnight, so
    it goes when the sweep runs later in the day than midnight, and stays
    when the sweep runs at midnight sharp. *)
Example cutoff_day_boundary :
  expired (mkDatetime 2024 1 8 12 0 0 0) "2024-01-08" = true /\
  expired (mkDatetime 2024 1 8 0 0 0 0) "2024-01-08" = false /\
  expired (mkDatetime 2024 1 8 12 0 0 0) "2024-01-09" = false.
Proof. repeat split; vm_compute; reflexivity. Qed.

(** An age beyond the calendar makes the sweep fail instead of counting. *)
Example sweep_age_out_of_range :
  fst (cleanup_old_recordings Scenario.noon
         (snd (Api.set_auto_delete 1000000 Scenario.with_archive)))
  = Ret (false,
         cleanup_failed_msg (Exn "OverflowError" "date value out of range")).
Proof. vm_compute. reflexivity. Qed.

End RetentionProps.

(** ** Further properties *)

Module MoreProps.

Import Datetime Recorder Retention Notions.

(** X1: over a whole run of the recording thread the sink is closed once
    more than before when the loop ended by a stop or by the cap, and no
    more than before when an exception ended the thread. *)
Theorem sink_closed_once_unless_failed fuel r filepath duration w x w' :
  _record_video fuel r filepath duration w = Returned x w' ->
  releases filepath (sink_log w')
  = (releases filepath (sink_log w)
     + match x with Failed _ => 0 | Stopped | CapReached => 1 end)%nat /\
  is_recording (self w') = false.
Proof.
  intros H. split.
  - rewrite (ThreadProps.record_video_releases _ _ _ _ _ _ _ H).
    by destruct x.
  - exact (ThreadProps.record_video_flag_down _ _ _ _ _ _ _ H).
Qed.

Lemma sink_closed_once_unless_failed_witness :
  releases Scenario.clip
    (sink_log
       (Api.world_of
          (_record_video 31 Scenario.smooth Scenario.clip (PInt 1)
             (Scenario.recording (PInt 1)))))
  = (releases Scenario.clip (sink_log (Scenario.recording (PInt 1))) + 1)%nat /\
  is_recording
    (self
       (Api.world_of
          (_record_video 31 Scenario.smooth Scenario.clip (PInt 1)
             (Scenario.recording (PInt 1)))))
  = false.
Proof.
  apply (sink_closed_once_unless_failed 31 Scenario.smooth Scenario.clip
           (PInt 1) (Scenario.recording (PInt 1)) CapReached).
  vm_compute. reflexivity.
Defined.

(** X2: in every world the program can reach, the duration of motion
    recordings is 180 seconds, the storage root is [recordings], and the
    settings mapping holds exactly the six keys of [__init__]. *)
Theorem fixed_configuration w :
  Api.reachable w ->
  recording_duration (self w) = 180 /\
  video_storage_path (self w) = "recordings" /\
  forall k,
    is_Some (camera_settings (self w) !! k) <-> k ∈ Settings.setting_keys.
Proof.
  intros Hw. destruct (Invariants.reachable_fixed w Hw) as (Hd & Hp & _).
  split; [done|]. split; [done|].
  intros k. by apply Invariants.reachable_keys.
Qed.

Lemma fixed_configuration_witness :
  recording_duration (self (Scenario.recording (PInt 0))) = 180 /\
  video_storage_path (self (Scenario.recording (PInt 0))) = "recordings" /\
  forall k,
    is_Some (camera_settings (self (Scenario.recording (PInt 0))) !! k)
    <-> k ∈ Settings.setting_keys.
Proof.
  apply (fixed_configuration (Scenario.recording (PInt 0))).
  eapply Api.reach_step; [apply Api.reach_boot | apply Api.step_start].
Defined.

(** A listing that holds an expired name belonging to a regular file
    makes the sweep raise [NotADirectoryError]. *)
Lemma sweep_hits_file cutoff names : forall c w,
  NoDup names ->
  (forall name, name ∈ names -> is_Some (storage w !! name)) ->
  (exists name,
     name ∈ names /\ storage w !! name = Some File /\
     expired cutoff name = true) ->
  exists name w',
    sweep cutoff names c w = (Raise (Exn "NotADirectoryError" name), w') /\
    self w' = self w.
Proof.
  induction names as [|n names IH]; intros c w Hnd Hall (name & Hin & Hfile & He).
  { by apply elem_of_nil in Hin. }
  apply NoDup_cons in Hnd as [Hnotin Hnd].
  cbn. unfold bind. rewrite RetentionProps.visit_run.
  destruct (expired cutoff n) eqn:En.
  - destruct (Hall n ltac:(left)) as [[] Hn]; rewrite Hn.
    + assert (name <> n) as Hne by congruence.
      destruct (IH (c + 1) (set_storage (delete n (storage w)) w))
        as (name' & w' & Hrun & Hself).
      * done.
      * intros m Hm. cbn. rewrite lookup_delete_ne by set_solver.
        apply Hall. by right.
      * exists name. apply elem_of_cons in Hin as [?|Hin]; [done|].
        cbn. by rewrite lookup_delete_ne.
      * exists name', w'. by rewrite Hrun.
    + eauto.
  - assert (name <> n) as Hne by congruence.
    apply elem_of_cons in Hin as [?|Hin]; [done|].
    apply IH; [done | | eauto].
    intros m Hm. apply Hall. by right.
Qed.

(** X3: when the cutoff exists and some expired date-named entry of the
    storage directory is a regular file, the sweep reports failure
    ("Cleanup failed: ...") instead of a count. *)
Theorem sweep_fails_on_expired_file now cutoff w name :
  minus_days now (auto_delete_days (self w)) = Ret cutoff ->
  storage w !! name = Some File ->
  expired cutoff name = true ->
  exists name' w',
    cleanup_old_recordings now w
    = (Ret (false, cleanup_failed_msg (Exn "NotADirectoryError" name')), w') /\
    self w' = self w.
Proof.
  intros Hcut Hfile He.
  destruct (sweep_hits_file cutoff (map_to_list (storage w)).*1 0 w)
    as (name' & w' & Hrun & Hself).
  - apply NoDup_fst_map_to_list.
  - intros m Hm. by apply RetentionProps.in_listing.
  - exists name. split; [|done]. apply RetentionProps.in_listing. eauto.
  - exists name', w'. split; [|done].
    unfold cleanup_old_recordings, listdir. unfold_method.
    by rewrite Hcut, Hrun.
Qed.

Lemma sweep_fails_on_expired_file_witness :
  exists name' w',
    cleanup_old_recordings Scenario.noon
      (set_storage (<["2023-12-25" := File]> Scenario.archive)
         Scenario.with_archive)
    = (Ret (false, cleanup_failed_msg (Exn "NotADirectoryError" name')), w') /\
    self w'
    = self (set_storage (<["2023-12-25" := File]> Scenario.archive)
              Scenario.with_archive).
Proof.
  apply (sweep_fails_on_expired_file Scenario.noon
           (mkDatetime 2024 1 8 12 0 0 0)
           (set_storage (<["2023-12-25" := File]> Scenario.archive)
              Scenario.with_archive)
           "2023-12-25").
  - vm_compute. reflexivity.
  - vm_compute. reflexivity.
  - vm_compute. reflexivity.
Defined.

End MoreProps.

(** ** What a step can and cannot change *)

Module FrameProps.

Import Datetime Recorder Notions Frames.

Section Preserved.

Context (R : relation World) `{!PreOrder R}.

Lemma preserves_ret {A} (a : A) : preserves R (ret a).
Proof. intros w. reflexivity. Qed.

Lemma preserves_raise {A} e : preserves R (raise (A := A) e).
Proof. intros w. reflexivity. Qed.

Lemma preserves_lift {A} (o : outcome A) : preserves R (lift o).
Proof. intros w. reflexivity. Qed.

Lemma preserves_bind {A B} (m : M World A) (k : A -> M World B) :
  preserves R m -> (forall a, preserves R (k a)) -> preserves R (bind m k).
Proof.
  intros Hm Hk w. unfold bind. specialize (Hm w).
  destruct (m w) as [[a|e] w1]; cbn in *; [|done].
  etrans; [exact Hm | apply Hk].
Qed.

(** A method that first reads the world it runs in. *)
Lemma preserves_get_self {A} (k : World -> M World A) :
  (forall w, R w (snd (k w w))) -> preserves R (bind get k).
Proof. intros Hk w. apply Hk. Qed.

Lemma preserves_try_except {A} (m : M World A) h :
  preserves R m -> (forall e, preserves R (h e)) ->
  preserves R (try_except m h).
Proof.
  intros Hm Hh w. unfold try_except. specialize (Hm w).
  destruct (m w) as [[a|e] w1]; cbn in *; [done|].
  etrans; [exact Hm | apply Hh].
Qed.

Lemma preserves_modify (f : World -> World) :
  (forall w, R w (f w)) -> preserves R (modify f).
Proof. intros Hf w. apply Hf. Qed.

Context (el : elementary R).

Lemma preserves_makedirs name : preserves R (makedirs name).
Proof.
  intros w. unfold makedirs.
  destruct (storage w !! name) as [[]|] eqn:E; cbn; try reflexivity.
  by apply el_new_folder.
Qed.

Lemma preserves_thread_start env : preserves R (thread_start env).
Proof.
  intros w. unfold thread_start.
  destruct (thread_start_error env); cbn; [reflexivity|].
  destruct (recording_thread (self w)); cbn; [|reflexivity].
  etrans; [apply (el_thread R el) | apply (el_running R el)].
Qed.

Lemma preserves_start_rest env duration trigger :
  preserves R (start_rest env duration trigger).
Proof.
  unfold start_rest.
  apply preserves_get_self; intros w.
  apply (preserves_bind (makedirs _)); [apply preserves_makedirs|intros _].
  apply preserves_bind; [apply preserves_modify, (el_thread R el)|intros _].
  apply preserves_bind; [apply preserves_thread_start|intros _].
  apply preserves_ret.
Qed.

Lemma preserves_start_handler e : preserves R (start_handler e).
Proof.
  unfold start_handler.
  apply preserves_bind; [apply preserves_modify, (el_flag R el)|intros _].
  apply preserves_ret.
Qed.

Lemma preserves_start_recording env duration trigger :
  preserves R (start_recording env duration trigger).
Proof.
  unfold start_recording. apply preserves_get_self; intros w.
  destruct (is_recording (self w)); [apply preserves_ret|].
  apply preserves_try_except; [|apply preserves_start_handler].
  apply preserves_bind; [apply preserves_modify, (el_flag R el)|intros _].
  apply preserves_start_rest.
Qed.

Lemma preserves_start_step c pc w : R w (snd (start_step c pc w)).
Proof.
  destruct pc; cbn.
  - destruct (is_recording (self w)); reflexivity.
  - apply (el_flag R el).
  - pose proof (preserves_try_except _ _
      (preserves_start_rest (call_env c) (call_duration c) (call_trigger c))
      preserves_start_handler w) as H.
    by destruct (try_except _ _ w).
  - reflexivity.
Qed.

Lemma preserves_motion_detected env channel :
  preserves R (motion_detected env channel).
Proof.
  unfold motion_detected. apply preserves_get_self; intros w.
  destruct (_ && _); [|apply preserves_ret].
  apply preserves_bind; [apply preserves_start_recording|intros _].
  apply preserves_ret.
Qed.

Lemma preserves_stop_recording : preserves R stop_recording.
Proof.
  unfold stop_recording, join. apply preserves_get_self; intros w.
  destruct (negb _); [apply preserves_ret|].
  apply preserves_bind; [apply preserves_modify, (el_flag R el)|intros _].
  apply preserves_bind; [|intros _; apply preserves_ret].
  destruct (recording_thread (self w)) as [[? ? []]|];
    first [apply preserves_ret | apply preserves_raise].
Qed.

Lemma preserves_get_frame hw : preserves R (get_frame hw).
Proof.
  intros w. unfold get_frame. unfold_method.
  destruct (camera_adapter (self w)) as [[h| |n]|] eqn:E;
    try (destruct hw as [[px|]|e]); cbn; try reflexivity.
  all: by apply (el_counter R el).
Qed.

Lemma preserves_to_bgr f : preserves R (to_bgr f).
Proof.
  intros w. unfold to_bgr. unfold_method.
  destruct (camera_adapter (self w)) as [a|]; [|reflexivity].
  destruct (is_bgr_format a); reflexivity.
Qed.

Lemma preserves_log_sink e : preserves R (log_sink e).
Proof. apply preserves_modify. intros w. apply (el_sink_log R el). Qed.

Lemma preserves_tick r filepath duration k :
  preserves R (tick r filepath duration k).
Proof.
  unfold tick, sink_write.
  apply preserves_bind; [apply preserves_get_frame|intros frame].
  apply preserves_bind; [|intros _; apply preserves_lift].
  destruct frame as [f|]; [|apply preserves_ret].
  apply preserves_bind; [apply preserves_to_bgr|intros f'].
  destruct (write_error r k); [apply preserves_raise | apply preserves_log_sink].
Qed.

Lemma preserves_capture_loop fuel r filepath duration : forall k w,
  R w
    match capture_loop fuel r filepath duration k w with
    | Looping _ w' | Left _ w' => w'
    end.
Proof.
  induction fuel as [|fuel IH]; intros k w; cbn; [reflexivity|].
  destruct (is_recording (self w)); [|reflexivity].
  pose proof (preserves_tick r filepath duration k w) as H.
  destruct (tick r filepath duration k w) as [[[]|e] w1]; cbn in *; try done.
  etrans; [exact H | apply IH].
Qed.

Lemma preserves_record_from fuel r filepath duration k w :
  R w (Api.world_of (record_from fuel r filepath duration k w)).
Proof.
  unfold record_from.
  pose proof (preserves_capture_loop fuel r filepath duration k w) as H.
  destruct (capture_loop fuel r filepath duration k w) as [k' w'|[x|e] w'];
    cbn in *; [done| |].
  - etrans; [exact H|]. etrans; [apply (el_sink_log R el)|].
    apply (el_flag R el).
  - etrans; [exact H|]. apply (el_flag R el).
Qed.

Lemma preserves_record_video fuel r filepath duration w :
  R w (Api.world_of (_record_video fuel r filepath duration w)).
Proof.
  unfold _record_video, open_sink.
  destruct (VideoWriter_error r); cbn; [apply (el_flag R el)|].
  etrans; [apply (el_sink_log R el) | apply preserves_record_from].
Qed.

Lemma preserves_set_controls p c : preserves R (Settings.set_controls p c).
Proof.
  intros w. unfold Settings.set_controls.
  destruct (set_controls_error p c); cbn; [reflexivity|].
  apply (el_applied R el).
Qed.

Lemma preserves_apply_to_camera p k value :
  preserves R (Settings.apply_to_camera p k value).
Proof.
  unfold Settings.apply_to_camera. apply preserves_get_self; intros w.
  repeat
    match goal with
    | |- R _ (snd ((if ?b then _ else _) _)) => destruct b
    end;
    first [ apply preserves_ret
          | apply preserves_set_controls
          | apply (preserves_bind (lift _));
              [apply preserves_lift | intros ?; apply preserves_set_controls] ].
Qed.

Lemma preserves_update_camera_setting p setting value :
  preserves R (Settings.update_camera_setting p setting value).
Proof.
  unfold Settings.update_camera_setting.
  apply preserves_try_except; [|intros ?; apply preserves_ret].
  apply preserves_get_self; intros w.
  destruct setting; try apply preserves_ret; try apply preserves_raise.
  case_bool_decide; [|apply preserves_ret].
  apply preserves_bind;
    [apply preserves_modify; intros ?; apply (el_settings R el)|intros _].
  apply preserves_bind; [apply preserves_apply_to_camera|intros _].
  apply preserves_ret.
Qed.

Lemma preserves_toggle : preserves R Api.toggle_motion_detection.
Proof.
  unfold Api.toggle_motion_detection.
  apply preserves_bind;
    [apply preserves_modify; intros ?; apply (el_motion R el)|intros _].
  apply preserves_get_self; intros w. reflexivity.
Qed.

Lemma preserves_set_auto_delete days : preserves R (Api.set_auto_delete days).
Proof.
  unfold Api.set_auto_delete.
  apply preserves_bind;
    [apply preserves_modify; intros ?; apply (el_days R el)|intros _].
  apply preserves_ret.
Qed.

(** A preorder kept by the elementary updates is kept by every step of
    the program other than a retention sweep. *)
Lemma step_no_sweep_preserved w w' : step_no_sweep w w' -> R w w'.
Proof.
  destruct 1.
  - apply preserves_start_recording.
  - apply preserves_start_step.
  - apply preserves_stop_recording.
  - apply preserves_motion_detected.
  - apply preserves_update_camera_setting.
  - apply preserves_toggle.
  - apply preserves_set_auto_delete.
  - apply preserves_get_frame.
  - apply preserves_record_video.
  - apply preserves_record_from.
Qed.

(** The sweep too, when [R] is also kept by the removal of an entry. *)
Context (el_delete : forall name w,
           R w (set_storage (delete name (storage w)) w)).

Lemma preserves_visit cutoff name c : preserves R (Retention.visit cutoff name c).
Proof.
  intros w. rewrite RetentionProps.visit_run.
  destruct (Retention.expired cutoff name); [|reflexivity].
  destruct (storage w !! name) as [[]|]; cbn; try reflexivity.
  apply el_delete.
Qed.

Lemma preserves_sweep cutoff names : forall c,
  preserves R (Retention.sweep cutoff names c).
Proof.
  induction names as [|name names IH]; intros c; cbn.
  - apply preserves_ret.
  - apply preserves_bind; [apply preserves_visit | intros ?; apply IH].
Qed.

Lemma preserves_cleanup now : preserves R (Retention.cleanup_old_recordings now).
Proof.
  unfold Retention.cleanup_old_recordings, Retention.listdir.
  apply preserves_try_except; [|intros ?; apply preserves_ret].
  apply preserves_get_self; intros w.
  apply (preserves_bind (lift _)); [apply preserves_lift|intros cutoff].
  apply (preserves_bind (fun w => (Ret _, w))); [intros ?; reflexivity|].
  intros names.
  apply preserves_bind; [apply preserves_sweep|intros ?].
  apply preserves_ret.
Qed.

Lemma step_preserved w w' : Api.step w w' -> R w w'.
Proof.
  destruct 1.
  - apply preserves_start_recording.
  - apply preserves_start_step.
  - apply preserves_stop_recording.
  - apply preserves_motion_detected.
  - apply preserves_update_camera_setting.
  - apply preserves_cleanup.
  - apply preserves_toggle.
  - apply preserves_set_auto_delete.
  - apply preserves_get_frame.
  - apply preserves_record_video.
  - apply preserves_record_from.
Qed.

End Preserved.

#[local] Instance same_backend_preorder : PreOrder same_backend.
Proof.
  split.
  - by intros w.
  - intros w1 w2 w3 H1 H2. unfold same_backend in *. congruence.
Qed.

#[local] Instance entries_kept_preorder : PreOrder entries_kept.
Proof.
  split.
  - by intros w name kind.
  - intros w1 w2 w3 H1 H2 name kind H. by apply H2, H1.
Qed.

Lemma same_backend_elementary : elementary same_backend.
Proof.
  split; try done.
  intros n w E. unfold same_backend. cbn. by rewrite E.
Qed.

Lemma entries_kept_elementary : elementary entries_kept.
Proof.
  split; intros; intros entry kind Hentry; cbn; try done.
  rewrite lookup_insert_ne; [done|]. congruence.
Qed.

(** X4: the backend that [init_camera] chose at start-up is the backend of
    every world the program reaches from there: the adapter is never
    missing and never replaced (only the synthetic adapter's frame
    counter moves), so [/api/status] always reports the camera as
    available. *)
Theorem camera_backend_fixed p files w :
  rtc Api.step (Api.boot p files) w ->
  backend_of <$> camera_adapter (self w) = Some (backend_of (chosen_adapter p)) /\
  Routes.status_camera_available (Routes.get_status w) = true.
Proof.
  intros Hreach.
  assert (same_backend (Api.boot p files) w) as Hsame.
  { induction Hreach as [|w1 w2 w3 Hstep _ IH]; [done|].
    etrans; [|exact IH].
    apply (step_preserved same_backend same_backend_elementary); [|done].
    intros name w. by unfold same_backend. }
  unfold same_backend in Hsame. unfold Api.boot in Hsame.
  rewrite CameraProps.init_camera_run in Hsame. cbn in Hsame.
  split; [done|].
  unfold Routes.get_status. cbn.
  by destruct (camera_adapter (self w)).
Qed.

(** On the laptop, after a motion toggle, a start and a stop. *)
Lemma camera_backend_fixed_witness :
  backend_of
  <$> camera_adapter
        (self (snd (stop_recording (Scenario.recording PNone))))
  = Some (backend_of (chosen_adapter Scenario.laptop)) /\
  Routes.status_camera_available
    (Routes.get_status (snd (stop_recording (Scenario.recording PNone))))
  = true.
Proof.
  apply (camera_backend_fixed Scenario.laptop ∅).
  eapply rtc_l; [apply Api.step_start|].
  eapply rtc_l; [apply Api.step_stop|].
  apply rtc_refl.
Defined.

(** X5: no step of the program other than a retention sweep removes or
    replaces an entry of the storage directory. *)
Theorem only_the_sweep_deletes w w' name kind :
  step_no_sweep w w' ->
  storage w !! name = Some kind ->
  storage w' !! name = Some kind.
Proof.
  intros Hstep.
  exact (step_no_sweep_preserved entries_kept entries_kept_elementary
           w w' Hstep name kind).
Qed.

(** A stop while recording leaves the folder of the recording in place. *)
Lemma only_the_sweep_deletes_witness :
  storage (snd (stop_recording (Scenario.recording PNone))) !! "2024-01-15"
  = Some Dir.
Proof.
  apply (only_the_sweep_deletes (Scenario.recording PNone)
           (snd (stop_recording (Scenario.recording PNone)))).
  - apply ns_stop.
  - vm_compute. reflexivity.
Defined.

End FrameProps.

(** ** Recording from start to stop *)

Module SessionProps.

Import Datetime Recorder Notions Tools Frames Capture.

(** A tick changes the synthetic counter and the sink history, nothing
    else. *)
Lemma tick_only_captured r filepath duration k w :
  only_captured w (snd (tick r filepath duration k w)).
Proof.
  unfold only_captured, same_backend.
  tick_cases; repeat split; try done;
    match goal with H : camera_adapter _ = _ |- _ => by rewrite H end.
Qed.

Lemma only_captured_refl w : only_captured w w.
Proof. by repeat split. Qed.

Lemma only_captured_trans w1 w2 w3 :
  only_captured w1 w2 -> only_captured w2 w3 -> only_captured w1 w3.
Proof.
  unfold only_captured, same_backend.
  intros (a1 & b1 & c1 & d1 & e1 & f1 & g1 & h1 & i1)
         (a2 & b2 & c2 & d2 & e2 & f2 & g2 & h2 & i2).
  repeat split; congruence.
Qed.

Lemma loop_only_captured fuel r filepath duration : forall k w,
  only_captured w
    match capture_loop fuel r filepath duration k w with
    | Looping _ w' | Left _ w' => w'
    end.
Proof.
  induction fuel as [|fuel IH]; intros k w; cbn; [apply only_captured_refl|].
  destruct (is_recording (self w)); [|apply only_captured_refl].
  pose proof (tick_only_captured r filepath duration k w) as H.
  destruct (tick r filepath duration k w) as [[[]|e] w1]; cbn in *; try done.
  eapply only_captured_trans; [exact H | apply IH].
Qed.

(** With the flag up and a started thread on record, a stop succeeds and
    lowers the flag; nothing else changes. *)
Lemma stop_recording_accepted w t :
  is_recording (self w) = true ->
  recording_thread (self w) = Some t ->
  thread_started t = true ->
  stop_recording w
  = (Ret (true, [Text "Recording stopped"]),
     with_self (set_is_recording false) w).
Proof.
  intros Hflag Ht Hs. unfold stop_recording, join. unfold_method.
  by rewrite Hflag, Ht, Hs.
Qed.

(** X6: a whole session: an accepted start, [n] passes of the thread during
    which the writer accepts and the cap is not met, then a stop.  The
    thread is still recording when the stop arrives; the stop succeeds;
    at its next test of the flag the thread closes the sink and returns.
    Over the session the sink was opened once and closed once, and the
    recorder is idle again. *)
Theorem record_then_stop env duration trigger r n w :
  is_recording (self w) = false ->
  storage w !! strftime_date (now_date env) <> Some File ->
  thread_start_error env = None ->
  VideoWriter_error r = None ->
  (forall j, (j < n)%nat ->
     write_error r j = None /\ cap_reached r j duration = Ret false) ->
  let filepath := thread_filepath (thread_of env duration trigger w) in
  let w1 := snd (start_recording env duration trigger w) in
  exists w2 w3 w4,
    _record_video n r filepath duration w1 = Suspended n w2 /\
    stop_recording w2 = (Ret (true, [Text "Recording stopped"]), w3) /\
    record_from 1 r filepath duration n w3 = Returned Stopped w4 /\
    is_recording (self w4) = false /\
    opens filepath (sink_log w4) = S (opens filepath (sink_log w)) /\
    releases filepath (sink_log w4) = S (releases filepath (sink_log w)).
Proof.
  intros Hidle Hdir Hth Hv Hok filepath w1.
  destruct (StartStopProps.start_recording_accepted env duration trigger w
              Hidle Hdir Hth) as (w1' & Hrun & _ & Hthread & Hflag & Hlog).
  assert (w1 = w1') as -> by (unfold w1; by rewrite Hrun).
  destruct (ThreadProps.open_sink_ok r filepath w1' Hv)
    as (wo & Ho & Hfo & Hro & Hoo).
  destruct (LoopProps.loop_runs_on r filepath duration n 0 wo)
    as (w2 & Hloop & Hf2).
  { congruence. }
  { intros j Hj. apply Hok. lia. }
  { intros j Hj. apply Hok. lia. }
  cbn [Nat.add] in Hloop.
  pose proof (loop_only_captured n r filepath duration 0 wo) as Hcap.
  rewrite Hloop in Hcap. destruct Hcap as (_ & _ & Ht2 & _).
  assert (recording_thread (self wo) = recording_thread (self w1')) as Hto.
  { unfold open_sink, log_sink in Ho. rewrite Hv in Ho.
    by injection Ho as <-. }
  pose proof (LoopProps.loop_count r filepath duration (is_release filepath) n
                ltac:(done) 0 wo) as Hr2.
  pose proof (LoopProps.loop_count r filepath duration (is_open filepath) n
                ltac:(done) 0 wo) as Ho2.
  rewrite Hloop in Hr2, Ho2.
  exists w2, (with_self (set_is_recording false) w2).
  destruct (LoopProps.stopped_thread_returns 0 r filepath duration n w2)
    as (w4 & Hret & Hf4 & Hr4).
  assert (stop_recording w2
          = (Ret (true, [Text "Recording stopped"]),
             with_self (set_is_recording false) w2)) as Hstop.
  { apply (stop_recording_accepted w2 (thread_of env duration trigger w));
      [done | congruence | done]. }
  rewrite Hstop in Hret. cbn [snd] in Hret.
  exists w4. split.
  { unfold _record_video. rewrite Ho. unfold record_from. by rewrite Hloop. }
  split; [done|]. split; [done|]. split; [done|].
  pose proof (LoopProps.returned_opens _ _ _ _ _ _ _ _ Hret) as Ho4.
  change (sink_log (with_self (set_is_recording false) w2))
    with (sink_log w2) in Ho4.
  unfold opens, releases in *. rewrite Hlog in *. split; lia.
Qed.

(** Three seconds on the laptop with the smooth clock and no cap. *)
Lemma record_then_stop_witness :
  exists w2 w3 w4,
    _record_video 90 Scenario.smooth Scenario.clip PNone
      (Scenario.recording PNone)
    = Suspended 90 w2 /\
    stop_recording w2 = (Ret (true, [Text "Recording stopped"]), w3) /\
    record_from 1 Scenario.smooth Scenario.clip PNone 90 w3
    = Returned Stopped w4 /\
    is_recording (self w4) = false /\
    opens Scenario.clip (sink_log w4)
    = S (opens Scenario.clip (sink_log Scenario.idle_laptop)) /\
    releases Scenario.clip (sink_log w4)
    = S (releases Scenario.clip (sink_log Scenario.idle_laptop)).
Proof.
  apply (record_then_stop Scenario.at_morning PNone "manual" Scenario.smooth 90
           Scenario.idle_laptop).
  - reflexivity.
  - vm_compute. discriminate.
  - reflexivity.
  - reflexivity.
  - intros j Hj. split; reflexivity.
Defined.

Lemma stop_recording_elsewhere w :
  storage (snd (stop_recording w)) = storage w /\
  running (snd (stop_recording w)) = running w.
Proof.
  unfold stop_recording, join. unfold_method.
  destruct (is_recording (self w)); cbn; [|done].
  by destruct (recording_thread (self w)) as [[? ? []]|].
Qed.

(** X7: a stop followed by an accepted start before the old thread has
    tested the flag again (a motion edge while the stop waits in [join],
    or a [join] that timed out): the old thread finds the flag up and
    stays in its loop, for as many passes as its writer accepts and its
    cap is not met.  The stop has not ended it. *)
Theorem restart_revives_old_thread env duration' trigger r filepath duration k n w :
  storage w !! strftime_date (now_date env) <> Some File ->
  thread_start_error env = None ->
  (forall j, (k <= j < k + n)%nat ->
     write_error r j = None /\ cap_reached r j duration = Ret false) ->
  let w1 := snd (stop_recording w) in
  let restart := start_recording env duration' trigger w1 in
  fst restart = Ret (true, started_msg (recording_filename env trigger)) /\
  running (snd restart) = running w ++ [thread_of env duration' trigger w1] /\
  exists w3,
    record_from n r filepath duration k (snd restart) = Suspended (k + n) w3 /\
    is_recording (self w3) = true.
Proof.
  intros Hdir Hth Hok w1 restart.
  destruct (stop_recording_elsewhere w) as [Hst Hrn].
  destruct (StartStopProps.start_recording_accepted env duration' trigger w1)
    as (w2 & Hrun & Hthreads & _ & Hflag & _).
  { apply LoopProps.stop_recording_flag_down. }
  { unfold w1. by rewrite Hst. }
  { done. }
  unfold restart. rewrite Hrun. cbn [fst snd].
  split; [done|]. split; [unfold w1 in *; congruence|].
  destruct (LoopProps.loop_runs_on r filepath duration n k w2)
    as (w3 & Hloop & Hf3); [done | intros; by apply Hok ..|].
  exists w3. unfold record_from. by rewrite Hloop.
Qed.

(** The laptop records; a stop and a motion start follow at once; the
    thread of the first recording is looked at 90 passes later. *)
Lemma restart_revives_old_thread_witness :
  fst Situation.restart
  = Ret (true, started_msg (recording_filename Scenario.at_morning "motion")) /\
  running (snd Situation.restart)
  = running Situation.thirty_in
    ++ [thread_of Scenario.at_morning (PInt 180) "motion" Situation.stopped] /\
  exists w3,
    record_from 90 Scenario.smooth Scenario.clip PNone 30
      (snd Situation.restart)
    = Suspended (30 + 90) w3 /\
    is_recording (self w3) = true.
Proof.
  apply (restart_revives_old_thread Scenario.at_morning (PInt 180) "motion"
           Scenario.smooth Scenario.clip PNone 30 90 Situation.thirty_in).
  - vm_compute. discriminate.
  - reflexivity.
  - intros j Hj. split; reflexivity.
Defined.

(** X8: a start that is let in and then fails, because the date folder's
    name belongs to a file or because the thread cannot be started,
    reports "Recording failed", starts no thread, deletes nothing and
    leaves the recorder idle: a later start whose folder and thread can
    be created is accepted. *)
Theorem failed_start_leaves_idle env duration trigger w :
  is_recording (self w) = false ->
  storage w !! strftime_date (now_date env) = Some File \/
  (exists e, thread_start_error env = Some e) ->
  exists e w',
    start_recording env duration trigger w
    = (Ret (false, start_failed_msg e), w') /\
    is_recording (self w') = false /\
    running w' = running w /\
    sink_log w' = sink_log w /\
    entries_kept w w' /\
    forall env2 duration2 trigger2,
      storage w' !! strftime_date (now_date env2) <> Some File ->
      thread_start_error env2 = None ->
      fst (start_recording env2 duration2 trigger2 w')
      = Ret (true, started_msg (recording_filename env2 trigger2)).
Proof.
  intros Hidle Hbad.
  assert (exists e w',
            start_recording env duration trigger w
            = (Ret (false, start_failed_msg e), w') /\
            is_recording (self w') = false /\
            running w' = running w /\
            sink_log w' = sink_log w) as (e & w' & Hrun & Hflag & Hthreads & Hlog).
  { unfold start_recording, raise_flag, start_rest, makedirs, thread_start.
    unfold_method. rewrite Hidle. cbn.
    destruct Hbad as [Hfile|[e He]].
    - rewrite Hfile. cbn. do 2 eexists. by repeat split.
    - rewrite He.
      destruct (storage w !! strftime_date (now_date env)) as [[]|]; cbn;
        do 2 eexists; by repeat split. }
  exists e, w'. split; [done|]. split; [done|]. split; [done|]. split; [done|].
  split.
  - pose proof (@FrameProps.preserves_start_recording entries_kept
                  FrameProps.entries_kept_preorder
                  FrameProps.entries_kept_elementary env duration trigger w) as H.
    by rewrite Hrun in H.
  - intros env2 duration2 trigger2 Hdir Hth.
    destruct (StartStopProps.start_recording_accepted env2 duration2 trigger2
                w' Hflag Hdir Hth) as (w2 & -> & _).
    done.
Qed.

(** The thread cannot be started; then it can. *)
Lemma failed_start_leaves_idle_witness :
  exists e w',
    start_recording
      (mkStartEnv Scenario.morning Scenario.morning
         (Some (Exn "RuntimeError" "can't start new thread")))
      PNone "manual" Scenario.idle_laptop
    = (Ret (false, start_failed_msg e), w') /\
    is_recording (self w') = false /\
    running w' = running Scenario.idle_laptop /\
    sink_log w' = sink_log Scenario.idle_laptop /\
    entries_kept Scenario.idle_laptop w' /\
    forall env2 duration2 trigger2,
      storage w' !! strftime_date (now_date env2) <> Some File ->
      thread_start_error env2 = None ->
      fst (start_recording env2 duration2 trigger2 w')
      = Ret (true, started_msg (recording_filename env2 trigger2)).
Proof.
  apply (failed_start_leaves_idle
           (mkStartEnv Scenario.morning Scenario.morning
              (Some (Exn "RuntimeError" "can't start new thread")))
           PNone "manual" Scenario.idle_laptop).
  - reflexivity.
  - right. eexists. reflexivity.
Defined.

(** *** What reaches the file *)

(** One tick with a writer that accepts: the frame of the tick, if
    there is one, is appended in BGR; the adapter moves on. *)
Lemma tick_writes r filepath duration k w a :
  camera_adapter (self w) = Some a ->
  write_error r k = None ->
  sink_log (snd (tick r filepath duration k w))
  = sink_log w
    ++ match frame_of_tick a r k with
       | Some f => [SinkWrote filepath f]
       | None => []
       end /\
  camera_adapter (self (snd (tick r filepath duration k w)))
  = Some (adapter_after_tick a).
Proof.
  intros Ha Hw. unfold frame_of_tick, adapter_after_tick.
  tick_cases; rewrite ?app_nil_r; done.
Qed.

(** X9: while the thread stays in its loop (flag up, writer accepting, cap
    not met), the sink receives exactly the frames of its ticks, oldest
    first and each in BGR order: from a hardware adapter the frames the
    camera delivered, converted when the adapter is the Pi camera, with
    nothing written for a tick without a frame; from the synthetic
    adapter one frame per tick, numbered on from its counter. *)
Theorem frames_written_in_order r filepath duration n : forall k w a,
  camera_adapter (self w) = Some a ->
  is_recording (self w) = true ->
  (forall j, (k <= j < k + n)%nat ->
     write_error r j = None /\ cap_reached r j duration = Ret false) ->
  exists w',
    record_from n r filepath duration k w = Suspended (k + n) w' /\
    sink_log w'
    = sink_log w ++ (SinkWrote filepath <$> frames_of_ticks a r k n) /\
    Forall (fun f => order f = BGR) (frames_of_ticks a r k n) /\
    (length (frames_of_ticks a r k n) <= n)%nat.
Proof.
  unfold record_from.
  induction n as [|n IH]; intros k w a Ha Hflag Hok.
  - cbn. rewrite Nat.add_0_r, app_nil_r. eexists. by repeat split.
  - cbn [capture_loop frames_of_ticks]. rewrite Hflag.
    destruct (Hok k ltac:(lia)) as [Hw Hc].
    destruct (tick_writes r filepath duration k w a Ha Hw) as [Hlog Had].
    pose proof (LoopProps.tick_flag r filepath duration k w) as Hf.
    pose proof (LoopProps.tick_sound r filepath duration k w Hw) as Ht.
    rewrite Hc in Ht.
    destruct (tick r filepath duration k w) as [o w1]; cbn [fst snd] in *.
    subst o.
    destruct (IH (S k) w1 (adapter_after_tick a)) as (w' & Hrun & Hlog' & Hall & Hlen).
    + done.
    + congruence.
    + intros j Hj. apply Hok. lia.
    + destruct (capture_loop n r filepath duration (S k) w1)
        as [k' w''|o w'']; [|by destruct o as [[]|]].
      injection Hrun as -> ->.
      exists w'. replace (k + S n)%nat with (S k + n)%nat by lia.
      split; [done|]. split.
      { rewrite Hlog', Hlog, fmap_app, <- app_assoc. f_equal.
        by destruct (frame_of_tick a r k). }
      split.
      { apply Forall_app. split; [|done].
        unfold frame_of_tick. destruct a; repeat case_match;
          simplify_eq; repeat constructor. }
      rewrite length_app. destruct (frame_of_tick a r k); cbn; lia.
Qed.

(** Three ticks on the laptop's synthetic adapter, whose counter stands
    at 0: frames 0, 1 and 2. *)
Lemma frames_written_in_order_witness :
  exists w',
    record_from 3 Scenario.smooth Scenario.clip PNone 0
      (Scenario.recording PNone)
    = Suspended (0 + 3) w' /\
    sink_log w'
    = sink_log (Scenario.recording PNone)
      ++ (SinkWrote Scenario.clip
          <$> frames_of_ticks (SyntheticCameraAdapter 0) Scenario.smooth 0 3) /\
    Forall (fun f => order f = BGR)
      (frames_of_ticks (SyntheticCameraAdapter 0) Scenario.smooth 0 3) /\
    (length (frames_of_ticks (SyntheticCameraAdapter 0) Scenario.smooth 0 3)
     <= 3)%nat.
Proof.
  apply (frames_written_in_order Scenario.smooth Scenario.clip PNone 3 0
           (Scenario.recording PNone) (SyntheticCameraAdapter 0)).
  - reflexivity.
  - reflexivity.
  - intros j Hj. split; reflexivity.
Defined.

(** A Pi camera that delivers in ticks 0 and 2 and nothing in tick 1:
    two frames reach the file, both converted to BGR. *)
Example pi_frames_converted :
  frames_of_ticks (PiCameraAdapter true)
    (mkRecEnv None 0 (fun _ => 0%Q)
       (fun k => if Nat.eqb k 1 then Ret None else Ret (Some (10 + k)%nat))
       (fun _ => None))
    0 3
  = [mkFrame 10 BGR; mkFrame 12 BGR].
Proof. reflexivity. Qed.

End SessionProps.

(** ** Settings: what reaches the camera and what is read back *)

Module ControlProps.

Import Settings Notions Controls.

Lemma known_key_present w k :
  Api.reachable w -> known_key (PStr k) = true ->
  is_Some (camera_settings (self w) !! k).
Proof.
  intros Hw Hk. apply (Invariants.reachable_keys w k Hw).
  cbn in Hk. by apply bool_decide_eq_true in Hk.
Qed.

Lemma driven_cases k :
  k ∈ driven_keys <-> k = "brightness" \/ k = "contrast" \/ k = "white_balance".
Proof.
  unfold driven_keys. rewrite !elem_of_cons, elem_of_nil. tauto.
Qed.

Lemma driven_known k : k ∈ driven_keys -> known_key (PStr k) = true.
Proof.
  intros H. apply driven_cases in H. destruct H as [H|[H|H]]; by subst k.
Qed.

(** The method on a known key: the store, then the camera, then the
    answer by the camera's outcome. *)
Lemma update_known_run p k value w :
  is_Some (camera_settings (self w) !! k) ->
  update_camera_setting p (PStr k) value w
  = match apply_to_camera p k value (stored k value w) with
    | (Ret _, w') => (Ret (true, updated_msg (PStr k) value), w')
    | (Raise e, w') => (Ret (false, failed_msg (PStr k) e), w')
    end.
Proof.
  intros Hin. unfold update_camera_setting. unfold_method.
  rewrite bool_decide_eq_true_2 by done.
  rewrite SettingsProps.store_setting_run. fold (stored k value w).
  by destruct (apply_to_camera p k value (stored k value w)) as [[[]|e] w1].
Qed.

(** X10: without a Pi camera that has live controls, and for the settings
    [zoom], [exposure_mode] and [focus] on any camera, an update of a
    known key succeeds whatever the value is, stores it, and nothing is
    handed to the camera: the world changes in the mapping only. *)
Theorem setting_stored_not_driven p k value w :
  Api.reachable w ->
  known_key (PStr k) = true ->
  PICAMERA_AVAILABLE p && has_live_controls (self w) = false \/
  k ∉ driven_keys ->
  update_camera_setting p (PStr k) value w
  = (Ret (true, updated_msg (PStr k) value), stored k value w).
Proof.
  intros Hw Hk Hcase.
  rewrite update_known_run by by apply known_key_present.
  unfold apply_to_camera. unfold_method.
  change (has_live_controls (self (stored k value w)))
    with (has_live_controls (self w)).
  destruct Hcase as [->|Hnot]; [done|].
  destruct (PICAMERA_AVAILABLE p && has_live_controls (self w)); [|done].
  rewrite driven_cases in Hnot.
  destruct (String.eqb_spec k "brightness") as [->|_]; [tauto|].
  destruct (String.eqb_spec k "contrast") as [->|_]; [tauto|].
  destruct (String.eqb_spec k "white_balance") as [->|_]; [tauto|done].
Qed.

(** [zoom] on the Pi with a value that is no number at all. *)
Lemma setting_stored_not_driven_witness :
  update_camera_setting Scenario.pi (PStr "zoom") (PList []) Scenario.idle_pi
  = (Ret (true, updated_msg (PStr "zoom") (PList [])),
     stored "zoom" (PList []) Scenario.idle_pi).
Proof.
  apply (setting_stored_not_driven Scenario.pi "zoom" (PList [])
           Scenario.idle_pi).
  - apply Api.reach_boot.
  - reflexivity.
  - right. rewrite driven_cases. by intros [|[|]].
Defined.

(** *** How an [int] reaches the camera *)

(** [float] of an integer below [2^53] in size is that integer. *)
Lemma round_to_double_small z :
  Z.abs z < 2 ^ 53 -> round_to_double z = z.
Proof.
  intros Hz. unfold round_to_double. cbv zeta.
  destruct (Z.leb_spec (Z.log2 (Z.abs z) + 1) 53) as [_|Hbig]; [done|].
  exfalso.
  destruct (Z.eq_dec (Z.abs z) 0) as [E|E].
  - rewrite E in Hbig. change (Z.log2 0) with 0 in Hbig. lia.
  - assert (Z.log2 (Z.abs z) < 53); [|lia].
    apply Z.log2_lt_pow2; lia.
Qed.

(** [float] of a longer integer is a double: 53 bits [q] times the power
    of two that the length of the integer asks for, with the sign of
    the integer; it is within half a unit of the last place of the
    integer, and on a tie [q] is even. *)
Lemma round_to_double_nearest z :
  2 ^ 53 <= Z.abs z ->
  exists q,
    round_to_double z = Z.sgn z * (q * 2 ^ (Z.log2 (Z.abs z) - 52)) /\
    2 ^ 52 <= q <= 2 ^ 53 /\
    2 * Z.abs (q * 2 ^ (Z.log2 (Z.abs z) - 52) - Z.abs z)
    <= 2 ^ (Z.log2 (Z.abs z) - 52) /\
    (2 * Z.abs (q * 2 ^ (Z.log2 (Z.abs z) - 52) - Z.abs z)
     = 2 ^ (Z.log2 (Z.abs z) - 52) ->
     Z.even q = true).
Proof.
  intros Hz. set (a := Z.abs z) in *.
  assert (53 <= Z.log2 a) as Hlog.
  { apply Z.log2_le_pow2; lia. }
  unfold round_to_double. cbv zeta. fold a.
  rewrite (proj2 (Z.leb_gt _ _)) by lia.
  replace (Z.log2 a + 1 - 53) with (Z.log2 a - 52) by lia.
  set (s := Z.log2 a - 52).
  assert (1 <= s) as Hs by (unfold s; lia).
  rewrite Z.shiftr_div_pow2, Z.land_ones, !Z.shiftl_mul_pow2 by lia.
  rewrite Z.mul_1_l.
  pose proof (Z.log2_spec a ltac:(lia)) as [Hlo Hhi].
  assert (2 ^ Z.log2 a = 2 ^ 52 * 2 ^ s) as E1.
  { unfold s. rewrite <- Z.pow_add_r by lia. f_equal. lia. }
  assert (2 ^ Z.succ (Z.log2 a) = 2 ^ 53 * 2 ^ s) as E2.
  { unfold s. rewrite <- Z.pow_add_r by lia. f_equal. lia. }
  assert (2 ^ s = 2 * 2 ^ (s - 1)) as E3.
  { rewrite <- (Z.pow_succ_r 2 (s - 1)) by lia. f_equal. lia. }
  assert (0 < 2 ^ (s - 1)) as Hpos by (apply Z.pow_pos_nonneg; lia).
  pose proof (Z.div_mod a (2 ^ s) ltac:(lia)) as Hdm.
  pose proof (Z.mod_pos_bound a (2 ^ s) ltac:(lia)) as Hmod.
  set (q := a / 2 ^ s) in *. set (r := a mod 2 ^ s) in *.
  set (h := 2 ^ (s - 1)) in *. set (P := 2 ^ s) in *.
  assert (2 ^ 52 <= q < 2 ^ 53) as Hq.
  { rewrite E1, E2 in *. clearbody q r P h. nia. }
  eexists. split; [reflexivity|].
  clearbody q r P h.
  destruct ((h <? r) || ((r =? h) && Z.odd q)) eqn:Hup.
  - split; [lia|].
    apply orb_true_iff in Hup as [Hup|Hup].
    + apply Z.ltb_lt in Hup. split; [nia|]. intros Htie. nia.
    + apply andb_true_iff in Hup as [Hup Hodd]. apply Z.eqb_eq in Hup.
      split; [nia|]. intros _.
      by rewrite Z.add_1_r, Z.even_succ.
  - split; [lia|].
    apply orb_false_iff in Hup as [Hup Htie]. apply Z.ltb_ge in Hup.
    split; [nia|]. intros Heq.
    assert (r = h) as Hrh by nia.
    rewrite (proj2 (Z.eqb_eq r h) Hrh) in Htie. cbn in Htie.
    by rewrite <- Z.negb_odd, Htie.
Qed.

(** On known values: [2^53 + 1] lies between two doubles and goes to the
    even one, [2^53 + 3] goes up, and [10^30] is no double. *)
Example round_to_double_cases :
  round_to_double 9007199254740993 = 9007199254740992 /\
  round_to_double 9007199254740995 = 9007199254740996 /\
  round_to_double (-9007199254740993) = -9007199254740992 /\
  round_to_double (10 ^ 30) = 1000000000000000019884624838656.
Proof. repeat split; vm_compute; reflexivity. Qed.

(** X11: on a Pi camera with live controls, an update of [brightness],
    [contrast] or [white_balance] succeeds exactly when the value
    converts and the camera accepts the control; then that one control
    has been applied.  Otherwise the call reports the exception and the
    camera has received nothing; the value is stored in both cases.
    A number reaches the camera as [float] gives it, an [int] as the
    nearest double.  For [white_balance] every value converts: anything but the string
    [auto] switches the automatic white balance off. *)
Theorem setting_driven p k value w :
  Api.reachable w ->
  k ∈ driven_keys ->
  PICAMERA_AVAILABLE p = true ->
  has_live_controls (self w) = true ->
  update_camera_setting p (PStr k) value w
  = match control_for p k value with
    | Ret c =>
        match set_controls_error p c with
        | None =>
            (Ret (true, updated_msg (PStr k) value),
             set_applied (applied w ++ [c]) (stored k value w))
        | Some e => (Ret (false, failed_msg (PStr k) e), stored k value w)
        end
    | Raise e => (Ret (false, failed_msg (PStr k) e), stored k value w)
    end.
Proof.
  intros Hw Hk Hp Hlive.
  rewrite update_known_run
    by (apply known_key_present; [done | by apply driven_known]).
  unfold apply_to_camera, control_for, set_controls. unfold_method.
  change (has_live_controls (self (stored k value w)))
    with (has_live_controls (self w)).
  rewrite Hp, Hlive. cbn [andb].
  destruct (String.eqb_spec k "brightness") as [->|Hb].
  { destruct (py_float p value) as [f|e]; [|done].
    by destruct (set_controls_error p (Brightness f)). }
  destruct (String.eqb_spec k "contrast") as [->|Hc].
  { destruct (py_float p value) as [f|e]; [|done].
    by destruct (set_controls_error p (Contrast f)). }
  assert (k = "white_balance") as ->.
  { apply driven_cases in Hk. tauto. }
  cbn. destruct (eq_str value "auto");
    by destruct (set_controls_error p (AwbEnable _)).
Qed.

(** [white_balance := "Auto"] on the Pi: accepted, and the automatic
    white balance is switched off. *)
Lemma setting_driven_witness :
  update_camera_setting Scenario.pi (PStr "white_balance") (PStr "Auto")
    Scenario.idle_pi
  = match control_for Scenario.pi "white_balance" (PStr "Auto") with
    | Ret c =>
        match set_controls_error Scenario.pi c with
        | None =>
            (Ret (true, updated_msg (PStr "white_balance") (PStr "Auto")),
             set_applied (applied Scenario.idle_pi ++ [c])
               (stored "white_balance" (PStr "Auto") Scenario.idle_pi))
        | Some e =>
            (Ret (false, failed_msg (PStr "white_balance") e),
             stored "white_balance" (PStr "Auto") Scenario.idle_pi)
        end
    | Raise e =>
        (Ret (false, failed_msg (PStr "white_balance") e),
         stored "white_balance" (PStr "Auto") Scenario.idle_pi)
    end.
Proof.
  apply (setting_driven Scenario.pi "white_balance" (PStr "Auto")
           Scenario.idle_pi).
  - apply Api.reach_boot.
  - apply driven_cases. tauto.
  - reflexivity.
  - reflexivity.
Defined.

Example white_balance_capital_auto :
  applied
    (snd (update_camera_setting Scenario.pi (PStr "white_balance")
            (PStr "Auto") Scenario.idle_pi))
  = [AwbEnable false] /\
  applied
    (snd (update_camera_setting Scenario.pi (PStr "white_balance")
            (PStr "auto") Scenario.idle_pi))
  = [AwbEnable true].
Proof. split; vm_compute; reflexivity. Qed.

(** [contrast := 9007199254740993] on the Pi: the mapping keeps the
    [int], the camera receives the double next to it. *)
Example contrast_int_rounded :
  applied
    (snd (update_camera_setting Scenario.pi (PStr "contrast")
            (PInt 9007199254740993) Scenario.idle_pi))
  = [Contrast (FFinite (inject_Z 9007199254740992))] /\
  camera_settings
    (self (snd (update_camera_setting Scenario.pi (PStr "contrast")
                  (PInt 9007199254740993) Scenario.idle_pi)))
    !! "contrast"
  = Some (PInt 9007199254740993).
Proof. split; vm_compute; reflexivity. Qed.

(** X12: after an update of a known key, [/api/status] shows the new value
    under that key, whether or not the call reported success; and an
    update with any key and any value, known or not, leaves the values
    under all other keys as they were. *)
Theorem setting_read_back p setting value w :
  Api.reachable w ->
  let w' := snd (update_camera_setting p setting value w) in
  (forall k, setting = PStr k -> known_key setting = true ->
     Routes.status_settings (Routes.get_status w') !! k = Some value) /\
  (forall j, setting <> PStr j ->
     Routes.status_settings (Routes.get_status w') !! j
     = Routes.status_settings (Routes.get_status w) !! j).
Proof.
  intros Hw w'. unfold Routes.get_status. cbn [Routes.status_settings].
  split.
  - intros k -> Hk. unfold w'.
    rewrite update_known_run by by apply known_key_present.
    pose proof (SettingsProps.apply_to_camera_settings p k value
                  (stored k value w)) as Hs.
    destruct (apply_to_camera p k value (stored k value w)) as [[[]|e] w1];
      cbn in *; rewrite Hs; apply lookup_insert_eq.
  - intros j Hj. unfold w', update_camera_setting. unfold_method.
    destruct setting as [| | | |k| |]; try done.
    case_bool_decide; [|done].
    rewrite SettingsProps.store_setting_run.
    pose proof (SettingsProps.apply_to_camera_settings p k value
                  (stored k value w)) as Hs.
    fold (stored k value w).
    destruct (apply_to_camera p k value (stored k value w)) as [[[]|e] w1];
      cbn in *; rewrite Hs; apply lookup_insert_ne; congruence.
Qed.

Lemma setting_read_back_witness :
  (forall k, PStr "brightness" = PStr k -> known_key (PStr "brightness") = true ->
     Routes.status_settings (Routes.get_status Situation.dimmed) !! k
     = Some PNone) /\
  (forall j, PStr "brightness" <> PStr j ->
     Routes.status_settings (Routes.get_status Situation.dimmed) !! j
     = Routes.status_settings (Routes.get_status Scenario.idle_pi) !! j).
Proof.
  apply (setting_read_back Scenario.pi (PStr "brightness") PNone
           Scenario.idle_pi).
  apply Api.reach_boot.
Defined.

End ControlProps.

(** ** The listing of the archive *)

Module LibraryProps.

Import Library Notions Listing.

(** *** The order of [sorted] *)

Lemma ascii_compare_lt a b :
  Ascii.compare a b = Lt <-> (N_of_ascii a < N_of_ascii b)%N.
Proof. unfold Ascii.compare. apply N.compare_lt_iff. Qed.

Lemma ascii_compare_eq a b : Ascii.compare a b = Eq <-> a = b.
Proof.
  split; [apply Ascii.compare_eq_iff|].
  intros ->. unfold Ascii.compare. apply N.compare_refl.
Qed.

Lemma ascii_compare_gt a b :
  Ascii.compare a b = Gt <-> (N_of_ascii b < N_of_ascii a)%N.
Proof. unfold Ascii.compare. apply N.compare_gt_iff. Qed.

Lemma str_le_trans : Transitive str_le.
Proof.
  unfold str_le, String.leb.
  intros s1. induction s1 as [|c1 s1 IH]; intros s2 s3 H12 H23.
  - by destruct s3.
  - destruct s2 as [|c2 s2]; [done|].
    destruct s3 as [|c3 s3]; [done|].
    cbn in *.
    destruct (Ascii.compare c1 c2) eqn:E12; [| |done].
    + apply ascii_compare_eq in E12 as ->.
      destruct (Ascii.compare c2 c3) eqn:E23; [|done|done].
      by apply (IH s2 s3).
    + apply ascii_compare_lt in E12.
      destruct (Ascii.compare c2 c3) eqn:E23; [| |done].
      * apply ascii_compare_eq in E23 as <-.
        by rewrite (proj2 (ascii_compare_lt c1 c2) E12).
      * apply ascii_compare_lt in E23.
        pose proof (N.lt_trans _ _ _ E12 E23) as H13.
        by rewrite (proj2 (ascii_compare_lt c1 c3) H13).
Qed.

Lemma str_le_total : Total str_le.
Proof. intros a b. apply String.leb_total. Qed.

Lemma str_le_antisym a b : str_le a b -> str_le b a -> a = b.
Proof. apply String.leb_antisym. Qed.

Lemma sorted_strongly names : StronglySorted str_le (sorted names).
Proof.
  apply StronglySorted_merge_sort; [apply str_le_trans | apply str_le_total].
Qed.

Lemma sorted_elem names name : name ∈ sorted names <-> name ∈ names.
Proof. unfold sorted. by rewrite merge_sort_Permutation. Qed.

Lemma sorted_NoDup names : NoDup names -> NoDup (sorted names).
Proof. unfold sorted. by rewrite merge_sort_Permutation. Qed.

Lemma filter_strongly (P : string -> bool) l :
  StronglySorted str_le l -> StronglySorted str_le (List.filter P l).
Proof.
  induction 1 as [|x l Hs IH Hall]; cbn; [constructor|].
  destruct (P x); [|done].
  constructor; [done|].
  rewrite Forall_forall in *. intros y Hy.
  apply Hall. apply list_elem_of_In in Hy. apply list_elem_of_In.
  by apply List.filter_In in Hy as [? _].
Qed.

(** *** One folder *)

Lemma collect_videos_ok disk date_path names : forall videos,
  collect_videos disk date_path names = Ret videos ->
  filename <$> videos = List.filter is_video_name names /\
  Forall (describes disk date_path) videos.
Proof.
  induction names as [|name names IH]; intros videos; cbn.
  - intros [= <-]. by split.
  - destruct (is_video_name name); [|apply IH].
    destruct (stat_of disk (Recorder.path_join date_path name))
      as [[sz ct]|e] eqn:Es; [|done].
    destruct (collect_videos disk date_path names) as [vs|e]; [|done].
    intros [= <-]. destruct (IH vs eq_refl) as [Hn Hall].
    split; [cbn; by f_equal|].
    constructor; [|done]. by repeat split.
Qed.

Lemma folder_videos_ok disk date_path videos :
  folder_videos disk date_path = Ret videos ->
  exists names,
    listdir_of disk date_path = Ret names /\
    filename <$> videos = List.filter is_video_name (sorted names) /\
    Forall (describes disk date_path) videos.
Proof.
  unfold folder_videos.
  destruct (listdir_of disk date_path) as [names|e]; [|done].
  intros H. exists names. split; [done|]. by apply collect_videos_ok.
Qed.

(** *** The scan *)

Section Scan.

Variable disk : Disk.
Variable root : string.
Variable entries : gmap string fs_kind.

Lemma scan_acc folders : forall acc,
  scan_folders disk root entries folders acc
  = acc ++ scan_folders disk root entries folders [].
Proof.
  induction folders as [|f folders IH]; intros acc; cbn.
  - by rewrite app_nil_r.
  - destruct (entries !! f) as [[]|]; try apply IH.
    destruct (folder_videos disk (Recorder.path_join root f)) as [[|v vs]|e].
    + apply IH.
    + rewrite IH, (IH [_]). by rewrite app_assoc.
    + by rewrite app_nil_r.
Qed.

(** Whatever the scan returns for a folder is that folder's complete,
    non-empty list. *)
Lemma scan_elem folders f videos :
  (f, videos) ∈ scan_folders disk root entries folders [] ->
  f ∈ folders /\ entries !! f = Some Dir /\
  folder_videos disk (Recorder.path_join root f) = Ret videos /\
  videos <> [].
Proof.
  induction folders as [|g folders IH]; cbn.
  - by intros ?%elem_of_nil.
  - assert ((f, videos) ∈ scan_folders disk root entries folders [] ->
            f ∈ g :: folders /\ entries !! f = Some Dir /\
            folder_videos disk (Recorder.path_join root f) = Ret videos /\
            videos <> []) as Hrest.
    { intros H. destruct (IH H) as (? & ? & ? & ?). repeat split; try done.
      by right. }
    destruct (entries !! g) as [[]|] eqn:Eg; try done.
    destruct (folder_videos disk (Recorder.path_join root g))
      as [[|v vs]|e] eqn:Ev; [done| |by intros ?%elem_of_nil].
    rewrite scan_acc. intros [H|H]%elem_of_app; [|by apply Hrest].
    apply list_elem_of_singleton in H. injection H as -> ->.
    repeat split; try done. by left.
Qed.

(** The keys of the scan are among the folders, in their order. *)
Lemma scan_keys_sublist folders :
  (scan_folders disk root entries folders []).*1 `sublist_of` folders.
Proof.
  induction folders as [|g folders IH]; cbn; [done|].
  destruct (entries !! g) as [[]|]; try by apply sublist_cons.
  destruct (folder_videos disk (Recorder.path_join root g)) as [[|v vs]|e].
  - by apply sublist_cons.
  - rewrite scan_acc. cbn. by apply sublist_skip.
  - apply sublist_nil_l.
Qed.

(** When no folder raises, every folder with a non-empty list is
    returned. *)
Lemma scan_complete folders f videos :
  (forall g, g ∈ folders -> entries !! g = Some Dir ->
     exists vs, folder_videos disk (Recorder.path_join root g) = Ret vs) ->
  f ∈ folders -> entries !! f = Some Dir ->
  folder_videos disk (Recorder.path_join root f) = Ret videos ->
  videos <> [] ->
  (f, videos) ∈ scan_folders disk root entries folders [].
Proof.
  induction folders as [|g folders IH]; intros Hok Hin Hdir Hv Hne.
  { by apply elem_of_nil in Hin. }
  assert (f ∈ folders -> (f, videos) ∈ scan_folders disk root entries folders [])
    as Hrest.
  { intros H. apply IH; try done. intros h Hh. apply Hok. by right. }
  cbn. destruct (decide (f = g)) as [<-|Hfg].
  - rewrite Hdir, Hv. destruct videos as [|v vs]; [done|].
    rewrite scan_acc. apply elem_of_app. left. by left.
  - apply elem_of_cons in Hin as [?|Hin]; [done|].
    destruct (entries !! g) as [[]|] eqn:Eg; try by apply Hrest.
    destruct (Hok g ltac:(by left) Eg) as [vs Hvs]. rewrite Hvs.
    destruct vs as [|v vs]; [by apply Hrest|].
    rewrite scan_acc. apply elem_of_app. right. by apply Hrest.
Qed.

(** A folder that raises ends the scan: the result is the scan of the
    folders before it. *)
Lemma scan_cut pre f post e :
  entries !! f = Some Dir ->
  folder_videos disk (Recorder.path_join root f) = Raise e ->
  scan_folders disk root entries (pre ++ f :: post) []
  = scan_folders disk root entries pre [].
Proof.
  intros Hdir Hraise. induction pre as [|g pre IH]; cbn.
  - by rewrite Hdir, Hraise.
  - destruct (entries !! g) as [[]|]; try done.
    destruct (folder_videos disk (Recorder.path_join root g)) as [[|v vs]|?];
      try done.
    rewrite scan_acc, (scan_acc pre). by rewrite IH.
Qed.

End Scan.

Lemma sublist_strongly (l k : list string) :
  l `sublist_of` k -> StronglySorted str_le k -> StronglySorted str_le l.
Proof.
  induction 1 as [|x l k Hsub IH|x l k Hsub IH]; intros Hk.
  - constructor.
  - apply StronglySorted_inv in Hk as [Hk Hall].
    constructor; [by apply IH|].
    rewrite Forall_forall in *. intros y Hy. apply Hall.
    by apply (sublist_subseteq _ _ Hsub).
  - apply StronglySorted_inv in Hk as [Hk _]. by apply IH.
Qed.

Lemma listing_folders w name :
  name ∈ sorted (map_to_list (storage w)).*1 <-> is_Some (storage w !! name).
Proof. rewrite sorted_elem. apply RetentionProps.in_listing. Qed.

(** X13: every date folder the listing returns is a directory of the storage
    directory that could be read, and its list is complete and not
    empty: the names of the folder that end in [.mp4], [.avi] or
    [.mov], in sorted order, each with its own path, size, creation time
    and duration. *)
Theorem listing_sound disk w folder videos :
  (folder, videos) ∈ get_video_files disk w ->
  let date_path := Recorder.path_join (video_storage_path (self w)) folder in
  storage w !! folder = Some Dir /\
  videos <> [] /\
  exists names,
    listdir_of disk date_path = Ret names /\
    filename <$> videos = List.filter is_video_name (sorted names) /\
    Forall (describes disk date_path) videos.
Proof.
  intros Hin date_path. unfold get_video_files in Hin.
  apply scan_elem in Hin as (_ & Hdir & Hv & Hne).
  split; [done|]. split; [done|]. by apply folder_videos_ok.
Qed.

(** A folder of the archive, and two files in it that count as videos
    beside two that do not. *)
Lemma listing_sound_witness :
  storage Scenario.with_archive !! "2024-01-10" = Some Dir /\
  Shelf.found <> [] /\
  exists names,
    listdir_of Shelf.shelf
      (Recorder.path_join (video_storage_path (self Scenario.with_archive))
         "2024-01-10")
    = Ret names /\
    filename <$> Shelf.found = List.filter is_video_name (sorted names) /\
    Forall
      (describes Shelf.shelf
         (Recorder.path_join (video_storage_path (self Scenario.with_archive))
            "2024-01-10"))
      Shelf.found.
Proof.
  apply (listing_sound Shelf.shelf Scenario.with_archive "2024-01-10"
           Shelf.found).
  vm_compute. left.
Defined.

(** The whole listing of that archive: the folder without videos and
    the stray file are left out, the names are sorted, and the name in
    capitals does not count. *)
Example listing_example :
  get_video_files Shelf.shelf Scenario.with_archive
  = [("2024-01-10", Shelf.found)] /\
  filename <$> Shelf.found = ["a.mp4"; "b.mov"].
Proof. split; vm_compute; reflexivity. Qed.

Lemma listing_keys_sublist disk w :
  (get_video_files disk w).*1
  `sublist_of` sorted (map_to_list (storage w)).*1.
Proof. apply scan_keys_sublist. Qed.

(** X14: the listing comes sorted: the date folders in ascending order
    without repeats, and the file names of each folder in ascending
    order. *)
Theorem listing_sorted disk w :
  StronglySorted str_le (get_video_files disk w).*1 /\
  NoDup (get_video_files disk w).*1 /\
  Forall (fun entry => StronglySorted str_le (filename <$> entry.2))
    (get_video_files disk w).
Proof.
  split; [|split].
  - eapply sublist_strongly; [apply listing_keys_sublist|].
    apply sorted_strongly.
  - eapply sublist_NoDup; [|apply listing_keys_sublist].
    apply sorted_NoDup, NoDup_fst_map_to_list.
  - apply Forall_forall. intros [folder videos] Hin. cbn.
    unfold get_video_files in Hin.
    apply scan_elem in Hin as (_ & _ & Hv & _).
    apply folder_videos_ok in Hv as (names & _ & -> & _).
    apply filter_strongly, sorted_strongly.
Qed.

(** X15: when every directory of the storage directory can be listed and
    its video files can be examined, a folder is in the listing exactly
    when it is a directory that holds at least one name ending in
    [.mp4], [.avi] or [.mov]. *)
Theorem listing_complete disk w :
  (forall folder,
     storage w !! folder = Some Dir ->
     exists videos,
       folder_videos disk
         (Recorder.path_join (video_storage_path (self w)) folder)
       = Ret videos) ->
  forall folder,
    folder ∈ (get_video_files disk w).*1 <->
    storage w !! folder = Some Dir /\
    exists names name,
      listdir_of disk (Recorder.path_join (video_storage_path (self w)) folder)
      = Ret names /\
      name ∈ names /\ is_video_name name = true.
Proof.
  intros Hok folder. split.
  - intros Hin. apply list_elem_of_fmap in Hin as ([f videos] & -> & Hin).
    cbn. unfold get_video_files in Hin.
    apply scan_elem in Hin as (_ & Hdir & Hv & Hne).
    split; [done|].
    apply folder_videos_ok in Hv as (names & Hl & Hn & _).
    exists names. destruct videos as [|v vs]; [done|].
    exists (filename v). split; [done|].
    assert (In (filename v) (List.filter is_video_name (sorted names))) as Hf.
    { rewrite <- Hn. by left. }
    apply List.filter_In in Hf as [Hf ?]. split; [|done].
    by apply sorted_elem, list_elem_of_In.
  - intros (Hdir & names & name & Hl & Hname & Hvid).
    destruct (Hok folder Hdir) as [videos Hv].
    apply list_elem_of_fmap. exists (folder, videos). split; [done|].
    unfold get_video_files. apply scan_complete; try done.
    + intros g _. apply Hok.
    + apply listing_folders. eauto.
    + apply folder_videos_ok in Hv as (names' & Hl' & Hn & _).
      assert (names' = names) as -> by congruence.
      intros ->. cbn in Hn.
      assert (In name (List.filter is_video_name (sorted names))) as Hf.
      { apply List.filter_In. split; [|done].
        by apply list_elem_of_In, sorted_elem. }
      by rewrite <- Hn in Hf.
Qed.

Lemma listing_complete_witness :
  "2024-01-10" ∈ (get_video_files Shelf.shelf Scenario.with_archive).*1 <->
  storage Scenario.with_archive !! "2024-01-10" = Some Dir /\
  exists names name,
    listdir_of Shelf.shelf
      (Recorder.path_join (video_storage_path (self Scenario.with_archive))
         "2024-01-10")
    = Ret names /\
    name ∈ names /\ is_video_name name = true.
Proof.
  apply (listing_complete Shelf.shelf Scenario.with_archive).
  intros folder H.
  change (storage Scenario.with_archive) with Scenario.archive in H.
  unfold Scenario.archive in H.
  rewrite !lookup_insert_Some, lookup_empty in H.
  destruct H as [[<- _]|[_ [[<- _]|[_ [[_ [=]]|[_ [=]]]]]]];
    eexists; vm_compute; reflexivity.
Defined.

(** X16: a directory that cannot be listed, or one of whose video files
    cannot be examined, ends the listing without an error: the function
    returns what it had, so that folder and every folder that sorts
    after it are missing. *)
Theorem listing_cut_short disk w folder e :
  storage w !! folder = Some Dir ->
  folder_videos disk (Recorder.path_join (video_storage_path (self w)) folder)
  = Raise e ->
  forall g videos,
    (g, videos) ∈ get_video_files disk w ->
    str_le g folder /\ g <> folder.
Proof.
  intros Hdir Hraise g videos Hin. unfold get_video_files in Hin.
  assert (folder ∈ sorted (map_to_list (storage w)).*1) as Hf.
  { apply listing_folders. eauto. }
  pose proof (sorted_strongly (map_to_list (storage w)).*1) as Hs.
  pose proof (sorted_NoDup _ (NoDup_fst_map_to_list (storage w))) as Hnd.
  apply list_elem_of_split in Hf as (pre & post & Heq).
  rewrite Heq in Hin, Hs, Hnd.
  rewrite (scan_cut disk _ _ pre folder post e Hdir Hraise) in Hin.
  apply scan_elem in Hin as (Hg & _).
  split.
  - eapply StronglySorted_app_1_elem_of; [exact Hs | done | by left].
  - intros ->. apply NoDup_app in Hnd as (_ & Hnot & _).
    apply (Hnot folder Hg). by left.
Qed.

(** The grown archive: the folder of 2024-01-10 is listed, the folder
    of 2024-03-01 is lost behind the unreadable one. *)
Lemma listing_cut_short_witness :
  str_le "2024-01-10" "2024-02-01" /\ "2024-01-10" <> "2024-02-01".
Proof.
  apply (listing_cut_short Shelf.locked Shelf.grown "2024-02-01"
           (Exn "PermissionError" "recordings/2024-02-01")
           eq_refl eq_refl "2024-01-10" Shelf.found).
  vm_compute. left.
Defined.

Example listing_cut_short_example :
  get_video_files Shelf.locked Shelf.grown = [("2024-01-10", Shelf.found)] /\
  storage Shelf.grown !! "2024-03-01" = Some Dir /\
  is_video_name "c.avi" = true.
Proof. split; [|split]; vm_compute; reflexivity. Qed.

(** A file whose frame rate reads as zero, and a file that cannot be
    opened, are listed with duration 0. *)
Example duration_of_unreadable :
  get_video_duration
    (mkDisk (fun _ => Ret []) (fun _ => Ret (0, "")) (fun _ => Ret (0, 900)%Q)
       (fun q => q)) "x.mp4"
  = PInt 0 /\
  get_video_duration
    (mkDisk (fun _ => Ret []) (fun _ => Ret (0, ""))
       (fun _ => Raise (Exn "cv2.error" "open")) (fun q => q)) "x.mp4"
  = PInt 0.
Proof. split; reflexivity. Qed.

End LibraryProps.

(** ** Dates: the calendar, folder names, and the age the sweep goes by *)

Module DateProps.

Import Datetime Retention Notions Calendar.

(** *** Day numbers *)

Lemma is_leap_spec y :
  is_leap y = true <-> y mod 4 = 0 /\ (y mod 100 <> 0 \/ y mod 400 = 0).
Proof.
  unfold is_leap.
  rewrite andb_true_iff, orb_true_iff, negb_true_iff, !Z.eqb_eq, Z.eqb_neq.
  tauto.
Qed.

Lemma days_before_year_mono a b :
  a <= b -> days_before_year a + 365 * (b - a) <= days_before_year b.
Proof.
  intros H. unfold days_before_year. cbv zeta.
  Z.div_mod_to_equations. lia.
Qed.

Lemma days_before_year_succ y :
  days_before_year (y + 1)
  = days_before_year y + 365 + (if is_leap y then 1 else 0).
Proof.
  unfold days_before_year. cbv zeta.
  destruct (is_leap y) eqn:E.
  - apply is_leap_spec in E. Z.div_mod_to_equations. lia.
  - assert (~ (y mod 4 = 0 /\ (y mod 100 <> 0 \/ y mod 400 = 0))) as E'.
    { rewrite <- is_leap_spec. congruence. }
    Z.div_mod_to_equations. lia.
Qed.

Ltac month_cases m :=
  let H := fresh in
  assert (m = 1 \/ m = 2 \/ m = 3 \/ m = 4 \/ m = 5 \/ m = 6 \/ m = 7 \/
          m = 8 \/ m = 9 \/ m = 10 \/ m = 11 \/ m = 12) as H by lia;
  destruct H as [->|[->|[->|[->|[->|[->|[->|[->|[->|[->|[->| ->]]]]]]]]]]].

(** The day of the year lies within the year. *)
Lemma day_of_year_bounds y m d :
  1 <= m <= 12 -> 1 <= d <= days_in_month y m ->
  1 <= days_before_month y m + d <= 365 + (if is_leap y then 1 else 0).
Proof.
  intros Hm Hd. unfold days_in_month, days_before_month in *.
  month_cases m; destruct (is_leap y); cbn in *; lia.
Qed.

Lemma day_of_year_mono y m1 d1 m2 d2 :
  1 <= m1 -> m1 < m2 -> m2 <= 12 ->
  1 <= d1 <= days_in_month y m1 -> 1 <= d2 ->
  days_before_month y m1 + d1 < days_before_month y m2 + d2.
Proof.
  intros H1 H12 H2 Hd1 Hd2. unfold days_in_month, days_before_month in *.
  month_cases m1; month_cases m2; try lia;
    destruct (is_leap y); cbn in *; lia.
Qed.

(** Day numbers order dates as their fields do. *)
Lemma toordinal_compare a b :
  valid_date a -> valid_date b ->
  (toordinal a ?= toordinal b) = compare_dates a b.
Proof.
  intros (Hya & Hma & Hda) (Hyb & Hmb & Hdb).
  unfold toordinal, ymd2ord, compare_dates.
  pose proof (day_of_year_bounds _ _ _ Hma Hda) as Ba.
  pose proof (day_of_year_bounds _ _ _ Hmb Hdb) as Bb.
  destruct (Z.compare_spec (year a) (year b)) as [Ey|Ly|Ly].
  - rewrite Ey in *.
    destruct (Z.compare_spec (month a) (month b)) as [Em|Lm|Lm].
    + rewrite Em. destruct (Z.compare_spec (day a) (day b));
        [apply Z.compare_eq_iff | apply Z.compare_lt_iff
        | apply Z.compare_gt_iff]; lia.
    + apply Z.compare_lt_iff.
      pose proof (day_of_year_mono (year b) (month a) (day a) (month b) (day b)).
      lia.
    + apply Z.compare_gt_iff.
      pose proof (day_of_year_mono (year b) (month b) (day b) (month a) (day a)).
      lia.
  - apply Z.compare_lt_iff.
    pose proof (days_before_year_succ (year a)).
    pose proof (days_before_year_mono (year a + 1) (year b)). lia.
  - apply Z.compare_gt_iff.
    pose proof (days_before_year_succ (year b)).
    pose proof (days_before_year_mono (year b + 1) (year a)). lia.
Qed.

Lemma month_day_all leapyear :
  forallb (fun k => month_day_ok leapyear (Z.of_nat k)) (seq 0 365) = true.
Proof. destruct leapyear; vm_compute; reflexivity. Qed.

Lemma month_day_spec leapyear n :
  0 <= n < 365 -> month_day_ok leapyear n = true.
Proof.
  intros H. pose proof (month_day_all leapyear) as Hall.
  rewrite forallb_forall in Hall.
  specialize (Hall (Z.to_nat n)).
  rewrite Z2Nat.id in Hall by lia. apply Hall.
  apply in_seq. lia.
Qed.

Lemma ord2ymd_month_day n0 :
  ord2ymd n0 =
  let n := n0 - 1 in
  let n400 := n / 146097 in
  let n := n mod 146097 in
  let n100 := n / 36524 in
  let n := n mod 36524 in
  let n4 := n / 1461 in
  let n := n mod 1461 in
  let n1 := n / 365 in
  let n := n mod 365 in
  let y := n400 * 400 + 1 + n100 * 100 + n4 * 4 + n1 in
  if (n1 =? 4) || (n100 =? 4)
  then (y - 1, 12, 31)
  else
    let leapyear := (n1 =? 3) && (negb (n4 =? 24) || (n100 =? 3)) in
    (y, fst (month_day leapyear n), snd (month_day leapyear n)).
Proof.
  unfold ord2ymd, month_day. cbv zeta.
  destruct (_ || _); [reflexivity|].
  destruct (_ <? _); reflexivity.
Qed.

(** [_ord2ymd] gives a date of the calendar, and it is the date of that
    day number. *)
Lemma ord2ymd_ok n :
  1 <= n <= MAXORDINAL ->
  let '(y, m, d) := ord2ymd n in
  1 <= y <= 9999 /\ 1 <= m <= 12 /\ 1 <= d <= days_in_month y m /\
  ymd2ord y m d = n.
Proof.
  unfold MAXORDINAL. intros Hn. rewrite ord2ymd_month_day. cbv zeta.
  pose proof (Z.div_mod (n - 1) 146097 ltac:(lia)) as E400.
  pose proof (Z.mod_pos_bound (n - 1) 146097 ltac:(lia)) as B400.
  set (n400 := (n - 1) / 146097) in *.
  set (a := (n - 1) mod 146097) in *.
  pose proof (Z.div_mod a 36524 ltac:(lia)) as E100.
  pose proof (Z.mod_pos_bound a 36524 ltac:(lia)) as B100.
  set (n100 := a / 36524) in *.
  set (b := a mod 36524) in *.
  pose proof (Z.div_mod b 1461 ltac:(lia)) as E4.
  pose proof (Z.mod_pos_bound b 1461 ltac:(lia)) as B4.
  set (n4 := b / 1461) in *.
  set (c := b mod 1461) in *.
  pose proof (Z.div_mod c 365 ltac:(lia)) as E1.
  pose proof (Z.mod_pos_bound c 365 ltac:(lia)) as B1.
  set (n1 := c / 365) in *.
  set (r := c mod 365) in *.
  clearbody n400 a n100 b n4 c n1 r.
  assert (0 <= n400 /\ 0 <= n100 /\ 0 <= n4 /\ 0 <= n1) as Hnonneg by lia.
  destruct ((n1 =? 4) || (n100 =? 4)) eqn:Hspecial.
  - apply orb_true_iff in Hspecial. rewrite !Z.eqb_eq in Hspecial.
    assert (is_leap (n400 * 400 + 1 + n100 * 100 + n4 * 4 + n1 - 1) = true)
      as Hleap.
    { apply is_leap_spec. Z.div_mod_to_equations. lia. }
    unfold ymd2ord, days_in_month, days_before_month, days_before_year.
    rewrite Hleap.
    change (12 =? 2) with false. change (2 <? 12) with true.
    cbn [andb DAYS_IN_MONTH DAYS_BEFORE_MONTH]. cbv zeta.
    Z.div_mod_to_equations. lia.
  - apply orb_false_iff in Hspecial. rewrite !Z.eqb_neq in Hspecial.
    set (leapyear := (n1 =? 3) && (negb (n4 =? 24) || (n100 =? 3))).
    assert (is_leap (n400 * 400 + 1 + n100 * 100 + n4 * 4 + n1) = leapyear)
      as Hleap.
    { subst leapyear. apply eq_true_iff_eq. rewrite is_leap_spec.
      rewrite andb_true_iff, orb_true_iff, negb_true_iff, !Z.eqb_eq, Z.eqb_neq.
      Z.div_mod_to_equations. lia. }
    pose proof (month_day_spec leapyear r ltac:(lia)) as Hmd.
    unfold month_day_ok in Hmd.
    destruct (month_day leapyear r) as [m d]. cbn [fst snd].
    rewrite !andb_true_iff, !Z.leb_le, Z.eqb_eq in Hmd.
    unfold ymd2ord, days_in_month, days_before_month, days_before_year.
    rewrite Hleap. cbv zeta.
    destruct Hmd as ((((? & ?) & ?) & ?) & ?).
    Z.div_mod_to_equations. lia.
Qed.

(** [now - timedelta(days)], when it exists, is a date of the calendar,
    [days] days before the day of [now], with the time of [now]. *)
Lemma minus_days_ok now days cutoff :
  minus_days now days = Ret cutoff ->
  valid_date cutoff /\ toordinal cutoff = toordinal now - days /\
  hour cutoff = hour now /\ minute cutoff = minute now /\
  second cutoff = second now /\ microsecond cutoff = microsecond now.
Proof.
  unfold minus_days. destruct (_ <? Z.abs _); [done|].
  destruct (_ && _) eqn:Hrange; [|done].
  apply andb_true_iff in Hrange as [Hlo Hhi].
  apply Z.ltb_lt in Hlo. apply Z.leb_le in Hhi.
  pose proof (ord2ymd_ok (toordinal now - days) ltac:(lia)) as Hok.
  destruct (ord2ymd (toordinal now - days)) as [[y m] d].
  intros [= <-]. unfold valid_date, toordinal. cbn. tauto.
Qed.

(** A day at midnight against a moment: earlier when its day is earlier,
    and on the same day unless the moment is midnight itself. *)
Lemma datetime_lt_midnight a b :
  valid_date a -> valid_date b -> valid_time b ->
  datetime_lt (date_of a) b
  = match toordinal a ?= toordinal b with
    | Lt => true
    | Eq => negb (midnight b)
    | Gt => false
    end.
Proof.
  intros Ha Hb (Hh & Hm & Hs & Hu).
  rewrite (toordinal_compare a b Ha Hb).
  unfold datetime_lt, compare_dates, date_of, midnight.
  cbn [year month day hour minute second microsecond].
  destruct (year a ?= year b); [|done..].
  destruct (month a ?= month b); [|done..].
  destruct (day a ?= day b); [|done..].
  destruct (hour b) as [|?|?]; [|done|lia].
  destruct (minute b) as [|?|?]; [|done|lia].
  destruct (second b) as [|?|?]; [|done|lia].
  destruct (microsecond b) as [|?|?]; [done|done|lia].
Qed.

(** *** What [strptime] accepts *)

Lemma digit_of_bounds c d : digit_of c = Some d -> 0 <= d <= 9.
Proof.
  unfold digit_of. destruct (_ && _) eqn:E; [|done].
  apply andb_true_iff in E as [?%Z.leb_le ?%Z.leb_le].
  intros [= <-]. lia.
Qed.

Lemma in_range_bounds lo hi c d : in_range lo hi c = Some d -> lo <= d <= hi.
Proof.
  unfold in_range. destruct (digit_of c); [|done].
  destruct (_ && _) eqn:E; [|done].
  apply andb_true_iff in E as [?%Z.leb_le ?%Z.leb_le].
  intros [= <-]. lia.
Qed.

Lemma two_digits_bounds l1 h1 l2 h2 s v rest :
  two_digits l1 h1 l2 h2 s = Some (v, rest) ->
  l1 * 10 + l2 <= v <= h1 * 10 + h2.
Proof.
  unfold two_digits. destruct s as [|a [|b s]]; [done..|].
  destruct (in_range l1 h1 a) eqn:Ea; [|done].
  destruct (in_range l2 h2 b) eqn:Eb; [|done].
  apply in_range_bounds in Ea, Eb. intros [= <- _]. lia.
Qed.

Lemma one_digit_bounds lo hi s v rest :
  one_digit lo hi s = Some (v, rest) -> lo <= v <= hi.
Proof.
  unfold one_digit. destruct s as [|a s]; [done|].
  destruct (in_range lo hi a) eqn:Ea; [|done].
  apply in_range_bounds in Ea. by intros [= <- _].
Qed.

Lemma or_else_cases {A} (x y : option A) v :
  or_else x y = Some v -> x = Some v \/ y = Some v.
Proof. destruct x; cbn; auto. Qed.

Lemma parse_year_bounds s y rest :
  parse_year s = Some (y, rest) -> 0 <= y <= 9999.
Proof.
  unfold parse_year. destruct s as [|a [|b [|c [|d s]]]]; [done..|].
  destruct (digit_of a) eqn:Ea; [|done].
  destruct (digit_of b) eqn:Eb; [|done].
  destruct (digit_of c) eqn:Ec; [|done].
  destruct (digit_of d) eqn:Ed; [|done].
  apply digit_of_bounds in Ea, Eb, Ec, Ed. intros [= <- _]. lia.
Qed.

Lemma parse_month_bounds s m rest :
  parse_month s = Some (m, rest) -> 1 <= m <= 12.
Proof.
  unfold parse_month. intros H.
  apply or_else_cases in H as [H|H]; [apply two_digits_bounds in H; lia|].
  apply or_else_cases in H as [H|H]; [apply two_digits_bounds in H; lia|].
  apply one_digit_bounds in H. lia.
Qed.

Lemma parse_day_bounds s d rest :
  parse_day s = Some (d, rest) -> 1 <= d <= 31.
Proof.
  unfold parse_day. intros H.
  apply or_else_cases in H as [H|H]; [apply two_digits_bounds in H; lia|].
  apply or_else_cases in H as [H|H]; [apply two_digits_bounds in H; lia|].
  apply or_else_cases in H as [H|H]; [apply two_digits_bounds in H; lia|].
  apply or_else_cases in H as [H|H]; [apply one_digit_bounds in H; lia|].
  destruct s as [|c s]; [done|].
  destruct (Ascii.eqb_spec c " "%char) as [->|Hc].
  - apply one_digit_bounds in H. lia.
  - destruct c as [[] [] [] [] [] [] [] []]; try done.
Qed.

(** What [strptime] returns is a day of the calendar, at midnight. *)
Lemma strptime_ok s folder_date :
  strptime s = Ret folder_date ->
  valid_date folder_date /\ date_of folder_date = folder_date.
Proof.
  unfold strptime, match_format.
  destruct (parse_year _) as [[y s1]|] eqn:Ey; [|done].
  destruct (expect_dash s1) as [s2|]; [|done].
  destruct (parse_month s2) as [[m s3]|] eqn:Em; [|done].
  destruct (expect_dash s3) as [s4|]; [|done].
  destruct (parse_day s4) as [[d s5]|] eqn:Ed; [|done].
  destruct s5; [|done].
  destruct (_ && _) eqn:E; [|done].
  apply andb_true_iff in E as [?%Z.leb_le ?%Z.leb_le].
  apply parse_year_bounds in Ey. apply parse_month_bounds in Em.
  apply parse_day_bounds in Ed.
  intros [= <-]. unfold valid_date, date_of. cbn. split; [lia|done].
Qed.

(** *** Folder names read back *)

Lemma digit_of_digit k : digit_of (digit k) = Some (k mod 10).
Proof.
  unfold digit.
  pose proof (Z.mod_pos_bound k 10 ltac:(lia)) as B.
  assert (k mod 10 = 0 \/ k mod 10 = 1 \/ k mod 10 = 2 \/ k mod 10 = 3 \/
          k mod 10 = 4 \/ k mod 10 = 5 \/ k mod 10 = 6 \/ k mod 10 = 7 \/
          k mod 10 = 8 \/ k mod 10 = 9) as H by lia.
  destruct H as [->|[->|[->|[->|[->|[->|[->|[->|[->| ->]]]]]]]]];
    reflexivity.
Qed.

Lemma list_ascii_of_string_app a b :
  list_ascii_of_string (a +:+ b)
  = list_ascii_of_string a ++ list_ascii_of_string b.
Proof.
  induction a as [|c a IH]; [done|].
  change (String c a +:+ b) with (String c (a +:+ b)).
  cbn [list_ascii_of_string app]. by rewrite IH.
Qed.

Lemma parse_year_pad4 y rest :
  0 <= y <= 9999 ->
  parse_year (list_ascii_of_string (pad4 y) ++ rest) = Some (y, rest).
Proof.
  intros Hy. unfold pad4, pad2. cbn [list_ascii_of_string app parse_year].
  rewrite !digit_of_digit. do 2 f_equal.
  Z.div_mod_to_equations. lia.
Qed.

Lemma parse_month_pad2 m rest :
  1 <= m <= 12 ->
  parse_month (list_ascii_of_string (pad2 m) ++ rest) = Some (m, rest).
Proof. intros Hm. month_cases m; reflexivity. Qed.

Lemma parse_day_pad2 d rest :
  1 <= d <= 31 ->
  parse_day (list_ascii_of_string (pad2 d) ++ rest) = Some (d, rest).
Proof.
  intros Hd.
  assert (exists n, d = Z.of_nat n /\ (n < 32)%nat) as (n & -> & Hn).
  { exists (Z.to_nat d). lia. }
  do 32 (destruct n as [|n]; [first [lia | reflexivity]|]). lia.
Qed.

Lemma days_in_month_le y m : days_in_month y m <= 31.
Proof.
  unfold days_in_month, DAYS_IN_MONTH.
  destruct (_ && _); [lia|].
  destruct m as [|p|p]; try lia.
  do 4 (destruct p as [p|p|]; try lia).
Qed.

(** X17: the name the recorder gives a date folder, [strftime("%Y-%m-%d")] of
    a day of the years 1000 to 9999, is read by the sweep's
    [strptime(..., "%Y-%m-%d")] as that day at midnight: the folders
    the recorder makes are always among those the sweep considers. *)
Theorem folder_name_read_back d :
  valid_date d -> 1000 <= year d ->
  strptime (strftime_date d) = Ret (date_of d).
Proof.
  intros (Hy & Hm & Hd) Hy4.
  pose proof (days_in_month_le (year d) (month d)) as Hle.
  unfold strptime, match_format, strftime_date.
  rewrite !list_ascii_of_string_app.
  rewrite parse_year_pad4 by lia.
  change (list_ascii_of_string "-") with ["-"%char].
  cbn [app expect_dash].
  rewrite parse_month_pad2 by lia. cbn [app expect_dash].
  rewrite <- (app_nil_r (list_ascii_of_string (pad2 (day d)))).
  rewrite parse_day_pad2 by lia.
  rewrite (proj2 (Z.leb_le 1 (year d))) by lia.
  rewrite (proj2 (Z.leb_le (day d) _)) by lia.
  done.
Qed.

Lemma folder_name_read_back_witness :
  strptime (strftime_date Scenario.morning) = Ret (date_of Scenario.morning).
Proof.
  apply (folder_name_read_back Scenario.morning).
  - unfold valid_date. vm_compute. intuition discriminate.
  - vm_compute. discriminate.
Defined.

(** *** The age the sweep goes by *)

Lemma swept_lookup now cutoff w name :
  minus_days now (auto_delete_days (self w)) = Ret cutoff ->
  (forall name, storage w !! name = Some File -> expired cutoff name = false) ->
  storage (snd (cleanup_old_recordings now w)) !! name
  = if expired cutoff name then None else storage w !! name.
Proof.
  intros Hcut Hfiles.
  rewrite (RetentionProps.cleanup_run now cutoff w Hcut Hfiles). cbn.
  rewrite RetentionProps.lookup_remove_all.
  destruct (expired cutoff name) eqn:E.
  - case_bool_decide as Hin; [done|].
    destruct (storage w !! name) eqn:Hk; [|done].
    exfalso. apply Hin. apply list_elem_of_In, List.filter_In. split; [|done].
    apply list_elem_of_In, RetentionProps.in_listing. eauto.
  - rewrite bool_decide_eq_false_2; [done|].
    intros Hin. apply list_elem_of_In, List.filter_In in Hin as [_ He].
    congruence.
Qed.

(** X18: which date folders a sweep removes, by their age in days: with
    [auto_delete_days] at [n], a folder whose name reads as a date goes
    when the day of the sweep is more than [n] days after it, and also
    when it is exactly [n] days after it unless the sweep runs at
    midnight sharp; a younger folder stays.  (The date of a folder reads
    as its midnight, the cutoff carries the time of day of the sweep.) *)
Theorem swept_by_age now cutoff w name folder_date :
  valid_time now ->
  minus_days now (auto_delete_days (self w)) = Ret cutoff ->
  (forall name, storage w !! name = Some File -> expired cutoff name = false) ->
  storage w !! name = Some Dir ->
  strptime name = Ret folder_date ->
  storage (snd (cleanup_old_recordings now w)) !! name
  = if (auto_delete_days (self w) <? age_in_days now folder_date)
       || ((auto_delete_days (self w) =? age_in_days now folder_date)
           && negb (midnight now))
    then None
    else Some Dir.
Proof.
  intros Htime Hcut Hfiles Hdir Hparse.
  rewrite (swept_lookup now cutoff w name Hcut Hfiles), Hdir.
  unfold expired. rewrite Hparse.
  apply strptime_ok in Hparse as [Hvalid Hdate].
  apply minus_days_ok in Hcut as (Hc & Hord & Hh & Hm & Hs & Hu).
  assert (valid_time cutoff) as Hct.
  { unfold valid_time. by rewrite Hh, Hm, Hs, Hu. }
  assert (midnight cutoff = midnight now) as Hmid.
  { unfold midnight. by rewrite Hh, Hm, Hs, Hu. }
  pose proof (datetime_lt_midnight folder_date cutoff Hvalid Hc Hct) as Hlt.
  rewrite Hdate, Hord, Hmid in Hlt. rewrite Hlt.
  unfold age_in_days.
  set (n := auto_delete_days (self w)).
  set (today := toordinal now).
  set (made := toordinal folder_date).
  destruct (Z.compare_spec made (today - n)).
  - rewrite (proj2 (Z.ltb_ge n (today - made))) by lia.
    by rewrite (proj2 (Z.eqb_eq n (today - made))) by lia.
  - by rewrite (proj2 (Z.ltb_lt n (today - made))) by lia.
  - rewrite (proj2 (Z.ltb_ge n (today - made))) by lia.
    by rewrite (proj2 (Z.eqb_neq n (today - made))) by lia.
Qed.

(** The archive at noon of 2024-01-15 with seven days: the folder of
    2024-01-01 is fourteen days old. *)
Lemma swept_by_age_witness :
  storage (snd (cleanup_old_recordings Scenario.noon Scenario.with_archive))
    !! "2024-01-01"
  = if (auto_delete_days (self Scenario.with_archive)
          <? age_in_days Scenario.noon (mkDatetime 2024 1 1 0 0 0 0))
       || ((auto_delete_days (self Scenario.with_archive)
              =? age_in_days Scenario.noon (mkDatetime 2024 1 1 0 0 0 0))
           && negb (midnight Scenario.noon))
    then None
    else Some Dir.
Proof.
  apply (swept_by_age Scenario.noon (mkDatetime 2024 1 8 12 0 0 0)
           Scenario.with_archive "2024-01-01" (mkDatetime 2024 1 1 0 0 0 0)).
  - unfold valid_time. vm_compute. intuition discriminate.
  - vm_compute. reflexivity.
  - intros name H.
    change (storage Scenario.with_archive) with Scenario.archive in H.
    unfold Scenario.archive in H.
    rewrite !lookup_insert_Some, lookup_empty in H.
    destruct H as [[_ [=]]|[_ [[_ [=]]|[_ [[<- _]|[_ [=]]]]]]].
    vm_compute. reflexivity.
  - vm_compute. reflexivity.
  - vm_compute. reflexivity.
Defined.

(** The folder that is exactly seven days old at the sweep: removed by
    a sweep at noon, kept by a sweep at midnight sharp; and with zero
    days a sweep during the day removes the folder of the day itself. *)
Example swept_on_the_cutoff_day :
  let disk_of (days : Z) :=
    snd (Api.set_auto_delete days
           (Api.boot Scenario.laptop
              (<["2024-01-08" := Dir]> (<["2024-01-15" := Dir]> ∅)))) in
  storage (snd (cleanup_old_recordings Scenario.noon (disk_of 7)))
  = <["2024-01-15" := Dir]> ∅ /\
  storage (snd (cleanup_old_recordings (mkDatetime 2024 1 15 0 0 0 0)
                  (disk_of 7)))
  = <["2024-01-08" := Dir]> (<["2024-01-15" := Dir]> ∅) /\
  storage (snd (cleanup_old_recordings Scenario.noon (disk_of 0))) = ∅.
Proof. cbv zeta. split; [|split]; vm_compute; reflexivity. Qed.

End DateProps.

(** ** The request handlers *)

Module RouteProps.

Import Datetime Recorder Retention Notions Calendar Capture Routes Bodies.

(** X19: the development endpoint answers for the call, not for its effect:
    off Pi hardware it always returns success with status 200, nothing
    is raised, and the world is the one [motion_detected(None)] leaves;
    in particular the answer is the same when the edge is ignored
    because motion detection is off or a recording is running.  On Pi
    hardware it answers 403 and touches nothing. *)
Theorem simulated_motion_answer env w :
  fst (simulate_motion false env w)
  = Ret (mkResponse (true, [Text "Motion simulation triggered"]) 200) /\
  snd (simulate_motion false env w) = snd (motion_detected env PNone w) /\
  (motion_detection_enabled (self w) = false \/ is_recording (self w) = true ->
   snd (simulate_motion false env w) = w) /\
  simulate_motion true env w
  = (Ret (mkResponse (false, [Text "Not available on Pi hardware"]) 403), w).
Proof.
  unfold simulate_motion. cbn [negb]. unfold_method.
  rewrite StartStopProps.motion_detected_run.
  destruct (motion_detection_enabled (self w)) eqn:Hm;
    destruct (is_recording (self w)) eqn:Hr; cbn;
    (split; [done|]); (split; [done|]); (split; [|done]);
    try done.
  by intros [|].
Qed.

(** X20: a frame request sends at most one frame and only in BGR order; it
    sends none without an adapter and none when the hardware delivers
    nothing or raises; nothing is raised by the capture, and besides the
    synthetic adapter's counter the world is as before. *)
Theorem frame_sent_in_bgr hw w :
  exists sent w',
    handle_frame_request hw w = (Ret sent, w') /\
    only_captured w w' /\ sink_log w' = sink_log w /\
    (sent = [] \/ exists px, sent = [VideoFrame (mkFrame px BGR)]) /\
    (camera_adapter (self w) = None -> sent = []) /\
    (forall a, camera_adapter (self w) = Some a ->
       Frames.backend_of a <> Frames.SyntheticBackend ->
       (forall px, hw <> Ret (Some px)) -> sent = []).
Proof.
  unfold handle_frame_request, get_frame, to_bgr. unfold_method.
  unfold only_captured, Frames.same_backend.
  destruct w as [s st run app log]. cbn.
  destruct (camera_adapter s) as [[c| |n]|] eqn:Ha; cbn;
    [destruct hw as [[px|]|e]; cbn; rewrite ?Ha; cbn ..| |];
    do 2 eexists; (split; [reflexivity|]); cbn; rewrite ?Ha; cbn;
    (split; [done|]); (split; [done|]); (split; [eauto|]);
    (split; [done|]); try done.
  - intros a _ _ Hno. by destruct (Hno px).
  - intros a _ _ Hno. by destruct (Hno px).
  - intros a [= <-] Hb. by destruct Hb.
Qed.

(** A day of the calendar has a day number of the calendar. *)
Lemma toordinal_bounds d : valid_date d -> 1 <= toordinal d <= MAXORDINAL.
Proof.
  intros (Hy & Hm & Hd). unfold toordinal, ymd2ord.
  pose proof (DateProps.day_of_year_bounds _ _ _ Hm Hd) as B.
  pose proof (DateProps.days_before_year_succ (year d)) as S.
  pose proof (DateProps.days_before_year_mono 1 (year d) ltac:(lia)) as Lo.
  pose proof (DateProps.days_before_year_mono (year d + 1) 10000 ltac:(lia))
    as Hi.
  change (days_before_year 1) with 0 in Lo.
  change (days_before_year 10000) with 3652059 in Hi.
  unfold MAXORDINAL. destruct (is_leap (year d)); lia.
Qed.

(** X21: [/api/set-auto-delete] stores whatever [int(days)] gives, without a
    bound; and an age of 3652059 days or more makes every later sweep
    fail with an [OverflowError] message instead of deleting nothing:
    the sweep returns [(False, "Cleanup failed: ...")] and the storage
    directory is untouched. *)
Theorem oversized_age_breaks_sweep int_of_str items n now w :
  py_int int_of_str (dict_get items "days" (PInt 7)) = Ret n ->
  valid_date now ->
  MAXORDINAL <= n ->
  exists w',
    set_auto_delete_route int_of_str (PDict items) w = (Ret n, w') /\
    auto_delete_days (self w') = n /\
    storage w' = storage w /\
    exists e,
      exn_class e = "OverflowError" /\
      cleanup_old_recordings now w' = (Ret (false, cleanup_failed_msg e), w').
Proof.
  intros Hint Hnow Hn.
  unfold set_auto_delete_route, json_get, Api.set_auto_delete. unfold_method.
  rewrite Hint. cbn.
  eexists. split; [reflexivity|]. split; [done|]. split; [done|].
  pose proof (toordinal_bounds now Hnow) as B.
  unfold cleanup_old_recordings. unfold_method. cbn.
  unfold minus_days.
  destruct (Z.ltb_spec 999999999 (Z.abs n)).
  - eexists. split; [|reflexivity]. done.
  - rewrite (proj2 (Z.ltb_ge 0 (toordinal now - n))) by lia. cbn.
    eexists. split; [|reflexivity]. done.
Qed.

Lemma oversized_age_breaks_sweep_witness :
  exists w',
    set_auto_delete_route (fun _ => Raise (Exn "ValueError" "int"))
      (PDict [("days", PInt 4000000)]) Scenario.with_archive
    = (Ret 4000000, w') /\
    auto_delete_days (self w') = 4000000 /\
    storage w' = storage Scenario.with_archive /\
    exists e,
      exn_class e = "OverflowError" /\
      cleanup_old_recordings Scenario.noon w'
      = (Ret (false, cleanup_failed_msg e), w').
Proof.
  apply (oversized_age_breaks_sweep (fun _ => Raise (Exn "ValueError" "int"))
           [("days", PInt 4000000)] 4000000 Scenario.noon
           Scenario.with_archive).
  - reflexivity.
  - unfold valid_date. vm_compute. intuition discriminate.
  - vm_compute. discriminate.
Defined.

(** *** Which bodies make a handler raise *)

Lemma start_recording_returns env duration trigger w :
  exists r w', start_recording env duration trigger w = (Ret r, w').
Proof.
  unfold start_recording. unfold_method.
  destruct (is_recording (self w)); [eauto|].
  unfold start_handler, raise_flag. unfold_method.
  match goal with |- context [start_rest env duration trigger ?x] =>
    destruct (start_rest env duration trigger x) as [[r|e] w'] end; eauto.
Qed.

Lemma update_camera_setting_returns p setting value w :
  exists r w', Settings.update_camera_setting p setting value w = (Ret r, w').
Proof.
  unfold Settings.update_camera_setting, try_except.
  match goal with |- context [match ?m w with _ => _ end] =>
    destruct (m w) as [[r|e] w'] end; eauto.
Qed.

(** X22: the two handlers that read a JSON body differ in what they do with
    a body that is not an object.  [/api/camera-settings] calls
    [data.get] on whatever the body is: every body that is not an
    object, [null] included, raises [AttributeError] out of the handler,
    and an object never does.  [/api/start-recording] tests the body
    first: a falsy body ([null], [0], [false], the empty string, list or
    object) starts a recording without a cap, an object passes its
    [duration] on, and only a truthy body that is not an object raises.
    A handler that raises has changed nothing. *)
Theorem body_errors env p body w :
  (is_dict body = true ->
   exists r w', update_camera_settings_route p body w = (Ret r, w')) /\
  (is_dict body = false ->
   exists e,
     update_camera_settings_route p body w = (Raise e, w) /\
     exn_class e = "AttributeError") /\
  (is_dict body = true \/ truthy body = false ->
   exists r w', start_recording_route env body w = (Ret r, w')) /\
  (is_dict body = false -> truthy body = true ->
   exists e,
     start_recording_route env body w = (Raise e, w) /\
     exn_class e = "AttributeError").
Proof.
  unfold update_camera_settings_route, start_recording_route.
  split; [|split; [|split]].
  - destruct body; try done. intros _. cbn. unfold_method.
    apply update_camera_setting_returns.
  - destruct body; try done; intros _; eexists; split; reflexivity.
  - intros H. destruct (truthy body) eqn:Ht.
    + destruct H as [H|H]; [|done]. destruct body; try done.
      unfold_method. cbn. apply start_recording_returns.
    + unfold_method. apply start_recording_returns.
  - intros Hd Ht. rewrite Ht.
    destruct body; try done; eexists; split; reflexivity.
Qed.

(** A [null] body: [/api/camera-settings] raises, [/api/start-recording]
    records. *)
Lemma body_errors_witness :
  (exists e,
     update_camera_settings_route Scenario.laptop PNone Scenario.idle_laptop
     = (Raise e, Scenario.idle_laptop) /\
     exn_class e = "AttributeError") /\
  (exists r w',
     start_recording_route Scenario.at_morning PNone Scenario.idle_laptop
     = (Ret r, w')).
Proof.
  destruct (body_errors Scenario.at_morning Scenario.laptop PNone
              Scenario.idle_laptop) as (_ & Hset & Hstart & _).
  split; [apply Hset; reflexivity | apply Hstart; right; reflexivity].
Defined.

(** A list as body: both raise. *)
Example list_body_raises :
  fst (start_recording_route Scenario.at_morning (PList [PInt 5])
         Scenario.idle_laptop)
  = Raise (Exn "AttributeError" "'list' object has no attribute 'get'") /\
  fst (update_camera_settings_route Scenario.laptop (PList [PInt 5])
         Scenario.idle_laptop)
  = Raise (Exn "AttributeError" "'list' object has no attribute 'get'").
Proof. split; vm_compute; reflexivity. Qed.

End RouteProps.

(** ** When a stop can raise *)

Module StopProps.

Import Datetime Recorder Retention Notions Capture Turns.

Lemma not_raised_live w w' : thread_live w -> not_raised w w' -> thread_live w'.
Proof.
  unfold thread_live, not_raised. intros Hl [Ht Hf] Hup t Hrec.
  rewrite Ht in Hrec. by apply Hl; [apply Hf|].
Qed.

Lemma only_captured_not_raised w w' : only_captured w w' -> not_raised w w'.
Proof.
  intros (_ & Hf & Ht & _). split; [done|]. by rewrite Hf.
Qed.

Lemma apply_to_camera_not_raised p k value w :
  not_raised w (snd (Settings.apply_to_camera p k value w)).
Proof.
  unfold Settings.apply_to_camera, Settings.set_controls, not_raised.
  unfold_method.
  repeat break_match; by simplify_eq/=.
Qed.

Lemma not_raised_setting p setting value w :
  not_raised w (snd (Settings.update_camera_setting p setting value w)).
Proof.
  unfold Settings.update_camera_setting. unfold_method.
  destruct setting as [| | | |k| |]; try by split.
  case_bool_decide; [|by split].
  rewrite SettingsProps.store_setting_run.
  pose proof (apply_to_camera_not_raised p k value (Controls.stored k value w))
    as Hkept.
  fold (Controls.stored k value w).
  destruct (Settings.apply_to_camera p k value (Controls.stored k value w))
    as [[[]|e] w1]; exact Hkept.
Qed.

Lemma visit_self cutoff name c w :
  self (snd (visit cutoff name c w)) = self w.
Proof.
  unfold visit, rmtree. unfold_method.
  destruct (strptime name) as [d|e]; cbn.
  - destruct (datetime_lt d cutoff); cbn; [|done].
    by destruct (storage w !! name) as [[]|].
  - by destruct (String.eqb (exn_class e) "ValueError").
Qed.

Lemma sweep_self cutoff names : forall c w,
  self (snd (sweep cutoff names c w)) = self w.
Proof.
  induction names as [|name names IH]; intros c w; [done|].
  cbn [sweep]. unfold bind.
  pose proof (visit_self cutoff name c w) as Hv.
  destruct (visit cutoff name c w) as [[c'|e] w1]; cbn in *; [|done].
  by rewrite IH.
Qed.

Lemma not_raised_cleanup now w :
  not_raised w (snd (cleanup_old_recordings now w)).
Proof.
  unfold cleanup_old_recordings, listdir. unfold_method. unfold not_raised.
  destruct (minus_days now (auto_delete_days (self w))) as [cutoff|e]; [|done].
  pose proof (sweep_self cutoff (map_to_list (storage w)).*1 0 w) as Hs.
  destruct (sweep cutoff _ 0 w) as [[c|e] w1]; cbn in *; by rewrite Hs.
Qed.

Lemma not_raised_get_frame hw w : not_raised w (snd (get_frame hw w)).
Proof.
  unfold get_frame. unfold_method. unfold not_raised.
  repeat break_match; simplify_eq/=; (split; done).
Qed.

Lemma not_raised_stop w : not_raised w (snd (stop_recording w)).
Proof.
  unfold stop_recording, join. unfold_method. unfold not_raised.
  destruct (is_recording (self w)) eqn:Hf; cbn; [|by rewrite Hf].
  destruct (recording_thread (self w)) as [t|] eqn:Ht; cbn;
    [destruct (thread_started t); cbn|]; (split; done).
Qed.

Lemma not_raised_record_from fuel r filepath duration k w :
  not_raised w (Api.world_of (record_from fuel r filepath duration k w)).
Proof.
  unfold record_from.
  pose proof (SessionProps.loop_only_captured fuel r filepath duration k w)
    as H.
  apply only_captured_not_raised in H. destruct H as [Ht Hf].
  destruct (capture_loop fuel r filepath duration k w) as [k' w'|[x|e] w'];
    cbn; by split.
Qed.

Lemma not_raised_record_video fuel r filepath duration w :
  not_raised w (Api.world_of (_record_video fuel r filepath duration w)).
Proof.
  unfold _record_video, open_sink, log_sink. unfold_method.
  destruct (VideoWriter_error r); cbn; [by split|].
  apply (not_raised_record_from fuel r filepath duration 0
           (set_sink_log (sink_log w ++ [SinkOpened filepath]) w)).
Qed.

Lemma live_start env duration trigger w :
  thread_live w ->
  thread_live (snd (start_recording env duration trigger w)).
Proof.
  unfold thread_live, start_recording, raise_flag, start_rest, makedirs,
    thread_start, start_handler. unfold_method.
  intros Hl.
  destruct (is_recording (self w)) eqn:Hf; [by cbn; rewrite Hf|].
  cbn.
  destruct (storage w !! strftime_date (now_date env)) as [[]|]; cbn;
    destruct (thread_start_error env); cbn; try done;
    by intros _ t [= <-].
Qed.

Lemma live_motion env channel w :
  thread_live w -> thread_live (snd (motion_detected env channel w)).
Proof.
  intros Hl. rewrite StartStopProps.motion_detected_run.
  destruct (_ && _); [|done]. by apply live_start.
Qed.

Lemma step_in_turn_live w w' : step_in_turn w w' -> thread_live w -> thread_live w'.
Proof.
  intros Hstep Hl.
  destruct Hstep;
    first [ by apply live_start
          | by apply live_motion
          | eapply not_raised_live; [exact Hl|] ].
  - apply not_raised_stop.
  - apply not_raised_setting.
  - apply not_raised_cleanup.
  - by split.
  - by split.
  - apply not_raised_get_frame.
  - apply not_raised_record_video.
  - apply not_raised_record_from.
Qed.

Lemma boot_live p files : thread_live (Api.boot p files).
Proof.
  unfold thread_live, Api.boot. rewrite CameraProps.init_camera_run. done.
Qed.

(** X23: as long as no call of [start_recording] overlaps with another
    call, [stop_recording] never raises: in every state reached from
    start-up it returns, with success exactly when a recording was on,
    and the recorder is idle afterwards. *)
Theorem stop_returns_in_turn p files w :
  rtc step_in_turn (Api.boot p files) w ->
  exists msg w',
    stop_recording w = (Ret (is_recording (self w), msg), w') /\
    is_recording (self w') = false.
Proof.
  intros Hreach.
  assert (thread_live w) as Hl.
  { revert w Hreach. apply (rtc_ind_r thread_live); [apply boot_live|].
    intros w1 w2 _ Hstep IH. by eapply step_in_turn_live. }
  unfold thread_live in Hl.
  unfold stop_recording, join. unfold_method.
  destruct (is_recording (self w)) eqn:Hf; cbn; [|eauto].
  destruct (recording_thread (self w)) as [t|]; cbn; [|eauto].
  rewrite (Hl eq_refl t eq_refl). cbn. eauto.
Qed.

(** A recording, thirty passes of its thread, a stop, and a stop again. *)
Lemma stop_returns_in_turn_witness :
  exists msg w',
    stop_recording Situation.stopped
    = (Ret (is_recording (self Situation.stopped), msg), w') /\
    is_recording (self w') = false.
Proof.
  apply (stop_returns_in_turn Scenario.laptop ∅).
  eapply rtc_l; [apply (it_start Scenario.at_morning PNone "manual")|].
  eapply rtc_l;
    [apply (it_thread_begin 30 Scenario.smooth Scenario.clip PNone)|].
  eapply rtc_l; [apply it_stop|].
  apply rtc_refl.
Defined.

(** With overlap it can: a start whose thread could not be started
    leaves that thread on record; when a second start has raised the
    flag and not yet made its own thread, a stop tries to join the old
    one and raises out of the handler.  The state is one the program can
    reach. *)
Example stop_raises_in_overlap :
  Api.reachable second_start_let_in /\
  fst (stop_recording second_start_let_in)
  = Raise (Exn "RuntimeError" "cannot join thread before it is started") /\
  is_recording (self (snd (stop_recording second_start_let_in))) = false.
Proof.
  split; [|split; vm_compute; reflexivity].
  unfold second_start_let_in, after_failed_start.
  eapply Api.reach_step; [|apply Api.step_start_part].
  eapply Api.reach_step; [|apply Api.step_start_part].
  eapply Api.reach_step; [|apply Api.step_start].
  apply Api.reach_boot.
Qed.

End StopProps.
